(** * Affiliate link monitor: a shallow embedding of [src/index.js]

    The plugin scans built HTML for affiliate URLs, probes each distinct URL
    (HEAD request, timeout, retries), and rewrites every broken URL to a
    fallback URL in the files that use it.

    Modelling choices.
    - JavaScript strings are [string]s (sequences of bytes).  Every operation
      the plugin performs on text is a literal comparison or a search for an
      ASCII delimiter, so the byte view and the code-unit view agree.
    - JavaScript numbers that hold integers ([statusCode], [retries],
      [timeoutMs], delays) are [Z].
    - The network and the timers are effects: a probe asks the environment
      [net] whether the module refuses the request (the call throws) and
      otherwise for the event the transport delivers, and every probe, abort,
      delay and file write is appended to a log kept in the [world].
    - Files hold well-formed UTF-8, so reading and writing a file as text
      keeps its bytes.
    - An exception is [None] in the monad [M]. *)

From Stdlib Require Import ZArith Ascii String DecimalString Lia Bool.
From stdpp Require Import gmap strings list.

Local Open Scope Z_scope.

(* ------------------------------------------------------------------ *)
(** ** Text: the string primitives the plugin relies on *)
(* ------------------------------------------------------------------ *)

Module Text.

(** [s.length] *)
Abbreviation len := String.length.

(** [s.substring(n)] for [n] within bounds: drop the first [n] bytes. *)
Fixpoint drop (n : nat) (s : string) : string :=
  match n, s with
  | O, _ => s
  | S n', String _ s' => drop n' s'
  | S _, EmptyString => EmptyString
  end.

(** [s.substring(0, n)] for [n] within bounds. *)
Fixpoint take (n : nat) (s : string) : string :=
  match n, s with
  | S n', String c s' => String c (take n' s')
  | _, _ => EmptyString
  end.

(** [s.startsWith(p)] *)
Fixpoint startsWith (p s : string) : bool :=
  match p, s with
  | EmptyString, _ => true
  | String a p', String b s' => if Ascii.eqb a b then startsWith p' s' else false
  | String _ _, EmptyString => false
  end.

(** [s.includes(u)] *)
Fixpoint includes (u s : string) : bool :=
  if startsWith u s then true
  else match s with
       | EmptyString => false
       | String _ s' => includes u s'
       end.

(** Number of positions of [s] at which [u] starts (overlaps counted). *)
Fixpoint occurrences (u s : string) : nat :=
  ((if startsWith u s then 1 else 0) +
   match s with
   | EmptyString => 0
   | String _ s' => occurrences u s'
   end)%nat.

(** First match of a separator: the text before it and the text after it. *)
Fixpoint cut (sep s : string) : option (string * string) :=
  if startsWith sep s then Some (EmptyString, drop (len sep) s)
  else match s with
       | EmptyString => None
       | String c s' =>
           match cut sep s' with
           | Some (a, b) => Some (String c a, b)
           | None => None
           end
       end.

(** The loop of [String.prototype.split] for a non-empty separator: cut at
    the first match, continue behind it.  Every round consumes at least one
    byte, so [len s] rounds are enough. *)
Fixpoint split_loop (fuel : nat) (sep s : string) : list string :=
  match cut sep s with
  | None => [s]
  | Some (a, b) =>
      match fuel with
      | O => [s]
      | S fuel' => a :: split_loop fuel' sep b
      end
  end.

Fixpoint chars (s : string) : list string :=
  match s with
  | EmptyString => []
  | String c s' => String c EmptyString :: chars s'
  end.

(** [s.split(sep)]: an empty separator splits between all bytes. *)
Definition split (sep s : string) : list string :=
  match sep with
  | EmptyString => chars s
  | String _ _ => split_loop (len s) sep s
  end.

(** [pieces.join(sep)] *)
Definition join (sep : string) (pieces : list string) : string :=
  String.concat sep pieces.

(** [html.split(url).join(fallbackUrl)], line 167. *)
Definition replaceAll (url fallbackUrl html : string) : string :=
  join fallbackUrl (split url html).

(** Template-literal conversion of an integer. *)
Definition ofZ (z : Z) : string :=
  NilEmpty.string_of_int (Z.to_int z).

Definition nl : string := String "010"%char EmptyString.

End Text.

(* ------------------------------------------------------------------ *)
(** ** Effects: file store, network oracle, timers *)
(* ------------------------------------------------------------------ *)

(** What the transport delivers for one request: the response callback, the
    ["error"] event or the ["timeout"] event. *)
Inductive probe_event :=
| Response (statusCode : Z) (location : option string)
| ErrorEvent (message : string)
| TimeoutEvent.

Inductive transport := Https | Http.

Inductive io_event :=
| EvRequest (via : transport) (url : string) (timeoutMs : Z)
| EvDestroy (url : string)
| EvSleep (ms : Z)
| EvWrite (file : string) (content : string).

Record world := World {
  files : gmap string string;   (* path -> utf-8 content *)
  requests : nat;               (* requests issued so far *)
  log : list io_event           (* effects, oldest first *)
}.

(** The environment of the checker: Node's modules and the network behind
    them.  [refuses net m url timeoutMs]: the call
    [m.request(url, { method, timeout: timeoutMs, headers }, callback)]
    throws before a request is sent, as Node's modules do for a url they
    cannot parse, a url whose scheme is not the module's, or a timeout that
    is out of range.  [net n url]: the event delivered to the [n]-th request
    of the run when it probes [url]. *)
Record network := Network {
  refuses : transport -> string -> Z -> bool;
  answers :> nat -> string -> probe_event
}.

(** State and exception monad of the plugin. *)
Definition M (A : Type) : Type := world -> option (A * world).

Definition ret {A} (a : A) : M A := fun w => Some (a, w).

Definition bind {A B} (m : M A) (k : A -> M B) : M B :=
  fun w => match m w with
           | Some (a, w') => k a w'
           | None => None
           end.

Definition throw {A} : M A := fun _ => None.

Declare Scope js_scope.
Delimit Scope js_scope with js.
Notation "'let!' x ':=' m 'in' k" := (bind m (fun x => k))
  (at level 10, x name, m at level 100, k at level 200) : js_scope.
Notation "'run!' m 'in' k" := (bind m (fun _ => k))
  (at level 10, m at level 100, k at level 200) : js_scope.
Local Open Scope js_scope.

Definition emit (e : io_event) : M unit :=
  fun w => Some (tt, World (files w) (requests w) (log w ++ [e])).

(** [fs.readFileSync(file, "utf-8")]: throws when the file is missing. *)
Definition readFileSync (file : string) : M string :=
  fun w => match files w !! file with
           | Some txt => Some (txt, w)
           | None => None
           end.

(** [fs.writeFileSync(file, html, "utf-8")] *)
Definition writeFileSync (file html : string) : M unit :=
  fun w => Some (tt, World (<[file := html]> (files w)) (requests w)
                           (log w ++ [EvWrite file html])).

(** [await new Promise((r) => setTimeout(r, ms))] *)
Definition sleep (ms : Z) : M unit := emit (EvSleep ms).

(* ------------------------------------------------------------------ *)
(** ** HTTP checker (lines 41-87) *)
(* ------------------------------------------------------------------ *)

(** The object a probe resolves with; an absent property is [None]. *)
Record outcome := Outcome {
  status : Z;
  redirectTo : option string;
  ok : bool;
  error : option string
}.

(** Truthiness of a header value: [undefined] and the empty string are
    falsy. *)
Definition truthy (h : option string) : bool :=
  match h with
  | Some (String _ _) => true
  | _ => false
  end.

Definition redirectCodes : list Z := [301; 302; 303; 307; 308].

(** [[301, 302, 303, 307, 308].includes(code)] *)
Definition isRedirectCode (code : Z) : bool :=
  existsb (Z.eqb code) redirectCodes.

(** The three callbacks of [checkUrl]: what the promise resolves with. *)
Definition resolveWith (ev : probe_event) : outcome :=
  match ev with
  | Response statusCode location =>
      if isRedirectCode statusCode && truthy location then
        Outcome statusCode location true None
      else
        Outcome statusCode None
                ((200 <=? statusCode) && (statusCode <? 400)) None
  | ErrorEvent message => Outcome 0 None false (Some message)
  | TimeoutEvent => Outcome 0 None false (Some "timeout")
  end.

Section Checker.

Variable net : network.

(** [url.startsWith("https") ? https : http] *)
Definition protocolOf (url : string) : transport :=
  if Text.startsWith "https" url then Https else Http.

(** [checkUrl]: the executor of the promise calls [request] of the module
    chosen by [protocolOf].  When that call throws, the executor throws and
    the promise is rejected: the [await] of line 81 throws.  Otherwise the
    request is sent, the transport delivers one event, and the matching
    callback resolves the promise. *)
Definition checkUrl (url : string) (timeoutMs : Z) : M outcome :=
  fun w =>
    if refuses net (protocolOf url) url timeoutMs then None
    else
      let ev := net (requests w) url in
      let sent := log w ++ [EvRequest (protocolOf url) url timeoutMs] in
      let done :=
        match ev with
        | TimeoutEvent => sent ++ [EvDestroy url]   (* req.destroy() *)
        | _ => sent
        end in
      Some (resolveWith ev, World (files w) (S (requests w)) done).

(** The [for (let i = 0; i <= retries; i++)] loop; [lastResult] starts
    [undefined].  [fuel] bounds the number of rounds. *)
Fixpoint retryLoop (fuel : nat) (i : Z) (url : string) (timeoutMs retries : Z)
         (lastResult : option outcome) : M (option outcome) :=
  match fuel with
  | O => ret lastResult
  | S fuel' =>
      if i <=? retries then
        let! r := checkUrl url timeoutMs in
        if ok r then ret (Some r)
        else
          run! (if i <? retries then sleep (1000 * (i + 1)) else ret tt) in
          retryLoop fuel' (i + 1) url timeoutMs retries (Some r)
      else ret lastResult
  end.

Definition checkUrlWithRetry (url : string) (timeoutMs retries : Z)
  : M (option outcome) :=
  retryLoop (Z.to_nat (retries + 1)) 0 url timeoutMs retries None.

End Checker.

(* ------------------------------------------------------------------ *)
(** ** HTML scanning (lines 91-99) *)
(* ------------------------------------------------------------------ *)

(** The expression of line 93, with flags [gi]:
      href= Q ( http s? :// N* PATTERN N* ) Q
    where Q is the class of the two quote characters (double and single) and
    N is its complement; both classes hold both quotes.  Modelled for
    patterns made of literal characters and escaped punctuation (the shape
    of the default pattern).  The pattern text is
    spliced into the expression, so a pattern that uses other regular
    expression syntax changes the structure of the whole expression; such
    patterns are outside the fragment modelled here and [parsePattern]
    answers [None] for them. *)
Module Regex.

Definition dquote : ascii := "034"%char.
Definition squote : ascii := "'"%char.
Definition quotes : list ascii := [dquote; squote].

(** Canonicalisation under flag [i]: ASCII letters are upper-cased, every
    other byte is kept. *)
Definition canon (c : ascii) : ascii :=
  let n := N_of_ascii c in
  if ((97 <=? n) && (n <=? 122))%N then ascii_of_N (n - 32) else c.

Definition sameChar (a b : ascii) : bool := Ascii.eqb (canon a) (canon b).

Inductive cset :=
| One (c : ascii)               (* a literal character *)
| AnyOf (cs : list ascii)       (* [...]  *)
| NoneOf (cs : list ascii).     (* [^...] *)

Definition accepts (x : cset) (a : ascii) : bool :=
  match x with
  | One c => sameChar a c
  | AnyOf cs => existsb (sameChar a) cs
  | NoneOf cs => negb (existsb (sameChar a) cs)
  end.

Inductive atom :=
| Once (x : cset)     (* x  *)
| Maybe (x : cset)    (* x? *)
| Many (x : cset)     (* x* *)
| Mark.               (* a parenthesis of the capture group *)

Definition regex := list atom.

Definition lits (s : string) : regex :=
  map (fun c => Once (One c)) (list_ascii_of_string s).

Definition template (pattern : regex) : regex :=
  lits "href=" ++ [Once (AnyOf quotes)] ++
  [Mark] ++ lits "http" ++ [Maybe (One "s"%char)] ++ lits "://" ++
    [Many (NoneOf quotes)] ++ pattern ++ [Many (NoneOf quotes)] ++ [Mark] ++
  [Once (AnyOf quotes)].

Definition isSyntaxChar (c : ascii) : bool :=
  existsb (Ascii.eqb c) (list_ascii_of_string "^$\.*+?()[]{}|").

(** Letters, digits and [_]: after a backslash they form class, control or
    back-reference escapes. *)
Definition isWordChar (c : ascii) : bool :=
  let n := N_of_ascii c in
  (((48 <=? n) && (n <=? 57)) || ((65 <=? n) && (n <=? 90)) ||
   ((97 <=? n) && (n <=? 122)) || (n =? 95))%N.

Definition isAscii (c : ascii) : bool := (N_of_ascii c <? 128)%N.

Fixpoint parsePattern (p : string) : option regex :=
  match p with
  | EmptyString => Some []
  | String c p' =>
      if Ascii.eqb c "\"%char then
        match p' with
        | EmptyString => None
        | String d p'' =>
            if isAscii d && negb (isWordChar d) then
              option_map (cons (Once (One d))) (parsePattern p'')
            else None
        end
      else if isAscii c && negb (isSyntaxChar c) then
        option_map (cons (Once (One c))) (parsePattern p')
      else None
  end.

(** Backtracking match of a sequence of atoms at the start of [s]: the text
    left at each [Mark], and the text left after the match.  Quantifiers are
    greedy: the longer alternative is tried first. *)
Fixpoint matchSeq (r : regex) (s : string) : option (list string * string) :=
  match r with
  | [] => Some ([], s)
  | Mark :: r' =>
      match matchSeq r' s with
      | Some (marks, rest) => Some (s :: marks, rest)
      | None => None
      end
  | Once x :: r' =>
      match s with
      | String a s' => if accepts x a then matchSeq r' s' else None
      | EmptyString => None
      end
  | Maybe x :: r' =>
      let taken :=
        match s with
        | String a s' => if accepts x a then matchSeq r' s' else None
        | EmptyString => None
        end in
      match taken with
      | Some res => Some res
      | None => matchSeq r' s
      end
  | Many x :: r' =>
      (fix many (s : string) : option (list string * string) :=
         match s with
         | String a s' =>
             if accepts x a then
               match many s' with
               | Some res => Some res
               | None => matchSeq r' s
               end
             else matchSeq r' s
         | EmptyString => matchSeq r' s
         end) s
  end.

(** [m[1]]: the text between the two marks. *)
Definition group1 (marks : list string) : string :=
  match marks with
  | [opened; closed] => Text.take (Text.len opened - Text.len closed) opened
  | _ => EmptyString
  end.

(** [re.exec(html)] with [s] the text from [re.lastIndex] on: the first
    position at which the expression matches; yields [m[1]] and the text
    from the new [lastIndex] on. *)
Fixpoint exec (re : regex) (s : string) : option (string * string) :=
  match matchSeq re s with
  | Some (marks, rest) => Some (group1 marks, rest)
  | None =>
      match s with
      | EmptyString => None
      | String _ s' => exec re s'
      end
  end.

(** [while ((m = re.exec(html)) !== null) results.push(m[1])] *)
Fixpoint execLoop (fuel : nat) (re : regex) (s : string) : list string :=
  match fuel with
  | O => []
  | S fuel' =>
      match exec re s with
      | None => []
      | Some (m1, rest) => m1 :: execLoop fuel' re rest
      end
  end.

(** [new RegExp(pattern, "i").test(s)]: the pattern matches somewhere. *)
Fixpoint test (pattern : regex) (s : string) : bool :=
  match matchSeq pattern s with
  | Some _ => true
  | None =>
      match s with
      | EmptyString => false
      | String _ s' => test pattern s'
      end
  end.

End Regex.

(** [None]: the [RegExp] constructor rejects the pattern, or the pattern is
    outside the modelled fragment.  A match consumes at least one byte, so
    the loop ends within [len html + 1] calls of [exec]. *)
Definition extractAffiliateLinks (html pattern : string) : option (list string) :=
  match Regex.parsePattern pattern with
  | None => None
  | Some pat =>
      Some (Regex.execLoop (S (Text.len html)) (Regex.template pat) html)
  end.

(* ------------------------------------------------------------------ *)
(** ** Main plugin (lines 102-232) *)
(* ------------------------------------------------------------------ *)

Record config := Config {
  affiliatePattern : string;
  fallbackUrl : string;
  fallbackLabel : string;
  timeoutMs : Z;
  retries : Z;
  failOnBroken : bool;
  checkExternal : bool
}.

Definition DEFAULTS : config := {|
  affiliatePattern := "nationalcouncilonstrength\.sjv\.io";
  fallbackUrl := "https://nationalcouncilonstrength.sjv.io/certfit-home";
  fallbackLabel := "NCSF Homepage";
  timeoutMs := 10000;
  retries := 2;
  failOnBroken := false;
  checkExternal := false
|}.

(** The plugin inputs: every option may be left out. *)
Record inputs := Inputs {
  in_affiliatePattern : option string;
  in_fallbackUrl : option string;
  in_fallbackLabel : option string;
  in_timeoutMs : option Z;
  in_retries : option Z;
  in_failOnBroken : option bool;
  in_checkExternal : option bool
}.

(** [{ ...DEFAULTS, ...inputs }] *)
Definition mergeConfig (d : config) (i : inputs) : config := {|
  affiliatePattern := default (affiliatePattern d) (in_affiliatePattern i);
  fallbackUrl := default (fallbackUrl d) (in_fallbackUrl i);
  fallbackLabel := default (fallbackLabel d) (in_fallbackLabel i);
  timeoutMs := default (timeoutMs d) (in_timeoutMs i);
  retries := default (retries d) (in_retries i);
  failOnBroken := default (failOnBroken d) (in_failOnBroken i);
  checkExternal := default (checkExternal d) (in_checkExternal i)
|}.

(** One element of [results]: [{ url, ...result, filesUsing, replaced }]. *)
Record entry := Entry {
  e_url : string;
  e_status : Z;
  e_redirectTo : option string;
  e_ok : bool;
  e_error : option string;
  filesUsing : nat;
  replaced : bool
}.

(** The index built by step 2: [urlFileMap] (an object used as a map from
    url to an array of paths) and [allUrls] (a [Set], which iterates in
    insertion order).  Extracted urls contain [://], so no key collides with
    a property inherited from [Object.prototype]. *)
Record index := Index {
  urlFileMap : gmap string (list string);
  allUrls : list string
}.

(** Lines 129-131, for one element of [links]. *)
Definition recordLink (file : string) (ix : index) (url : string) : index :=
  {| allUrls :=
       if decide (url ∈ allUrls ix) then allUrls ix else allUrls ix ++ [url];
     urlFileMap :=
       <[url := default [] (urlFileMap ix !! url) ++ [file]]> (urlFileMap ix) |}.

(** Lines 125-133. *)
Fixpoint scanFiles (pattern : string) (htmlFiles : list string) (ix : index)
  : M index :=
  match htmlFiles with
  | [] => ret ix
  | file :: more =>
      let! html := readFileSync file in
      match extractAffiliateLinks html pattern with
      | None => throw
      | Some links =>
          scanFiles pattern more (fold_left (recordLink file) links ix)
      end
  end.

(** Lines 164-169. *)
Fixpoint rewriteFiles (url fallback : string) (paths : list string) : M unit :=
  match paths with
  | [] => ret tt
  | file :: more =>
      let! html := readFileSync file in
      run! writeFileSync file (Text.replaceAll url fallback html) in
      rewriteFiles url fallback more
  end.

(** The reason shown for a replaced link: [r.error || "HTTP " + r.status]. *)
Definition reason (r : entry) : string :=
  match e_error r with
  | Some (String c m) => String c m
  | _ => "HTTP " +:+ Text.ofZ (e_status r)
  end.

(** Lines 224-230: the text handed to [utils.build.failBuild]. *)
Definition failureMessage (results : list entry) (brokenCount : nat) : string :=
  let brokenList :=
    Text.join (Text.nl +:+ "  • ")
      (map (fun r => e_url r +:+ " (" +:+ reason r +:+ ")")
           (filter (fun r => replaced r = true) results)) in
  "Affiliate Link Monitor: " +:+ Text.ofZ (Z.of_nat brokenCount) +:+
  " broken link(s) found and auto-replaced with fallback:" +:+ Text.nl +:+
  "  • " +:+ brokenList +:+ Text.nl +:+ Text.nl +:+
  "Update source URLs. Set failOnBroken: false to deploy without notification.".

(** What a run leaves behind besides the rewritten files. *)
Record report := Report {
  results : list entry;
  brokenCount : nat;
  failBuild : option string    (* the argument of [failBuild], when called *)
}.

Section Plugin.

Variable net : network.

(** The body of the loop of lines 147-178 for one url: the entry pushed to
    [results] and the new value of [brokenCount]. *)
Definition checkOne (cfg : config) (ix : index) (url : string)
           (brokenCount : nat) : M (entry * nat) :=
  let! result := checkUrlWithRetry net url (timeoutMs cfg) (retries cfg) in
  match urlFileMap ix !! url, result with
  | Some paths, Some result =>
      let mk := Entry url (status result) (redirectTo result) (ok result)
                      (error result) (length paths) in
      if negb (ok result) then
        run! rewriteFiles url (fallbackUrl cfg) paths in
        ret (mk true, S brokenCount)
      else ret (mk false, brokenCount)
  | _, _ => throw      (* a property of [undefined] is read *)
  end.

Fixpoint checkAll (cfg : config) (ix : index) (uniqueUrls : list string)
         (results : list entry) (brokenCount : nat)
  : M (list entry * nat) :=
  match uniqueUrls with
  | [] => ret (results, brokenCount)
  | url :: more =>
      let! step := checkOne cfg ix url brokenCount in
      checkAll cfg ix more (results ++ [step.1]) step.2
  end.

(** [onPostBuild]; [htmlFiles] is the result of the directory walk. *)
Definition onPostBuild (htmlFiles : list string) (i : inputs) : M report :=
  let cfg := mergeConfig DEFAULTS i in
  match Regex.parsePattern (affiliatePattern cfg) with
  | None => throw      (* [new RegExp(config.affiliatePattern, "i")] *)
  | Some _ =>
      let! ix := scanFiles (affiliatePattern cfg) htmlFiles (Index ∅ []) in
      let uniqueUrls := allUrls ix in
      match uniqueUrls with
      | [] => ret (Report [] 0 None)
      | _ :: _ =>
          let! checked := checkAll cfg ix uniqueUrls [] 0%nat in
          let results := checked.1 in
          let brokenCount := checked.2 in
          if failOnBroken cfg && (0 <? brokenCount)%nat then
            ret (Report results brokenCount
                        (Some (failureMessage results brokenCount)))
          else ret (Report results brokenCount None)
      end
  end.

End Plugin.

(* ------------------------------------------------------------------ *)
(** ** The directory walk (lines 111-119) *)
(* ------------------------------------------------------------------ *)

(** An entry of a directory as [fs.readdirSync(dir, { withFileTypes: true })]
    lists it: [isDirectory()] holds for [DirEntry] only, which carries what
    the recursive call will read. *)
Inductive dirent :=
| FileEntry (name : string)
| DirEntry (name : string) (entries : list dirent).

(** [name.endsWith(suffix)] *)
Definition endsWith (suffix name : string) : bool :=
  String.eqb (Text.drop (Text.len name - Text.len suffix) name) suffix.

Section Walk.

(** [path.join], a function of the platform. *)
Variable join : string -> string -> string.

(** What one entry of [dir] adds to [htmlFiles]. *)
Fixpoint walkEntry (dir : string) (entry : dirent) : list string :=
  let full := join dir (match entry with
                        | FileEntry name => name
                        | DirEntry name _ => name
                        end) in
  match entry with
  | DirEntry _ entries =>
      (fix walkAll (l : list dirent) : list string :=
         match l with
         | [] => []
         | e :: l' => walkEntry full e ++ walkAll l'
         end) entries
  | FileEntry name => if endsWith ".html" name then [full] else []
  end.

(** [walk(dir)]: the paths pushed to [htmlFiles], in the order of the
    pushes. *)
Definition walk (dir : string) (entries : list dirent) : list string :=
  flat_map (walkEntry dir) entries.

End Walk.

(* ------------------------------------------------------------------ *)
(** ** Vocabulary of the statements *)
(* ------------------------------------------------------------------ *)

(** The effects of the request numbered [n] of the run. *)
Definition requestTrace (net : network)
           (url : string) (timeoutMs : Z) (n : nat) : list io_event :=
  EvRequest (protocolOf url) url timeoutMs ::
  match net n url with
  | TimeoutEvent => [EvDestroy url]
  | _ => []
  end.

(** The effects of a failing attempt with index [i] (counted from 0) that is
    request [n] of the run: the request, then the delay when an attempt
    remains. *)
Definition failedAttempt (net : network)
           (url : string) (timeoutMs retries : Z) (n i : nat) : list io_event :=
  requestTrace net url timeoutMs n ++
  (if Z.of_nat i <? retries then [EvSleep (1000 * (Z.of_nat i + 1))] else []).

Definition isRequest (e : io_event) : bool :=
  match e with EvRequest _ _ _ => true | _ => false end.

Definition isSleep (e : io_event) : bool :=
  match e with EvSleep _ => true | _ => false end.

Definition isWrite (e : io_event) : bool :=
  match e with EvWrite _ _ => true | _ => false end.

(** Number of files written so far. *)
Definition writes (w : world) : nat :=
  length (filter (fun e => isWrite e = true) (log w)).

(** The state at the start of a run over an empty directory. *)
Definition emptyWorld : world := World ∅ 0 [].

(** *** Text between quotes

    A text is a sequence of quote-free segments, each closed by a quote
    character (of either kind), followed by a last segment. *)

Definition isQuote (c : ascii) : bool := existsb (Ascii.eqb c) Regex.quotes.

Fixpoint quoteFree (s : string) : bool :=
  match s with
  | EmptyString => true
  | String c s' => negb (isQuote c) && quoteFree s'
  end.

Fixpoint tokenize (s : string) : list (string * ascii) * string :=
  match s with
  | EmptyString => ([], EmptyString)
  | String c s' =>
      let (items, last) := tokenize s' in
      if isQuote c then ((EmptyString, c) :: items, last)
      else match items with
           | [] => ([], String c last)
           | (g, q) :: items' => ((String c g, q) :: items', last)
           end
  end.

Fixpoint render (items : list (string * ascii)) (last : string) : string :=
  match items with
  | [] => last
  | (g, q) :: items' => g +:+ String q (render items' last)
  end.

Definition segments (d : list (string * ascii) * string) : list string :=
  map fst d.1 ++ [d.2].

(** Every segment of [t] is [u] itself or does not contain [u]: [u] occurs
    in [t] only as a complete quoted value. *)
Definition wholeValuesOnly (u t : string) : bool :=
  forallb (fun g => String.eqb g u || negb (Text.includes u g))
          (segments (tokenize t)).

(** What the replacement of [url] by [fallback] does to one segment of a
    text in which [url] occurs only as a complete quoted value. *)
Definition healSegment (url fallback g : string) : string :=
  if String.eqb g url then fallback else g.

Definition healItem (url fallback : string) (it : string * ascii)
  : string * ascii :=
  (healSegment url fallback it.1, it.2).

(** *** Links, read off the text without backtracking

    The words of the specification for the extractor: [href=], a quote, an
    [http] or [https] url that holds the pattern, a quote; letters compared
    without regard to case.  [P] is the text the pattern stands for. *)

Fixpoint startsWithCI (p s : string) : bool :=
  match p, s with
  | EmptyString, _ => true
  | String a p', String b s' => Regex.sameChar b a && startsWithCI p' s'
  | String _ _, EmptyString => false
  end.

Fixpoint containsCI (p s : string) : bool :=
  startsWithCI p s ||
  match s with
  | EmptyString => false
  | String _ s' => containsCI p s'
  end.

(** The text up to the first quote of either kind, and the text from that
    quote on. *)
Fixpoint value (s : string) : string :=
  match s with
  | EmptyString => EmptyString
  | String c s' => if isQuote c then EmptyString else String c (value s')
  end.

Fixpoint afterValue (s : string) : string :=
  match s with
  | EmptyString => EmptyString
  | String c s' => if isQuote c then s else afterValue s'
  end.

(** Skip the optional [s] of the scheme. *)
Definition dropS (s : string) : string :=
  match s with
  | String a s' => if Regex.sameChar a "s"%char then s' else s
  | EmptyString => EmptyString
  end.

(** [u] reads [http://] or [https://], then text that holds [P]. *)
Definition isAffiliate (P u : string) : bool :=
  startsWithCI "http" u &&
  startsWithCI "://" (dropS (Text.drop 4 u)) &&
  containsCI P (Text.drop 3 (dropS (Text.drop 4 u))).

(** A link at the very start of [s]: its url and the text behind it. *)
Definition linkAt (P s : string) : option (string * string) :=
  if startsWithCI "href=" s then
    match Text.drop 5 s with
    | String q1 s1 =>
        if isQuote q1 && isAffiliate P (value s1) then
          match afterValue s1 with
          | String _ rest => Some (value s1, rest)
          | EmptyString => None
          end
        else None
    | EmptyString => None
    end
  else None.

(** The first link at or after the start of [s]. *)
Fixpoint findLink (P s : string) : option (string * string) :=
  match linkAt P s with
  | Some r => Some r
  | None =>
      match s with
      | EmptyString => None
      | String _ s' => findLink P s'
      end
  end.

(** The end of the expression of line 93: the rest of the value, the end of
    the group, the closing quote. *)
Definition tailRe : Regex.regex :=
  [Regex.Many (Regex.NoneOf Regex.quotes); Regex.Mark;
   Regex.Once (Regex.AnyOf Regex.quotes)].

(** A link whose url and label hold no quote. *)
Definition wellFormed (link : string * string) : Prop :=
  quoteFree link.1 = true /\ quoteFree link.2 = true.

(** *** Sites made of pages, and a network without memory *)

(** Node's check of the scheme (ERR_INVALID_PROTOCOL): a module refuses a
    url whose scheme is not its own; the scheme of a url is read without
    regard to case. *)
Definition wrongScheme (m : transport) (url : string) (timeoutMs : Z) : bool :=
  negb (startsWithCI (match m with Http => "http:" | Https => "https:" end) url).

(** A network that answers every request with the same event. *)
Definition net_always (ev : probe_event) : network :=
  Network wrongScheme (fun _ _ => ev).

(** A network whose answer depends on the url only. *)
Definition stateless (refuse : transport -> string -> Z -> bool)
           (answer : string -> probe_event) : network :=
  Network refuse (fun _ url => answer url).

Definition broken (answer : string -> probe_event) (url : string) : bool :=
  negb (ok (resolveWith (answer url))).

(** The index after the given occurrences. *)
Definition indexOf (occ : list (string * string)) (ix : index) : index :=
  fold_left (fun ix o => recordLink o.1 ix o.2) occ ix.

(** *** Links read off the quoted segments of a text *)

(** [g] ends in [href=], letters compared without regard to case. *)
Definition endsHref (g : string) : bool :=
  startsWithCI "href=" (Text.drop (Text.len g - 5) g).

(** The links of a tokenized text: a segment that ends in [href=], its
    quote, a segment that is an affiliate url, and the quote that closes it;
    the search goes on behind that quote. *)
Fixpoint linksIn (P : string) (items : list (string * ascii)) : list string :=
  match items with
  | [] => []
  | (g0, _) :: tail =>
      match tail with
      | [] => []
      | (g1, _) :: rest =>
          if endsHref g0 && isAffiliate P g1 then g1 :: linksIn P rest
          else linksIn P tail
      end
  end.

(** A segment after the repair of the urls in [D]. *)
Definition healAll (D : list string) (fallback g : string) : string :=
  if bool_decide (g ∈ D) then fallback else g.

Definition healAllItem (D : list string) (fallback : string)
           (it : string * ascii) : string * ascii :=
  (healAll D fallback it.1, it.2).

(** Among the urls in [done], those that are broken and that a file with
    the links [links] is listed for. *)
Definition repairedIn (answer : string -> probe_event)
           (links done : list string) : list string :=
  filter (fun u => broken answer u = true /\ u ∈ links) done.

(** The text of a file after the repair of the urls in [D]. *)
Definition repairedText (D : list string) (fallback t : string) : string :=
  render (map (healAllItem D fallback) (tokenize t).1)
         (healAll D fallback (tokenize t).2).

(** *** Measures of a log and of a text *)

(** The time spent waiting between attempts, in ms. *)
Fixpoint waited (l : list io_event) : Z :=
  match l with
  | [] => 0
  | EvSleep ms :: l' => ms + waited l'
  | _ :: l' => waited l'
  end.

(** The files written, in the order of the writes. *)
Fixpoint written (l : list io_event) : list string :=
  match l with
  | [] => []
  | EvWrite file _ :: l' => file :: written l'
  | _ :: l' => written l'
  end.

(** The number of quote characters of a text. *)
Fixpoint quoteCount (s : string) : nat :=
  match s with
  | EmptyString => 0%nat
  | String c s' => ((if isQuote c then 1 else 0) + quoteCount s')%nat
  end.

(** Where a file sits in a directory: the names of the directories to go
    through, from the top, and the name of the file. *)
Inductive holdsFile : list dirent -> list string -> string -> Prop :=
| holds_here entries name :
    FileEntry name ∈ entries -> holdsFile entries [] name
| holds_below entries d sub dirs name :
    DirEntry d sub ∈ entries -> holdsFile sub dirs name ->
    holdsFile entries (d :: dirs) name.

(** The number of files of a directory tree whose name ends in [.html]. *)
Fixpoint htmlCount (entry : dirent) : nat :=
  match entry with
  | FileEntry name => if endsWith ".html" name then 1%nat else 0%nat
  | DirEntry _ entries =>
      (fix countAll (l : list dirent) : nat :=
         match l with
         | [] => 0%nat
         | e :: l' => (htmlCount e + countAll l')%nat
         end) entries
  end.

(** [path.join] on a directory without trailing separator and a plain
    name. *)
Definition slashJoin (dir name : string) : string :=
  dir +:+ "/" +:+ name.

(** *** The links of a site with any contents *)

(** The links the scan finds in [file]; none when the file is missing or the
    pattern is refused. *)
Definition linksOf (pattern : string) (w : world) (file : string) : list string :=
  match files w !! file with
  | Some html => default [] (extractAffiliateLinks html pattern)
  | None => []
  end.

(** The occurrences (file, url) of the scan of [htmlFiles], in its order. *)
Definition occurrencesIn (pattern : string) (w : world)
           (htmlFiles : list string) : list (string * string) :=
  flat_map (fun file => map (fun u => (file, u)) (linksOf pattern w file))
           htmlFiles.

(** The number of times [file] is listed in [paths]. *)
Definition listings (file : string) (paths : list string) : nat :=
  length (filter (fun p => p = file) paths).

(** The urls of a list in the order of their first occurrence. *)
Fixpoint distinct (l : list string) : list string :=
  match l with
  | [] => []
  | u :: l' => u :: filter (fun v => v <> u) (distinct l')
  end.

(** The modules accept the request for every url of the list. *)
Definition allAccepted (net : network) (timeoutMs : Z) (urls : list string)
  : Prop :=
  Forall (fun u => refuses net (protocolOf u) u timeoutMs = false) urls.

(** Every path names a file of the site. *)
Definition allExist (w : world) (paths : list string) : Prop :=
  Forall (fun f => is_Some (files w !! f)) paths.

(** *** Sample sites

    [anchor (u, l)] is a link to [u] with label [l]; a page is a sequence of
    such links. *)

Definition anchor (link : string * string) : string :=
  "<a href=" +:+ String Regex.dquote (link.1 +:+
  String Regex.dquote (">" +:+ link.2 +:+ "</a>")).

Fixpoint page (links : list (string * string)) : string :=
  match links with
  | [] => EmptyString
  | link :: more =>
      "<a href=" +:+ String Regex.dquote (link.1 +:+
      String Regex.dquote (">" +:+ link.2 +:+ "</a>" +:+ page more))
  end.

Definition noInputs : inputs :=
  Inputs None None None None None None None.

(** The scenario of the specification: one page with two links to the same
    url, a fallback outside the affiliate domain, and a build that is to fail
    on broken links. *)
Definition trackUrl : string := "https://aff.example/track123".

Definition sampleInputs : inputs :=
  Inputs (Some "aff\.example") (Some "https://fallback.example/") None None
         None (Some true) None.

Definition sampleSite : world :=
  World {[ "a.html" := page [(trackUrl, "one"); (trackUrl, "two")] ]} 0 [].

(** A site under the default configuration with a link whose url is a prefix
    of the default fallback url. *)
Definition certUrl : string := "https://nationalcouncilonstrength.sjv.io/cert".

Definition certSite : world :=
  World {[ "index.html" := page [(certUrl, "Get certified")] ]} 0 [].

(** The links of the sample site, file by file. *)
Definition sampleLinks (file : string) : list (string * string) :=
  if String.eqb file "a.html" then [(trackUrl, "one"); (trackUrl, "two")]
  else [].

(** A site in which a broken url is the end of a longer url: the broken url
    is an affiliate prefix followed by the fallback url. *)
Definition nestedUrl : string :=
  "https://aff.example/https://fallback.example/".

Definition outerUrl : string :=
  "https://aff.example/https://aff.example/https://fallback.example/".

Definition nestedSite : world :=
  World {[ "a.html" := page [(nestedUrl, "one"); (outerUrl, "two")] ]} 0 [].

(** A page of a site as a generator writes it: attributes in both kinds of
    quotes around the link. *)
Definition realPage (url : string) : string :=
  "<html><body class=" +:+ String Regex.dquote ("main" +:+ String Regex.dquote
  ("><p>Offer: <a target=" +:+ String Regex.squote ("_blank" +:+
   String Regex.squote (" href=" +:+ String Regex.dquote (url +:+
   String Regex.dquote ">one</a></p></body></html>"))))).

Definition realSite : world :=
  World {[ "index.html" := realPage trackUrl ]} 0 [].

(** Two sites on the edge of the second run.  In the first a link is
    followed at once by a second quoted url, and the fallback url ends in
    [href=].  In the second a broken url that ends in [href=] is linked and
    also stands in front of two more quoted urls. *)
Definition hrefFallback : string := "https://fallback.example/?href=".

Definition hrefInputs : inputs :=
  Inputs (Some "aff\.example") (Some hrefFallback) None None None None None.

Definition quoted (values : list string) (rest : string) : string :=
  fold_right (fun v t => v +:+ String Regex.dquote t) rest values.

Definition edgeSite1 : world :=
  World {[ "a.html" :=
             quoted ["<a href="; "https://aff.example/b";
                     "https://aff.example/g"] ">x</a>" ]} 0 [].

Definition hrefUrl : string := "https://aff.example/a?href=".

Definition edgeSite2 : world :=
  World {[ "a.html" :=
             quoted ["<a href="; hrefUrl; ">"; hrefUrl;
                     "https://aff.example/b?href=";
                     "https://aff.example/g"] "" ]} 0 [].

(** A network on which exactly one url is alive. *)
Definition aliveOnly (alive : string) (url : string) : probe_event :=
  if String.eqb url alive then Response 200 None else Response 500 None.

(** A page whose link spells the scheme in upper case. *)
Definition upperUrl : string := "HTTPS://aff.example/x".

Definition upperSite : world :=
  World {[ "a.html" := page [(upperUrl, "one")] ]} 0 [].

(** The sample site with a file beside the page that holds the url. *)
Definition notesSite : world :=
  World (<["notes.txt" := trackUrl]> (files sampleSite)) 0 [].

(** A network on which exactly one url is dead. *)
Definition deadOnly (dead : string) (url : string) : probe_event :=
  if String.eqb url dead then Response 404 None else Response 200 None.

(* ================================================================== *)
(** * Properties *)
(* ================================================================== *)

Local Ltac unfold_monad :=
  unfold bind, ret, throw, sleep, emit, readFileSync, writeFileSync in *.

(* ------------------------------------------------------------------ *)
(** ** The HTTP checker *)
(* ------------------------------------------------------------------ *)

Lemma flat_map_seq_S {A} (f : nat -> list A) (n a : nat) :
  flat_map f (seq (S a) n) = flat_map (fun j => f (S j)) (seq a n).
Proof.
  revert a. induction n as [|n IH]; intros a; [reflexivity|].
  cbn [seq flat_map]. f_equal. apply IH.
Qed.

(** The constructor decides whether the probe throws. *)
Lemma checkUrl_refused (net : network) url timeoutMs w :
  refuses net (protocolOf url) url timeoutMs = true ->
  checkUrl net url timeoutMs w = None.
Proof. intros H. unfold checkUrl. rewrite H. reflexivity. Qed.

Lemma checkUrl_returns (net : network) url timeoutMs w r :
  checkUrl net url timeoutMs w = Some r ->
  refuses net (protocolOf url) url timeoutMs = false.
Proof.
  unfold checkUrl. destruct (refuses net _ url timeoutMs);
    [discriminate | reflexivity].
Qed.

Section CheckerFacts.

Variable net : network.
Variables (url : string) (timeoutMs retries : Z).

(** The module accepts the request. *)
Hypothesis accepted : refuses net (protocolOf url) url timeoutMs = false.

Lemma checkUrl_eq w :
  checkUrl net url timeoutMs w =
  Some (resolveWith (net (requests w) url),
        World (files w) (S (requests w))
              (log w ++ requestTrace net url timeoutMs (requests w))).
Proof.
  unfold checkUrl, requestTrace. rewrite accepted.
  destruct (net (requests w) url); simpl; rewrite <- ?app_assoc; reflexivity.
Qed.

(** The loop when the attempts from index [k] on all fail. *)
Lemma retryLoop_all_fail fuel :
  forall (k : nat) (last : option outcome) (w : world),
    Z.of_nat k + Z.of_nat fuel = retries + 1 ->
    (forall j, (j < fuel)%nat ->
               ok (resolveWith (net (requests w + j)%nat url)) = false) ->
    retryLoop net fuel (Z.of_nat k) url timeoutMs retries last w =
    Some (match fuel with
          | O => last
          | S f => Some (resolveWith (net (requests w + f)%nat url))
          end,
          World (files w) (requests w + fuel)
                (log w ++
                 flat_map (fun j => failedAttempt net url timeoutMs retries
                                                  (requests w + j) (k + j))
                          (seq 0 fuel))).
Proof.
  induction fuel as [|fuel IH]; intros k last w Hk Hfail.
  - simpl. unfold ret. destruct w; simpl.
    rewrite Nat.add_0_r, app_nil_r. reflexivity.
  - cbn [retryLoop].
    replace (Z.of_nat k <=? retries) with true by (symmetry; apply Z.leb_le; lia).
    unfold bind at 1. rewrite checkUrl_eq.
    pose proof (Hfail 0%nat ltac:(lia)) as H0. rewrite Nat.add_0_r in H0.
    rewrite H0.
    set (w1 := World _ _ _).
    assert (Hstep :
      (run! (if Z.of_nat k <? retries
             then sleep (1000 * (Z.of_nat k + 1)) else ret tt) in
       retryLoop net fuel (Z.of_nat k + 1) url timeoutMs retries
                 (Some (resolveWith (net (requests w) url)))) w1 =
      retryLoop net fuel (Z.of_nat (S k)) url timeoutMs retries
                (Some (resolveWith (net (requests w) url)))
                (World (files w) (S (requests w))
                       (log w ++ failedAttempt net url timeoutMs retries
                                               (requests w) k))).
    { unfold failedAttempt, w1.
      replace (Z.of_nat (S k)) with (Z.of_nat k + 1) by lia.
      destruct (Z.of_nat k <? retries); unfold_monad; cbn [files requests log];
        rewrite <- ?app_assoc, ?app_nil_r; reflexivity. }
    rewrite Hstep. clear Hstep w1.
    rewrite IH; [| lia |].
    + cbn [files requests log]. f_equal. f_equal.
      * destruct fuel; [rewrite Nat.add_0_r; reflexivity|].
        do 3 f_equal. lia.
      * f_equal; [lia|].
        rewrite <- app_assoc. f_equal.
        cbn [seq flat_map]. rewrite !Nat.add_0_r. f_equal.
        rewrite flat_map_seq_S.
        apply flat_map_ext. intros j. f_equal; lia.
    + intros j Hj. cbn [requests].
      replace (S (requests w) + j)%nat with (requests w + S j)%nat by lia.
      apply Hfail. lia.
Qed.

(** The loop when attempt [k + d] is the first to succeed. *)
Lemma retryLoop_first_ok d :
  forall (fuel k : nat) (last : option outcome) (w : world),
    Z.of_nat k + Z.of_nat fuel = retries + 1 ->
    (d < fuel)%nat ->
    (forall j, (j < d)%nat ->
               ok (resolveWith (net (requests w + j)%nat url)) = false) ->
    ok (resolveWith (net (requests w + d)%nat url)) = true ->
    retryLoop net fuel (Z.of_nat k) url timeoutMs retries last w =
    Some (Some (resolveWith (net (requests w + d)%nat url)),
          World (files w) (requests w + S d)
                (log w ++
                 flat_map (fun j => failedAttempt net url timeoutMs retries
                                                  (requests w + j) (k + j))
                          (seq 0 d) ++
                 requestTrace net url timeoutMs (requests w + d))).
Proof.
  induction d as [|d IH]; intros fuel k last w Hk Hd Hfail Hok.
  - destruct fuel as [|fuel]; [lia|].
    cbn [retryLoop].
    replace (Z.of_nat k <=? retries) with true by (symmetry; apply Z.leb_le; lia).
    unfold bind at 1. rewrite checkUrl_eq.
    rewrite Nat.add_0_r in Hok. rewrite Hok. unfold ret.
    rewrite !Nat.add_0_r. simpl. do 3 f_equal. lia.
  - destruct fuel as [|fuel]; [lia|].
    cbn [retryLoop].
    replace (Z.of_nat k <=? retries) with true by (symmetry; apply Z.leb_le; lia).
    unfold bind at 1. rewrite checkUrl_eq.
    pose proof (Hfail 0%nat ltac:(lia)) as H0. rewrite Nat.add_0_r in H0.
    rewrite H0.
    set (w1 := World _ _ _).
    assert (Hstep :
      (run! (if Z.of_nat k <? retries
             then sleep (1000 * (Z.of_nat k + 1)) else ret tt) in
       retryLoop net fuel (Z.of_nat k + 1) url timeoutMs retries
                 (Some (resolveWith (net (requests w) url)))) w1 =
      retryLoop net fuel (Z.of_nat (S k)) url timeoutMs retries
                (Some (resolveWith (net (requests w) url)))
                (World (files w) (S (requests w))
                       (log w ++ failedAttempt net url timeoutMs retries
                                               (requests w) k))).
    { unfold failedAttempt, w1.
      replace (Z.of_nat (S k)) with (Z.of_nat k + 1) by lia.
      destruct (Z.of_nat k <? retries); unfold_monad; cbn [files requests log];
        rewrite <- ?app_assoc, ?app_nil_r; reflexivity. }
    rewrite Hstep. clear Hstep w1.
    rewrite (IH fuel (S k)); cbn [files requests log]; try lia.
    + replace (S (requests w) + d)%nat with (requests w + S d)%nat by lia.
      do 3 f_equal; [lia|].
      rewrite <- !app_assoc. f_equal.
      cbn [seq flat_map]. rewrite !Nat.add_0_r.
      rewrite <- !app_assoc. f_equal. f_equal.
      rewrite flat_map_seq_S.
      apply flat_map_ext. intros j. f_equal; lia.
    + intros j Hj.
      replace (S (requests w) + j)%nat with (requests w + S j)%nat by lia.
      apply Hfail. lia.
    + replace (S (requests w) + d)%nat with (requests w + S d)%nat by lia.
      exact Hok.
Qed.

End CheckerFacts.

Section CheckerClaims.

Variable net : network.
Variables (url : string) (timeoutMs retries : Z).

(** The module accepts the request. *)
Hypothesis accepted : refuses net (protocolOf url) url timeoutMs = false.

Lemma requests_of_requestTrace n :
  filter (fun e => isRequest e = true) (requestTrace net url timeoutMs n) =
  [EvRequest (protocolOf url) url timeoutMs].
Proof. unfold requestTrace. destruct (net n url); reflexivity. Qed.

Lemma sleeps_of_requestTrace n :
  filter (fun e => isSleep e = true) (requestTrace net url timeoutMs n) = [].
Proof. unfold requestTrace. destruct (net n url); reflexivity. Qed.

Lemma requests_of_failedAttempts (l : list nat) n0 k0 :
  length (filter (fun e => isRequest e = true)
            (flat_map (fun j => failedAttempt net url timeoutMs retries
                                              (n0 + j) (k0 + j)) l)) =
  length l.
Proof.
  induction l as [|i l IH]; [reflexivity|].
  cbn [flat_map]. unfold failedAttempt at 1.
  rewrite !filter_app, !length_app, requests_of_requestTrace, IH.
  destruct (Z.of_nat (k0 + i) <? retries); reflexivity.
Qed.

Lemma sleeps_of_failedAttempts (l : list nat) n0 :
  (forall j, j ∈ l -> Z.of_nat j < retries) ->
  filter (fun e => isSleep e = true)
    (flat_map (fun j => failedAttempt net url timeoutMs retries (n0 + j) j) l) =
  map (fun j => EvSleep (1000 * (Z.of_nat j + 1))) l.
Proof.
  induction l as [|i l IH]; intros Hl; [reflexivity|].
  cbn [flat_map map]. unfold failedAttempt at 1.
  rewrite !filter_app, sleeps_of_requestTrace, IH.
  - replace (Z.of_nat i <? retries) with true; [reflexivity|].
    symmetry. apply Z.ltb_lt, Hl. left.
  - intros j Hj. apply Hl. right. exact Hj.
Qed.

(** C3. A url whose request the module accepts and whose attempts all fail
    is probed exactly [retries + 1] times; after the failing attempt with index [i] (from 0) the loop waits
    [1000 * (i + 1)] ms when an attempt remains, so the delays are 1000,
    2000, ..., [1000 * retries] in this order; the outcome of the last
    attempt is returned as it is.  The loop stops at the first attempt that
    succeeds and returns its outcome. *)
Theorem C3_retry_sequence (w : world) :
  0 <= retries ->
  ((forall n, ok (resolveWith (net n url)) = false) ->
   exists tr,
     checkUrlWithRetry net url timeoutMs retries w =
     Some (Some (resolveWith (net (requests w + Z.to_nat retries)%nat url)),
           World (files w) (requests w + S (Z.to_nat retries)) (log w ++ tr)) /\
     tr = flat_map (fun i => failedAttempt net url timeoutMs retries
                                           (requests w + i) i)
                   (seq 0 (S (Z.to_nat retries))) /\
     filter (fun e => isRequest e = true) tr =
     replicate (S (Z.to_nat retries)) (EvRequest (protocolOf url) url timeoutMs) /\
     filter (fun e => isSleep e = true) tr =
     map (fun i => EvSleep (1000 * (Z.of_nat i + 1))) (seq 0 (Z.to_nat retries))) /\
  (forall d,
     (d <= Z.to_nat retries)%nat ->
     (forall j, (j < d)%nat ->
                ok (resolveWith (net (requests w + j)%nat url)) = false) ->
     ok (resolveWith (net (requests w + d)%nat url)) = true ->
     exists tr,
       checkUrlWithRetry net url timeoutMs retries w =
       Some (Some (resolveWith (net (requests w + d)%nat url)),
             World (files w) (requests w + S d) (log w ++ tr)) /\
       length (filter (fun e => isRequest e = true) tr) = S d).
Proof.
  intros Hret. split.
  - intros Hfail.
    eexists. split; [|split; [reflexivity|split]].
    + unfold checkUrlWithRetry.
      replace (retries + 1) with (Z.of_nat (S (Z.to_nat retries))) by lia.
      rewrite Nat2Z.id.
      rewrite (retryLoop_all_fail net url timeoutMs retries accepted _ 0%nat);
        [reflexivity | lia | intros; apply Hfail].
    + generalize (S (Z.to_nat retries)) as m. intros m.
      generalize (requests w) as n0. clear.
      assert (G : forall l n0 k0,
        filter (fun e => isRequest e = true)
          (flat_map (fun j => failedAttempt net url timeoutMs retries
                                            (n0 + j) (k0 + j)) l) =
        replicate (length l) (EvRequest (protocolOf url) url timeoutMs)).
      { induction l as [|i l IH]; intros n0 k0; [reflexivity|].
        cbn [flat_map]. unfold failedAttempt at 1.
        rewrite !filter_app, requests_of_requestTrace, IH.
        destruct (Z.of_nat (k0 + i) <? retries); reflexivity. }
      intros n0. specialize (G (seq 0 m) n0 0%nat).
      rewrite length_seq in G. exact G.
    + replace (S (Z.to_nat retries)) with (Z.to_nat retries + 1)%nat by lia.
      rewrite seq_app, flat_map_app, filter_app.
      rewrite sleeps_of_failedAttempts.
      * cbn [seq flat_map]. unfold failedAttempt.
        rewrite app_nil_r, filter_app, sleeps_of_requestTrace.
        replace (Z.of_nat (0 + Z.to_nat retries) <? retries) with false
          by (symmetry; apply Z.ltb_ge; lia).
        rewrite !app_nil_r. reflexivity.
      * intros j Hj. apply elem_of_seq in Hj. lia.
  - intros d Hd Hfail Hok.
    eexists. split.
    + unfold checkUrlWithRetry.
      replace (retries + 1) with (Z.of_nat (S (Z.to_nat retries))) by lia.
      rewrite Nat2Z.id.
      rewrite (retryLoop_first_ok net url timeoutMs retries accepted d _ 0%nat);
        [reflexivity | lia | lia | exact Hfail | exact Hok].
    + rewrite filter_app, length_app, requests_of_requestTrace.
      rewrite (requests_of_failedAttempts (seq 0 d) (requests w) 0%nat).
      rewrite length_seq. simpl. lia.
Qed.

(** C2 (as the code has it). A response (to a request the module accepted)
    whose status is one of 301, 302, 303, 307, 308 and that carries no
    location header (or an empty one) resolves with [ok = true], because
    the status lies in [200, 400); the status is set to the code and no
    redirect target is recorded. *)
Theorem C2_redirect_without_location (w : world) (code : Z) (location : option string) :
  isRedirectCode code = true ->
  truthy location = false ->
  net (requests w) url = Response code location ->
  exists w',
    checkUrl net url timeoutMs w = Some (Outcome code None true None, w').
Proof.
  intros Hcode Hloc Hnet. rewrite (checkUrl_eq net url timeoutMs accepted), Hnet.
  eexists.
  unfold resolveWith. rewrite Hcode, Hloc. cbn [andb].
  replace ((200 <=? code) && (code <? 400)) with true; [reflexivity|].
  unfold isRedirectCode, redirectCodes in Hcode. cbn [existsb] in Hcode.
  repeat (apply orb_prop in Hcode; destruct Hcode as [Hcode|Hcode]);
    try discriminate; apply Z.eqb_eq in Hcode; subst; reflexivity.
Qed.

End CheckerClaims.

Lemma C3_witness :
  0 <= 2 /\
  checkUrlWithRetry (net_always (Response 500 None)) "http://a.example/x" 10000 2
                    emptyWorld =
  Some (Some (Outcome 500 None false None),
        World ∅ 3 [EvRequest Http "http://a.example/x" 10000; EvSleep 1000;
                   EvRequest Http "http://a.example/x" 10000; EvSleep 2000;
                   EvRequest Http "http://a.example/x" 10000]).
Proof.
  split; [lia|].
  destruct (C3_retry_sequence (net_always (Response 500 None))
              "http://a.example/x" 10000 2 eq_refl emptyWorld ltac:(lia))
    as [Hall _].
  destruct (Hall (fun _ => eq_refl)) as (tr & Hrun & Htr & _).
  rewrite Hrun, Htr. reflexivity.
Defined.

Lemma C2_counterexample :
  isRedirectCode 301 = true /\
  truthy None = false /\
  exists w',
    checkUrl (net_always (Response 301 None)) "https://a.example/x" 10000
             emptyWorld = Some (Outcome 301 None true None, w') /\
    ok (Outcome 301 None true None) <> false.
Proof.
  split; [reflexivity|]. split; [reflexivity|].
  eexists. split; [reflexivity | discriminate].
Qed.

Lemma C2_witness :
  exists w',
    checkUrl (net_always (Response 302 (Some ""))) "https://a.example/x" 10000
             emptyWorld = Some (Outcome 302 None true None, w').
Proof.
  apply (C2_redirect_without_location (net_always (Response 302 (Some "")))
           "https://a.example/x" 10000 eq_refl emptyWorld 302 (Some ""));
    reflexivity.
Defined.

(* ------------------------------------------------------------------ *)
(** ** Text: facts about the string primitives *)
(* ------------------------------------------------------------------ *)

Module TextFacts.
Import Text.

Lemma app_cons c s t : String c s +:+ t = String c (s +:+ t).
Proof. reflexivity. Qed.

Lemma app_nil_l s : "" +:+ s = s.
Proof. reflexivity. Qed.

Lemma app_nil_r s : s +:+ "" = s.
Proof. induction s as [|c s IH]; [reflexivity|]. rewrite app_cons, IH. reflexivity. Qed.

Lemma app_assoc s t u : (s +:+ t) +:+ u = s +:+ (t +:+ u).
Proof.
  induction s as [|c s IH]; [reflexivity|]. rewrite !app_cons, IH. reflexivity.
Qed.

Lemma len_app s t : len (s +:+ t) = (len s + len t)%nat.
Proof.
  induction s as [|c s IH]; [reflexivity|].
  rewrite app_cons. cbn [String.length]. rewrite IH. reflexivity.
Qed.

Lemma drop_app s t : drop (len s) (s +:+ t) = t.
Proof. induction s as [|c s IH]; [reflexivity|]. exact IH. Qed.

Lemma take_app s t : take (len s) (s +:+ t) = s.
Proof.
  induction s as [|c s IH]; [destruct t; reflexivity|].
  rewrite app_cons. cbn [String.length take]. rewrite IH. reflexivity.
Qed.

Lemma startsWith_spec p s :
  startsWith p s = true <-> exists t, s = p +:+ t.
Proof.
  revert s. induction p as [|a p IH]; intros s.
  - split; [exists s; reflexivity | destruct s; reflexivity].
  - destruct s as [|b s]; cbn [startsWith].
    + split; [discriminate | intros [t Ht]; discriminate].
    + destruct (Ascii.eqb_spec a b) as [->|Hab].
      * rewrite IH. split; intros [t Ht]; exists t.
        -- rewrite app_cons, Ht. reflexivity.
        -- rewrite app_cons in Ht. congruence.
      * split; [discriminate|]. intros [t Ht]. rewrite app_cons in Ht. congruence.
Qed.

Lemma startsWith_app p t : startsWith p (p +:+ t) = true.
Proof. apply startsWith_spec. exists t. reflexivity. Qed.

Lemma startsWith_refl p : startsWith p p = true.
Proof. apply startsWith_spec. exists "". rewrite app_nil_r. reflexivity. Qed.

Lemma startsWith_len p s : startsWith p s = true -> (len p <= len s)%nat.
Proof.
  intros H. apply startsWith_spec in H as [t ->]. rewrite len_app. lia.
Qed.

Lemma includes_spec u s :
  includes u s = true <-> exists a b, s = a +:+ u +:+ b.
Proof.
  induction s as [|c s IH]; cbn [includes].
  - destruct (startsWith u "") eqn:E.
    + split; [|reflexivity]. intros _.
      apply startsWith_spec in E as [t Ht]. exists "", t. exact Ht.
    + split; [discriminate|]. intros (a & b & H).
      destruct a; [|discriminate].
      rewrite app_nil_l in H. rewrite H, startsWith_app in E. discriminate.
  - destruct (startsWith u (String c s)) eqn:E.
    + split; [|reflexivity]. intros _.
      apply startsWith_spec in E as [t Ht]. exists "", t. exact Ht.
    + rewrite IH. split.
      * intros (a & b & ->). exists (String c a), b. reflexivity.
      * intros (a & b & H). destruct a as [|c' a].
        -- rewrite app_nil_l in H. rewrite H, startsWith_app in E. discriminate.
        -- rewrite app_cons in H. injection H as -> ->. exists a, b. reflexivity.
Qed.

Lemma includes_false_startsWith u s :
  includes u s = false -> startsWith u s = false.
Proof. destruct s; cbn [includes]; destruct (startsWith u _); congruence. Qed.

Lemma includes_false_tail u c s :
  includes u (String c s) = false -> includes u s = false.
Proof. cbn [includes]. destruct (startsWith u _); congruence. Qed.

Lemma includes_false_occurrences u s :
  includes u s = false -> occurrences u s = 0%nat.
Proof.
  induction s as [|c s IH]; intros H.
  - cbn [occurrences]. rewrite (includes_false_startsWith _ _ H). reflexivity.
  - cbn [occurrences]. rewrite (includes_false_startsWith _ _ H).
    rewrite IH; [reflexivity|]. eapply includes_false_tail, H.
Qed.

Lemma occurrences_includes u s :
  (0 < occurrences u s)%nat -> includes u s = true.
Proof.
  intros H. destruct (includes u s) eqn:E; [reflexivity|].
  rewrite (includes_false_occurrences _ _ E) in H. lia.
Qed.

Lemma includes_short u s : (len s < len u)%nat -> includes u s = false.
Proof.
  intros H. destruct (includes u s) eqn:E; [|reflexivity].
  apply includes_spec in E as (a & b & ->). rewrite !len_app in H. lia.
Qed.

(** A string occurs in itself once. *)
Lemma occurrences_self c u : occurrences (String c u) (String c u) = 1%nat.
Proof.
  cbn [occurrences]. rewrite startsWith_refl.
  rewrite includes_false_occurrences; [reflexivity|].
  apply includes_short. cbn [String.length]. lia.
Qed.

(** *** The scan behind [split] and [join] *)

Lemma cut_here sep t : cut sep (sep +:+ t) = Some ("", t).
Proof.
  destruct (sep +:+ t) eqn:E; cbn [cut]; rewrite <- E, startsWith_app, drop_app;
    reflexivity.
Qed.

Lemma cut_skip sep c s :
  startsWith sep (String c s) = false ->
  cut sep (String c s) =
  match cut sep s with
  | Some (a, b) => Some (String c a, b)
  | None => None
  end.
Proof. intros H. cbn [cut]. rewrite H. reflexivity. Qed.

Lemma cut_len sep s a b :
  cut sep s = Some (a, b) -> (len a + len sep + len b = len s)%nat.
Proof.
  revert a b. induction s as [|c s IH]; intros a b; cbn [cut].
  - destruct sep; cbn [startsWith]; [|discriminate].
    intros [= <- <-]. reflexivity.
  - destruct (startsWith sep (String c s)) eqn:E.
    + intros [= <- <-]. apply startsWith_spec in E as [t Ht].
      rewrite Ht, drop_app, len_app. reflexivity.
    + destruct (cut sep s) as [[a' b']|]; [|discriminate].
      intros [= <- <-]. specialize (IH _ _ eq_refl).
      cbn [String.length]. lia.
Qed.

Lemma split_loop_fuel sep fuel :
  forall fuel' s,
    (0 < len sep)%nat -> (len s <= fuel)%nat -> (len s <= fuel')%nat ->
    split_loop fuel sep s = split_loop fuel' sep s.
Proof.
  induction fuel as [|fuel IH]; intros fuel' s Hsep Hf Hf'.
  - destruct s; [|cbn [String.length] in Hf; lia].
    destruct fuel'; cbn [split_loop];
      destruct (cut sep "") as [[a b]|] eqn:E; try reflexivity.
    apply cut_len in E. cbn [String.length] in E. lia.
  - cbn [split_loop]. destruct (cut sep s) as [[a b]|] eqn:E.
    + pose proof (cut_len _ _ _ _ E) as Hl.
      destruct fuel' as [|fuel']; [lia|].
      cbn [split_loop]. rewrite E. f_equal. apply IH; lia.
    + destruct fuel'; cbn [split_loop]; rewrite E; reflexivity.
Qed.

(** [split] unfolds along the first match. *)
Lemma split_unfold c sep s :
  split (String c sep) s =
  match cut (String c sep) s with
  | None => [s]
  | Some (a, b) => a :: split (String c sep) b
  end.
Proof.
  unfold split. destruct s as [|d s].
  - cbn [String.length split_loop]. destruct (cut _ "") as [[a b]|]eqn:E; [|reflexivity].
    apply cut_len in E. cbn [String.length] in E. lia.
  - cbn [String.length split_loop].
    destruct (cut _ (String d s)) as [[a b]|] eqn:E; [|reflexivity].
    f_equal. apply split_loop_fuel.
    + cbn [String.length]. lia.
    + apply cut_len in E. cbn [String.length] in E. lia.
    + lia.
Qed.

Lemma split_nonempty sep s : split sep s = [] -> sep = "" /\ s = "".
Proof.
  destruct sep as [|c sep].
  - destruct s; [auto | discriminate].
  - rewrite split_unfold. destruct (cut _ s) as [[a b]|]; discriminate.
Qed.

Lemma join_cons sep a l :
  l <> [] -> join sep (a :: l) = a +:+ sep +:+ join sep l.
Proof. destruct l; [congruence | reflexivity]. Qed.

(** [replaceAll] as a scan from left to right. *)
Lemma replaceAll_unfold c u fb s :
  replaceAll (String c u) fb s =
  match cut (String c u) s with
  | None => s
  | Some (a, b) => a +:+ fb +:+ replaceAll (String c u) fb b
  end.
Proof.
  unfold replaceAll. rewrite split_unfold.
  destruct (cut _ s) as [[a b]|]; [|reflexivity].
  apply join_cons. intros H. apply split_nonempty in H as [? _]. discriminate.
Qed.

Lemma replaceAll_here c u fb s :
  replaceAll (String c u) fb (String c u +:+ s) =
  fb +:+ replaceAll (String c u) fb s.
Proof. rewrite replaceAll_unfold, cut_here. reflexivity. Qed.

Lemma replaceAll_skip c u fb d s :
  startsWith (String c u) (String d s) = false ->
  replaceAll (String c u) fb (String d s) =
  String d (replaceAll (String c u) fb s).
Proof.
  intros H. rewrite (replaceAll_unfold c u fb (String d s)), (cut_skip _ _ _ H).
  rewrite (replaceAll_unfold c u fb s).
  destruct (cut _ s) as [[a b]|]; reflexivity.
Qed.

Lemma replaceAll_nil c u fb : replaceAll (String c u) fb "" = "".
Proof. reflexivity. Qed.

(** Nothing to replace: the text is returned as it is. *)
Lemma replaceAll_absent c u fb s :
  includes (String c u) s = false -> replaceAll (String c u) fb s = s.
Proof.
  induction s as [|d s IH]; intros H; [reflexivity|].
  rewrite replaceAll_skip by (apply includes_false_startsWith; exact H).
  rewrite IH; [reflexivity|]. eapply includes_false_tail, H.
Qed.

End TextFacts.

(* ------------------------------------------------------------------ *)
(** ** Replacement inside quoted text *)
(* ------------------------------------------------------------------ *)

Lemma list_sum_map_le {A} (f g : A -> nat) (l : list A) :
  (forall x, In x l -> (f x <= g x)%nat) ->
  (list_sum (map f l) <= list_sum (map g l))%nat.
Proof.
  induction l as [|x l IH]; intros H; [reflexivity|].
  simpl. pose proof (H x (or_introl eq_refl)).
  assert (list_sum (map f l) <= list_sum (map g l))%nat.
  { apply IH. intros y Hy. apply H. right. exact Hy. }
  lia.
Qed.

Module QuotedText.
Import Text TextFacts.

Lemma render_tokenize t : render (tokenize t).1 (tokenize t).2 = t.
Proof.
  induction t as [|c t IH]; [reflexivity|].
  cbn [tokenize]. destruct (tokenize t) as [items last]. cbn [fst snd] in *.
  destruct (isQuote c).
  - cbn [fst snd render]. rewrite IH. reflexivity.
  - destruct items as [|[g q] items]; cbn [fst snd render] in *.
    + rewrite IH. reflexivity.
    + rewrite app_cons, IH. reflexivity.
Qed.

Lemma tokenize_quotes t : Forall (fun it => isQuote it.2 = true) (tokenize t).1.
Proof.
  induction t as [|c t IH]; [constructor|].
  cbn [tokenize]. destruct (tokenize t) as [items last]. cbn [fst] in *.
  destruct (isQuote c) eqn:E; cbn [fst].
  - constructor; [exact E | exact IH].
  - destruct items as [|[g q] items]; [constructor|].
    inversion IH; subst. constructor; assumption.
Qed.

Section Replace.

(** The url searched for: not empty and free of quotes. *)
Variables (c : ascii) (u : string).
Hypothesis u_quoteFree : quoteFree (String c u) = true.

Local Abbreviation U := (String c u).

Lemma startsWith_at_quote q rest :
  isQuote q = true -> startsWith U (String q rest) = false.
Proof.
  intros Hq. cbn [startsWith].
  destruct (Ascii.eqb_spec c q) as [->|]; [|reflexivity].
  cbn [quoteFree] in u_quoteFree. rewrite Hq in u_quoteFree. discriminate.
Qed.

Lemma startsWith_before_quote v g q rest :
  quoteFree v = true -> isQuote q = true ->
  startsWith v (g +:+ String q rest) = startsWith v g.
Proof.
  revert g. induction v as [|a v IH]; intros g Hv Hq.
  - destruct g; reflexivity.
  - cbn [quoteFree] in Hv. apply andb_prop in Hv as [Ha Hv].
    destruct g as [|b g].
    + rewrite app_nil_l. cbn [startsWith].
      destruct (Ascii.eqb_spec a q) as [->|]; [|reflexivity].
      rewrite Hq in Ha. discriminate.
    + rewrite app_cons. cbn [startsWith].
      destruct (Ascii.eqb a b); [apply IH; assumption | reflexivity].
Qed.

Lemma includes_segment g q rest :
  isQuote q = true ->
  includes U (g +:+ String q rest) = includes U g || includes U rest.
Proof.
  intros Hq. induction g as [|b g IH].
  - rewrite app_nil_l. cbn [includes].
    rewrite (startsWith_at_quote _ _ Hq). reflexivity.
  - rewrite app_cons. cbn [includes].
    rewrite <- app_cons, (startsWith_before_quote _ _ _ _ u_quoteFree Hq).
    destruct (startsWith U (String b g)); [reflexivity | exact IH].
Qed.

Lemma occurrences_segment v g q rest :
  quoteFree v = true -> v <> "" -> isQuote q = true ->
  occurrences v (g +:+ String q rest) =
  (occurrences v g + occurrences v rest)%nat.
Proof.
  intros Hv Hne Hq.
  assert (Hat : forall r, startsWith v (String q r) = false).
  { intros r. destruct v as [|a v]; [congruence|]. cbn [startsWith].
    destruct (Ascii.eqb_spec a q) as [->|]; [|reflexivity].
    cbn [quoteFree] in Hv. rewrite Hq in Hv. discriminate. }
  assert (Hnil : startsWith v "" = false).
  { destruct v; [congruence | reflexivity]. }
  induction g as [|b g IH].
  - rewrite app_nil_l. cbn [occurrences]. rewrite Hat, Hnil. reflexivity.
  - rewrite app_cons. cbn [occurrences].
    rewrite <- app_cons, (startsWith_before_quote _ _ _ _ Hv Hq), IH. lia.
Qed.

Variable fb : string.

Local Abbreviation heal := (healSegment U fb).
Local Abbreviation healIt := (healItem U fb).

Lemma replaceAll_absent_segment g q rest :
  isQuote q = true -> includes U g = false ->
  replaceAll U fb (g +:+ String q rest) =
  g +:+ String q (replaceAll U fb rest).
Proof.
  intros Hq. induction g as [|b g IH]; intros Hg.
  - rewrite !app_nil_l. apply replaceAll_skip, startsWith_at_quote, Hq.
  - rewrite !app_cons. rewrite replaceAll_skip.
    + rewrite IH; [reflexivity|]. eapply includes_false_tail, Hg.
    + rewrite <- app_cons.
      rewrite (startsWith_before_quote _ _ _ _ u_quoteFree Hq).
      apply includes_false_startsWith, Hg.
Qed.

Lemma replaceAll_segment g q rest :
  isQuote q = true ->
  String.eqb g U || negb (includes U g) = true ->
  replaceAll U fb (g +:+ String q rest) =
  heal g +:+ String q (replaceAll U fb rest).
Proof.
  intros Hq Hg. unfold healSegment. destruct (String.eqb_spec g U) as [->|Hne].
  - rewrite replaceAll_here. f_equal.
    apply replaceAll_skip, startsWith_at_quote, Hq.
  - cbn [orb] in Hg. apply negb_true_iff in Hg.
    apply replaceAll_absent_segment; assumption.
Qed.

Lemma replaceAll_last g :
  String.eqb g U || negb (includes U g) = true ->
  replaceAll U fb g = heal g.
Proof.
  intros Hg. unfold healSegment. destruct (String.eqb_spec g U) as [Heq|Hne].
  - rewrite Heq.
    replace (replaceAll U fb U) with (replaceAll U fb (U +:+ ""))
      by (rewrite app_nil_r; reflexivity).
    rewrite replaceAll_here, replaceAll_nil. apply app_nil_r.
  - cbn [orb] in Hg. apply negb_true_iff in Hg.
    apply replaceAll_absent, Hg.
Qed.

Lemma replaceAll_render items last :
  Forall (fun it => isQuote it.2 = true) items ->
  forallb (fun g => String.eqb g U || negb (includes U g))
          (segments (items, last)) = true ->
  replaceAll U fb (render items last) =
  render (map healIt items) (heal last).
Proof.
  induction items as [|[g q] items IH]; intros Hq Hseg.
  - cbn [render map]. apply replaceAll_last.
    cbn in Hseg. apply andb_prop in Hseg as [H _]. exact H.
  - inversion Hq as [|? ? Hq1 Hq2]; subst. cbn [snd] in Hq1.
    unfold segments in Hseg. cbn [fst snd map app forallb] in Hseg.
    apply andb_prop in Hseg as [Hg Hrest].
    cbn [render map]. unfold healItem at 1. cbn [fst snd].
    rewrite (replaceAll_segment _ _ _ Hq1 Hg). rewrite IH; auto.
Qed.

Lemma includes_render items last :
  Forall (fun it => isQuote it.2 = true) items ->
  includes U (render items last) =
  existsb (includes U) (segments (items, last)).
Proof.
  induction items as [|[g q] items IH]; intros Hq.
  - cbn. rewrite orb_false_r. reflexivity.
  - inversion Hq as [|? ? Hq1 Hq2]; subst. cbn [snd] in Hq1.
    cbn [render]. rewrite (includes_segment _ _ _ Hq1), IH by assumption.
    reflexivity.
Qed.

Lemma occurrences_render v items last :
  quoteFree v = true -> v <> "" ->
  Forall (fun it => isQuote it.2 = true) items ->
  occurrences v (render items last) =
  list_sum (map (occurrences v) (segments (items, last))).
Proof.
  intros Hv Hne. induction items as [|[g q] items IH]; intros Hq.
  - cbn. lia.
  - inversion Hq as [|? ? Hq1 Hq2]; subst. cbn [snd] in Hq1.
    cbn [render]. rewrite (occurrences_segment _ _ _ _ Hv Hne Hq1), IH by assumption.
    reflexivity.
Qed.

Hypothesis fb_quoteFree : quoteFree fb = true.
Hypothesis fb_nonempty : fb <> "".
Hypothesis fb_clean : includes U fb = false.

Lemma heal_clean g :
  String.eqb g U || negb (includes U g) = true ->
  includes U (heal g) = false.
Proof.
  intros Hg. unfold healSegment. destruct (String.eqb_spec g U); [exact fb_clean|].
  cbn [orb] in Hg. apply negb_true_iff in Hg. exact Hg.
Qed.

Lemma heal_counts g :
  String.eqb g U || negb (includes U g) = true ->
  (occurrences U g <= occurrences fb (heal g))%nat.
Proof.
  intros Hg. unfold healSegment. destruct (String.eqb_spec g U) as [Heq|Hne].
  - rewrite Heq, occurrences_self.
    destruct fb as [|d fb']; [congruence|]. rewrite occurrences_self. lia.
  - cbn [orb] in Hg. apply negb_true_iff in Hg.
    rewrite (includes_false_occurrences _ _ Hg). lia.
Qed.

(** Replacement in a text in which the url occurs only as a complete
    quoted value: every such value becomes the fallback, the rest of the
    text is kept, the url is gone, and the fallback stands wherever the
    url stood. *)
Lemma replaceAll_wholeValues t :
  wholeValuesOnly U t = true ->
  replaceAll U fb t =
    render (map healIt (tokenize t).1) (heal (tokenize t).2) /\
  includes U (replaceAll U fb t) = false /\
  (occurrences U t <= occurrences fb (replaceAll U fb t))%nat.
Proof.
  intros Hw. unfold wholeValuesOnly in Hw.
  pose proof (tokenize_quotes t) as Hq.
  pose proof (render_tokenize t) as Hr.
  destruct (tokenize t) as [items last]. cbn [fst snd] in *.
  assert (Hq' : Forall (fun it => isQuote it.2 = true) (map healIt items)).
  { clear -Hq. induction Hq; constructor; auto. }
  assert (Heq : replaceAll U fb t = render (map healIt items) (heal last)).
  { rewrite <- Hr at 1. apply replaceAll_render; assumption. }
  split; [exact Heq|]. rewrite Heq. split.
  - rewrite (includes_render _ _ Hq').
    apply not_true_is_false. intros H.
    apply existsb_exists in H as (g & Hin & Hg).
    unfold segments in Hin. cbn [fst snd] in Hin.
    rewrite map_map in Hin. cbn [healItem fst] in Hin.
    assert (exists g0, g = heal g0 /\ In g0 (segments (items, last))) as (g0 & -> & Hin0).
    { unfold segments. cbn [fst snd].
      apply in_app_or in Hin as [Hin|[<-|[]]].
      - apply in_map_iff in Hin as ([g0 q0] & <- & Hin).
        exists g0. split; [reflexivity|].
        apply in_or_app. left. apply in_map_iff. exists (g0, q0). auto.
      - exists last. split; [reflexivity|]. apply in_or_app. right. left. reflexivity. }
    rewrite forallb_forall in Hw. rewrite (heal_clean _ (Hw _ Hin0)) in Hg.
    discriminate.
  - rewrite <- Hr at 1.
    rewrite (occurrences_render _ _ _ u_quoteFree ltac:(discriminate) Hq).
    rewrite (occurrences_render _ _ _ fb_quoteFree fb_nonempty Hq').
    replace (segments (map healIt items, heal last))
      with (map heal (segments (items, last))).
    + rewrite map_map. apply list_sum_map_le.
      intros g Hg. apply heal_counts.
      rewrite forallb_forall in Hw. apply Hw, Hg.
    + unfold segments. cbn [fst snd]. rewrite map_app, !map_map. reflexivity.
Qed.

Lemma replaceAll_idempotent t :
  wholeValuesOnly U t = true ->
  replaceAll U fb (replaceAll U fb t) = replaceAll U fb t.
Proof.
  intros Hw. apply replaceAll_absent, replaceAll_wholeValues, Hw.
Qed.

End Replace.

End QuotedText.

(* ------------------------------------------------------------------ *)
(** ** The repair loop *)
(* ------------------------------------------------------------------ *)

Section PluginFacts.

Variable net : network.

Lemma writes_app w evs :
  writes (World (files w) (requests w) (log w ++ evs)) =
  (writes w + length (filter (fun e => isWrite e = true) evs))%nat.
Proof. unfold writes. cbn [log]. rewrite filter_app, length_app. reflexivity. Qed.

Lemma no_write_in_requestTrace url t n :
  filter (fun e => isWrite e = true) (requestTrace net url t n) = [].
Proof. unfold requestTrace. destruct (net n url); reflexivity. Qed.

(** Probing reads and writes no file. *)
Lemma retryLoop_effects fuel :
  forall i url t r last w res w',
    retryLoop net fuel i url t r last w = Some (res, w') ->
    files w' = files w /\ writes w' = writes w.
Proof.
  induction fuel as [|fuel IH]; intros i url t r last w res w'.
  - intros [= <- <-]. auto.
  - cbn [retryLoop]. destruct (i <=? r); [|intros [= <- <-]; auto].
    unfold bind at 1.
    destruct (refuses net (protocolOf url) url t) eqn:Hacc;
      [rewrite (checkUrl_refused net url t w Hacc); discriminate|].
    rewrite (checkUrl_eq net url t Hacc).
    set (w1 := World _ _ _).
    assert (H1 : files w1 = files w /\ writes w1 = writes w).
    { split; [reflexivity|]. unfold w1, writes. cbn [log].
      rewrite filter_app, no_write_in_requestTrace, app_nil_r. reflexivity. }
    destruct H1 as [H1 H2].
    destruct (ok _); [intros [= <- <-]; auto|].
    unfold bind.
    destruct (i <? r); unfold_monad; intros H; apply IH in H as [Hf Hw];
      cbn [files] in Hf; rewrite Hf, Hw; split; try exact H1;
      rewrite <- H2; unfold writes; cbn [log];
      rewrite ?filter_app; cbn [filter]; rewrite ?app_nil_r; reflexivity.
Qed.

Lemma rewriteFiles_effects url fb paths :
  forall w w',
    rewriteFiles url fb paths w = Some (tt, w') ->
    requests w' = requests w /\
    writes w' = (writes w + length paths)%nat.
Proof.
  induction paths as [|file more IH]; intros w w'.
  - intros [= <-]. split; [reflexivity | cbn [length]; lia].
  - cbn [rewriteFiles]. unfold_monad.
    destruct (files w !! file) as [html|]; [|discriminate].
    intros H. apply IH in H as [Hr Hw]. cbn [requests] in Hr.
    split; [exact Hr|]. rewrite Hw. unfold writes. cbn [log length].
    rewrite filter_app, length_app.
    change (length (filter (fun e => isWrite e = true)
              [EvWrite file (Text.replaceAll url fb html)])) with 1%nat.
    lia.
Qed.

(** Rewriting the files of a url whose replacement is stable (a second
    replacement changes nothing): every listed file holds the replaced
    text, also when it is listed more than once. *)
Lemma rewriteFiles_stable url fb paths :
  forall w,
    (forall file, file ∈ paths ->
       exists t, files w !! file = Some t /\
                 Text.replaceAll url fb (Text.replaceAll url fb t) =
                 Text.replaceAll url fb t) ->
    exists w',
      rewriteFiles url fb paths w = Some (tt, w') /\
      forall file,
        files w' !! file =
        if decide (file ∈ paths)
        then Text.replaceAll url fb <$> (files w !! file)
        else files w !! file.
Proof.
  induction paths as [|f more IH]; intros w Hall.
  - exists w. split; [reflexivity|]. intros file.
    destruct (decide (file ∈ [])) as [H|]; [inversion H | reflexivity].
  - destruct (Hall f ltac:(left)) as (t & Ht & Hidem).
    cbn [rewriteFiles]. unfold_monad. rewrite Ht.
    set (w1 := World _ _ _).
    destruct (IH w1) as (w' & Hrun & Hfiles).
    { intros file Hin. unfold w1. cbn [files].
      destruct (decide (file = f)) as [->|Hne].
      - rewrite lookup_insert_eq. eexists. split; [reflexivity|].
        rewrite Hidem. exact Hidem.
      - rewrite lookup_insert_ne by congruence.
        apply Hall. right. exact Hin. }
    exists w'. split; [exact Hrun|].
    intros file. rewrite Hfiles. unfold w1. cbn [files].
    destruct (decide (file = f)) as [->|Hne].
    + rewrite lookup_insert_eq, Ht.
      destruct (decide (f ∈ f :: more)) as [_|Hn]; [|exfalso; apply Hn; left].
      destruct (decide (f ∈ more)); cbn [fmap option_fmap option_map];
        rewrite ?Hidem; reflexivity.
    + rewrite lookup_insert_ne by congruence.
      destruct (decide (file ∈ more)) as [Hin|Hout];
        destruct (decide (file ∈ f :: more)) as [Hin'|Hout'];
        try reflexivity.
      * exfalso. apply Hout'. right. exact Hin.
      * apply elem_of_cons in Hin' as [?|?]; contradiction.
Qed.

End PluginFacts.

Section RunFacts.

Variable net : network.

(** One round of the loop over [uniqueUrls]. *)
Lemma checkOne_spec cfg ix url bc w e bc' w' :
  checkOne net cfg ix url bc w = Some ((e, bc'), w') ->
  e_url e = url /\
  replaced e = negb (e_ok e) /\
  bc' = (if e_ok e then bc else S bc) /\
  is_Some (urlFileMap ix !! url) /\
  filesUsing e = length (default [] (urlFileMap ix !! url)) /\
  writes w' = (writes w + if e_ok e then 0 else filesUsing e)%nat /\
  (e_ok e = true -> files w' = files w).
Proof.
  unfold checkOne, checkUrlWithRetry. unfold bind at 1.
  destruct (retryLoop _ _ _ _ _ _ _ w) as [[res w1]|] eqn:Hloop; [|discriminate].
  apply retryLoop_effects in Hloop as [Hf Hw].
  destruct (urlFileMap ix !! url) as [paths|]; [|discriminate].
  destruct res as [result|]; [|discriminate].
  destruct (ok result) eqn:Hok; cbn [negb].
  - unfold ret. intros [= <- <- <-]. cbn [e_url replaced e_ok filesUsing default].
    rewrite Hw, Hf. repeat split; eauto; lia.
  - unfold bind.
    destruct (rewriteFiles _ _ _ w1) as [[[] w2]|] eqn:Hrw; [|discriminate].
    unfold ret. intros [= <- <- <-].
    cbn [e_url replaced e_ok filesUsing default].
    apply rewriteFiles_effects in Hrw as [_ Hw2].
    rewrite Hw2, Hw. repeat split; eauto. discriminate.
Qed.

Lemma checkAll_spec cfg ix urls :
  forall rs bc w rs' bc' w',
    checkAll net cfg ix urls rs bc w = Some ((rs', bc'), w') ->
    exists es,
      rs' = rs ++ es /\
      map e_url es = urls /\
      Forall (fun e => replaced e = negb (e_ok e)) es /\
      bc' = (bc + length (filter (fun e => e_ok e = false) es))%nat /\
      writes w' =
        (writes w +
         list_sum (map (fun e => if e_ok e then 0 else filesUsing e) es))%nat /\
      (Forall (fun e => e_ok e = true) es -> files w' = files w).
Proof.
  induction urls as [|url more IH]; intros rs bc w rs' bc' w'.
  - intros [= <- <- <-]. exists []. rewrite app_nil_r.
    repeat split; auto; simpl; lia.
  - cbn [checkAll]. unfold bind at 1.
    destruct (checkOne net cfg ix url bc w) as [[[e bc1] w1]|] eqn:Hone;
      [|discriminate].
    cbn [fst snd]. intros Hall.
    apply checkOne_spec in Hone as (Hu & Hr & Hb & _ & _ & Hw & Hf).
    apply IH in Hall as (es & -> & Hus & Hrs & -> & Hws & Hfs).
    exists (e :: es). rewrite <- app_assoc. cbn [app map].
    split; [reflexivity|]. split; [congruence|].
    split; [constructor; assumption|].
    rewrite filter_cons. cbn [list_sum fold_right]. rewrite Hws, Hw, Hb.
    fold (list_sum (map (fun e => if e_ok e then 0%nat else filesUsing e) es)).
    destruct (e_ok e) eqn:Hok.
    + rewrite decide_False by discriminate.
      split; [lia|]. split; [lia|].
      intros Hall. inversion Hall; subst. rewrite Hfs, Hf; auto.
    + rewrite decide_True by reflexivity. cbn [length].
      split; [lia|]. split; [lia|].
      intros Hall. inversion Hall; subst. congruence.
Qed.

(** Scanning reads the files and changes nothing. *)
Lemma scanFiles_effects pattern htmlFiles :
  forall ix w ix' w',
    scanFiles pattern htmlFiles ix w = Some (ix', w') -> w' = w.
Proof.
  induction htmlFiles as [|file more IH]; intros ix w ix' w'.
  - intros [= <- <-]. reflexivity.
  - cbn [scanFiles]. unfold bind, readFileSync.
    destruct (files w !! file) as [html|]; [|discriminate].
    destruct (extractAffiliateLinks html pattern) as [links|]; [|discriminate].
    apply IH.
Qed.

(** A run that returns: the report and the effects on the files. *)
Lemma onPostBuild_spec htmlFiles i w rep w' :
  onPostBuild net htmlFiles i w = Some (rep, w') ->
  Forall (fun e => replaced e = negb (e_ok e)) (results rep) /\
  brokenCount rep = length (filter (fun e => e_ok e = false) (results rep)) /\
  failBuild rep =
    (if failOnBroken (mergeConfig DEFAULTS i) && (0 <? brokenCount rep)%nat
     then Some (failureMessage (results rep) (brokenCount rep))
     else None) /\
  writes w' =
    (writes w +
     list_sum (map (fun e => if e_ok e then 0 else filesUsing e)
                   (results rep)))%nat /\
  (Forall (fun e => e_ok e = true) (results rep) -> files w' = files w).
Proof.
  unfold onPostBuild. intros H.
  set (cfg := mergeConfig DEFAULTS i) in *.
  destruct (Regex.parsePattern (affiliatePattern cfg)); [|discriminate].
  unfold bind at 1 in H.
  destruct (scanFiles _ _ _ w) as [[ix w1]|] eqn:Hscan; [|discriminate].
  apply scanFiles_effects in Hscan as ->.
  destruct (allUrls ix) as [|url more] eqn:Hurls.
  - injection H as <- <-. cbn [results brokenCount failBuild].
    rewrite andb_false_r. repeat split; auto.
  - unfold bind in H.
    destruct (checkAll _ _ _ _ _ _ w) as [[[rs bc] w2]|] eqn:Hall; [|discriminate].
    cbn [fst snd] in H.
    apply checkAll_spec in Hall as (es & -> & _ & Hrs & -> & Hws & Hfs).
    cbn [app] in *. rewrite Nat.add_0_l in H.
    destruct (failOnBroken cfg &&
              (0 <? length (filter (fun e => e_ok e = false) es))%nat) eqn:Hv;
      injection H as <- <-; cbn [results brokenCount failBuild];
      rewrite Hv; repeat split; auto.
Qed.

End RunFacts.

(* ------------------------------------------------------------------ *)
(** ** Claims about the run *)
(* ------------------------------------------------------------------ *)

Section ReportFacts.
Import Text TextFacts.

Lemma includes_inside u a b : includes u (a +:+ u +:+ b) = true.
Proof. apply includes_spec. exists a, b. reflexivity. Qed.

Lemma includes_context u s a b :
  includes u s = true -> includes u (a +:+ s +:+ b) = true.
Proof.
  intros H. apply includes_spec in H as (x & y & ->).
  apply includes_spec. exists (a +:+ x), (y +:+ b).
  rewrite !app_assoc. reflexivity.
Qed.

Lemma includes_join sep x l :
  In x l -> includes x (join sep l) = true.
Proof.
  induction l as [|y l IH]; [intros []|].
  intros [->|Hin].
  - destruct l as [|z l].
    + cbn. rewrite <- (app_nil_r x) at 2. apply (includes_inside x "" "").
    + change (join sep (x :: z :: l)) with (x +:+ sep +:+ join sep (z :: l)).
      apply (includes_inside x "").
  - destruct l as [|z l]; [destruct Hin|].
    change (join sep (y :: z :: l)) with (y +:+ sep +:+ join sep (z :: l)).
    specialize (IH Hin). apply includes_spec in IH as (a & b & ->).
    apply includes_spec. exists (y +:+ sep +:+ a), b.
    rewrite !app_assoc. reflexivity.
Qed.

(** Every replaced entry has its line in the failure message. *)
Lemma failureMessage_lists rs bc e :
  In e rs -> replaced e = true ->
  includes (e_url e +:+ " (" +:+ reason e +:+ ")") (failureMessage rs bc) = true.
Proof.
  intros Hin Hrep. unfold failureMessage.
  set (line := fun r => e_url r +:+ " (" +:+ reason r +:+ ")").
  change (e_url e +:+ " (" +:+ reason e +:+ ")") with (line e).
  match goal with
  | |- includes _ (?a +:+ ?b +:+ ?c +:+ ?d +:+ ?f +:+ ?l +:+ ?rest) = true =>
      replace (a +:+ b +:+ c +:+ d +:+ f +:+ l +:+ rest)
        with ((a +:+ b +:+ c +:+ d +:+ f) +:+ l +:+ rest)
        by (rewrite !app_assoc; reflexivity)
  end.
  apply includes_context, includes_join.
  apply in_map_iff. exists e. split; [reflexivity|].
  apply list_elem_of_In, list_elem_of_filter. split; [exact Hrep|].
  apply list_elem_of_In, Hin.
Qed.

End ReportFacts.

Section RunClaims.

Variable net : network.

(** C5. After a run, an entry is marked replaced exactly when its outcome
    is not ok: every broken entry is replaced and no healthy or redirected
    one is.  Files are written only for broken entries: the number of
    writes of the run is the sum of [filesUsing] over the broken entries,
    and a run without broken entries leaves every file as it was. *)
Theorem C5_replaced_iff_broken htmlFiles i w rep w' :
  onPostBuild net htmlFiles i w = Some (rep, w') ->
  (forall e, e ∈ results rep -> (replaced e = true <-> e_ok e = false)) /\
  writes w' =
    (writes w +
     list_sum (map (fun e => if e_ok e then 0 else filesUsing e)
                   (results rep)))%nat /\
  ((forall e, e ∈ results rep -> e_ok e = true) ->
   files w' = files w /\ writes w' = writes w).
Proof.
  intros H. apply onPostBuild_spec in H as (Hr & _ & _ & Hw & Hf).
  split; [|split].
  - intros e He. rewrite Forall_forall in Hr. rewrite (Hr e He).
    destruct (e_ok e); cbn [negb]; split; congruence.
  - exact Hw.
  - intros Hok. split.
    + apply Hf, Forall_forall, Hok.
    + rewrite Hw. clear -Hok. induction (results rep) as [|e l IH]; [cbn; lia|].
      cbn [map list_sum fold_right].
      rewrite (Hok e ltac:(left)).
      fold (list_sum (map (fun e => if e_ok e then 0%nat else filesUsing e) l)).
      rewrite Nat.add_0_l. apply IH. intros e' He'. apply Hok. right. exact He'.
Qed.


End RunClaims.

Lemma C5_witness :
  exists rep w',
    onPostBuild (net_always (Response 500 None)) ["a.html"] sampleInputs
                sampleSite = Some (rep, w') /\
    (forall e, e ∈ results rep -> (replaced e = true <-> e_ok e = false)) /\
    map replaced (results rep) = [true] /\ writes w' = 2%nat.
Proof.
  eexists _, _. split; [vm_compute; reflexivity|].
  split; [|split; reflexivity].
  eapply (C5_replaced_iff_broken (net_always (Response 500 None)) ["a.html"]
            sampleInputs sampleSite).
  vm_compute. reflexivity.
Defined.


(* ------------------------------------------------------------------ *)
(** ** The regular expression against the reading without backtracking *)
(* ------------------------------------------------------------------ *)

Module RegexFacts.
Import Text TextFacts Regex.

Lemma accepts_quote a : accepts (AnyOf quotes) a = isQuote a.
Proof. destruct a as [[] [] [] [] [] [] [] []]; reflexivity. Qed.

Lemma accepts_nonquote a : accepts (NoneOf quotes) a = negb (isQuote a).
Proof. destruct a as [[] [] [] [] [] [] [] []]; reflexivity. Qed.

Lemma isQuote_inv q : isQuote q = true -> q = dquote \/ q = squote.
Proof.
  destruct q as [[] [] [] [] [] [] [] []]; cbv; intros H;
    first [discriminate | left; reflexivity | right; reflexivity].
Qed.

Lemma sameChar_quote_r a q :
  isQuote q = true -> sameChar a q = true -> isQuote a = true.
Proof.
  intros Hq. apply isQuote_inv in Hq as [->| ->];
    destruct a as [[] [] [] [] [] [] [] []]; cbv; congruence.
Qed.

Lemma sameChar_quote_l a q :
  isQuote q = true -> sameChar q a = true -> isQuote a = true.
Proof.
  intros Hq. apply isQuote_inv in Hq as [->| ->];
    destruct a as [[] [] [] [] [] [] [] []]; cbv; congruence.
Qed.

Lemma sameChar_s_colon a : sameChar a "s" = true -> sameChar a ":" = false.
Proof. destruct a as [[] [] [] [] [] [] [] []]; cbv; congruence. Qed.

(** *** Unfolding the matcher *)

Lemma matchSeq_many x r a s :
  matchSeq (Many x :: r) (String a s) =
  if accepts x a then
    match matchSeq (Many x :: r) s with
    | Some res => Some res
    | None => matchSeq r (String a s)
    end
  else matchSeq r (String a s).
Proof. reflexivity. Qed.

Lemma matchSeq_many_nil x r : matchSeq (Many x :: r) "" = matchSeq r "".
Proof. reflexivity. Qed.

Lemma lits_cons a p : lits (String a p) = Once (One a) :: lits p.
Proof. reflexivity. Qed.

Lemma matchSeq_lits p r s :
  matchSeq (lits p ++ r) s =
  if startsWithCI p s then matchSeq r (drop (len p) s) else None.
Proof.
  revert s. induction p as [|a p IH]; intros s.
  - destruct s; reflexivity.
  - rewrite lits_cons. cbn [app matchSeq startsWithCI].
    destruct s as [|b s]; [reflexivity|].
    cbn [accepts String.length drop]. destruct (sameChar b a); [apply IH | reflexivity].
Qed.

(** *** Values and quotes *)

Lemma value_afterValue s : value s +:+ afterValue s = s.
Proof.
  induction s as [|c s IH]; [reflexivity|].
  cbn [value afterValue]. destruct (isQuote c); [reflexivity|].
  rewrite app_cons, IH. reflexivity.
Qed.

Lemma value_quoteFree s : quoteFree (value s) = true.
Proof.
  induction s as [|c s IH]; [reflexivity|].
  cbn [value]. destruct (isQuote c) eqn:E; [reflexivity|].
  cbn [quoteFree]. rewrite E, IH. reflexivity.
Qed.

Lemma value_app u q rest :
  quoteFree u = true -> isQuote q = true ->
  value (u +:+ String q rest) = u /\
  afterValue (u +:+ String q rest) = String q rest.
Proof.
  intros Hu Hq. induction u as [|c u IH].
  - rewrite app_nil_l. cbn [value afterValue]. rewrite Hq. auto.
  - cbn [quoteFree] in Hu. apply andb_prop in Hu as [Hc Hu].
    apply negb_true_iff in Hc. rewrite app_cons. cbn [value afterValue].
    rewrite Hc. destruct (IH Hu) as [-> ->]. auto.
Qed.

Lemma value_of_quoteFree u : quoteFree u = true -> value u = u /\ afterValue u = "".
Proof.
  induction u as [|c u IH]; intros Hu; [auto|].
  cbn [quoteFree] in Hu. apply andb_prop in Hu as [Hc Hu].
  apply negb_true_iff in Hc. cbn [value afterValue]. rewrite Hc.
  destruct (IH Hu) as [-> ->]. auto.
Qed.

Lemma afterValue_head s :
  match afterValue s with
  | String q _ => isQuote q = true
  | EmptyString => True
  end.
Proof.
  induction s as [|c s IH]; [exact I|].
  cbn [afterValue]. destruct (isQuote c) eqn:E; [exact E | exact IH].
Qed.

Lemma group1_value s :
  take (len s - len (afterValue s)) s = value s.
Proof.
  rewrite <- (value_afterValue s) at 1 3. rewrite len_app.
  replace (len (value s) + len (afterValue s) - len (afterValue s))%nat
    with (len (value s)) by lia.
  apply take_app.
Qed.

(** A quote-free literal is matched inside the value. *)
Lemma startsWithCI_value p s :
  quoteFree p = true -> startsWithCI p (value s) = startsWithCI p s.
Proof.
  revert s. induction p as [|a p IH]; intros s Hp; [reflexivity|].
  cbn [quoteFree] in Hp. apply andb_prop in Hp as [Ha Hp].
  apply negb_true_iff in Ha.
  destruct s as [|b s]; [reflexivity|]. cbn [value].
  destruct (isQuote b) eqn:Hb; cbn [startsWithCI].
  - destruct (sameChar b a) eqn:E; [|reflexivity].
    apply (sameChar_quote_l _ _ Hb) in E. congruence.
  - rewrite IH by exact Hp. reflexivity.
Qed.

Lemma startsWithCI_drop p s :
  quoteFree p = true -> startsWithCI p s = true ->
  value (drop (len p) s) = drop (len p) (value s) /\
  afterValue (drop (len p) s) = afterValue s.
Proof.
  revert s. induction p as [|a p IH]; intros s Hp Hs; [auto|].
  cbn [quoteFree] in Hp. apply andb_prop in Hp as [Ha Hp].
  apply negb_true_iff in Ha.
  destruct s as [|b s]; [discriminate|].
  cbn [startsWithCI] in Hs. apply andb_prop in Hs as [Hb Hs].
  assert (Hnq : isQuote b = false).
  { destruct (isQuote b) eqn:E; [|reflexivity].
    apply (sameChar_quote_l _ _ E) in Hb. congruence. }
  cbn [String.length drop value afterValue]. rewrite Hnq. cbn [drop].
  apply IH; assumption.
Qed.

Lemma dropS_value s :
  value (dropS s) = dropS (value s) /\ afterValue (dropS s) = afterValue s.
Proof.
  destruct s as [|a s]; [auto|]. cbn [dropS value afterValue].
  destruct (isQuote a) eqn:Hq.
  - destruct (sameChar a "s") eqn:E.
    + apply (sameChar_quote_l _ _ Hq) in E. discriminate.
    + cbn [value afterValue dropS]. rewrite Hq. auto.
  - cbn [dropS]. destruct (sameChar a "s"); [auto|].
    cbn [value afterValue]. rewrite Hq. auto.
Qed.

End RegexFacts.

Module RegexRefinement.
Import Text TextFacts Regex RegexFacts.

Lemma match_tail s :
  matchSeq tailRe s =
  match afterValue s with
  | String _ rest => Some ([afterValue s], rest)
  | EmptyString => None
  end.
Proof.
  unfold tailRe. induction s as [|a s IH]; [reflexivity|].
  rewrite matchSeq_many, accepts_nonquote. cbn [afterValue].
  destruct (isQuote a) eqn:Hq; cbn [negb].
  - cbn [matchSeq]. rewrite accepts_quote, Hq. reflexivity.
  - rewrite IH. destruct (afterValue s) as [|q rest]; [|reflexivity].
    cbn [matchSeq]. rewrite accepts_quote, Hq. reflexivity.
Qed.

Section Pattern.

Variable P : string.
Hypothesis P_quoteFree : quoteFree P = true.

Lemma match_pattern_tail s :
  matchSeq (lits P ++ tailRe) s =
  if startsWithCI P s then
    match afterValue s with
    | String _ rest => Some ([afterValue s], rest)
    | EmptyString => None
    end
  else None.
Proof.
  rewrite matchSeq_lits. destruct (startsWithCI P s) eqn:E; [|reflexivity].
  rewrite match_tail.
  destruct (startsWithCI_drop _ _ P_quoteFree E) as [_ ->]. reflexivity.
Qed.

Lemma match_mid s :
  matchSeq (Many (NoneOf quotes) :: lits P ++ tailRe) s =
  match afterValue s with
  | String _ rest =>
      if containsCI P (value s) then Some ([afterValue s], rest) else None
  | EmptyString => None
  end.
Proof.
  induction s as [|a s IH].
  - rewrite matchSeq_many_nil, match_pattern_tail.
    destruct (startsWithCI P ""); reflexivity.
  - rewrite matchSeq_many, accepts_nonquote, match_pattern_tail.
    cbn [afterValue value]. destruct (isQuote a) eqn:Hq; cbn [negb].
    + cbn [containsCI]. rewrite orb_false_r.
      destruct P as [|p P'] eqn:EP; [reflexivity|].
      cbn [startsWithCI]. destruct (sameChar a p) eqn:E; [|reflexivity].
      apply (sameChar_quote_l _ _ Hq) in E.
      cbn [quoteFree] in P_quoteFree. rewrite E in P_quoteFree. discriminate.
    + rewrite IH.
      destruct (afterValue s) as [|q rest] eqn:Eafter.
      * destruct (startsWithCI P (String a s)); reflexivity.
      * cbn [containsCI].
        destruct (containsCI P (value s)); [rewrite orb_true_r; reflexivity|].
        rewrite orb_false_r.
        replace (String a (value s)) with (value (String a s))
          by (cbn [value]; rewrite Hq; reflexivity).
        rewrite (startsWithCI_value _ _ P_quoteFree). reflexivity.
Qed.

Lemma match_maybe_s r s :
  matchSeq (Maybe (One "s") :: lits "://" ++ r) s =
  matchSeq (lits "://" ++ r) (dropS s).
Proof.
  destruct s as [|a s]; [reflexivity|].
  cbn [matchSeq accepts dropS]. destruct (sameChar a "s") eqn:E; [|reflexivity].
  destruct (matchSeq (lits "://" ++ r) s) as [res|]; [reflexivity|].
  rewrite matchSeq_lits. cbn [startsWithCI].
  rewrite (sameChar_s_colon _ E). reflexivity.
Qed.

Lemma drop_S_of n s c s' : drop n s = String c s' -> drop (S n) s = s'.
Proof.
  revert s. induction n as [|n IH]; intros s H.
  - cbn [drop] in H. subst s. reflexivity.
  - destruct s as [|d s]; [discriminate|]. cbn [drop] in *. apply IH, H.
Qed.

(** The expression of line 93 reads a link exactly as [linkAt] does. *)
Lemma match_template s :
  option_map (fun m => (group1 m.1, m.2)) (matchSeq (template (lits P)) s) =
  linkAt P s.
Proof.
  unfold template, linkAt. rewrite matchSeq_lits.
  destruct (startsWithCI "href=" s); [|reflexivity].
  change (len "href=") with 5%nat.
  destruct (drop 5 s) as [|q1 s1]; [reflexivity|].
  cbn [app matchSeq]. rewrite accepts_quote.
  destruct (isQuote q1); [|reflexivity]. cbn [andb].
  rewrite matchSeq_lits. unfold isAffiliate.
  rewrite (startsWithCI_value "http" s1 eq_refl).
  destruct (startsWithCI "http" s1) eqn:H4; [|reflexivity]. cbn [andb].
  change (len "http") with 4%nat.
  destruct (startsWithCI_drop "http" s1 eq_refl H4) as [Hv4 Ha4].
  change (len "http") with 4%nat in Hv4, Ha4.
  rewrite (match_maybe_s _ (drop 4 s1)), matchSeq_lits.
  destruct (dropS_value (drop 4 s1)) as [HvS HaS].
  rewrite <- Hv4, <- HvS, (startsWithCI_value "://" _ eq_refl).
  destruct (startsWithCI "://" (dropS (drop 4 s1))) eqn:H3; [|reflexivity].
  cbn [andb]. change (len "://") with 3%nat.
  destruct (startsWithCI_drop "://" _ eq_refl H3) as [Hv3 Ha3].
  change (len "://") with 3%nat in Hv3, Ha3.
  rewrite <- Hv3.
  change ([Many (NoneOf quotes)] ++ lits P ++
          [Many (NoneOf quotes)] ++ [Mark] ++ [Once (AnyOf quotes)])
    with (Many (NoneOf quotes) :: lits P ++ tailRe).
  rewrite match_mid, Ha3, HaS, Ha4.
  destruct (afterValue s1) as [|q2 rest] eqn:Eafter.
  - destruct (containsCI P _); reflexivity.
  - destruct (containsCI P _); [|reflexivity].
    cbn [option_map fst snd group1]. rewrite <- Eafter, group1_value.
    reflexivity.
Qed.

Lemma exec_findLink s : exec (template (lits P)) s = findLink P s.
Proof.
  induction s as [|a s IH]; cbn [exec findLink];
    rewrite <- match_template;
    destruct (matchSeq (template (lits P)) _) as [[marks rest]|];
    try reflexivity.
  exact IH.
Qed.

End Pattern.

End RegexRefinement.

(* ------------------------------------------------------------------ *)
(** ** Scanning a text for links *)
(* ------------------------------------------------------------------ *)

Module Scan.
Import Text TextFacts Regex RegexFacts RegexRefinement.

(** Every pattern of the modelled fragment stands for a literal text. *)
Lemma parsePattern_lits n :
  forall p r, (len p <= n)%nat -> parsePattern p = Some r ->
              exists P, r = lits P.
Proof.
  induction n as [|n IH]; intros p r Hn.
  - destruct p; [|cbn [String.length] in Hn; lia].
    intros [= <-]. exists "". reflexivity.
  - destruct p as [|c p]; [intros [= <-]; exists ""; reflexivity|].
    cbn [String.length] in Hn. cbn [parsePattern].
    destruct (Ascii.eqb c "\").
    + destruct p as [|d p]; [discriminate|].
      cbn [String.length] in Hn.
      destruct (isAscii d && negb (isWordChar d)); [|discriminate].
      destruct (parsePattern p) as [r'|] eqn:E; [|discriminate].
      intros [= <-]. destruct (IH p r' ltac:(lia) E) as [P ->].
      exists (String d P). reflexivity.
    + destruct (isAscii c && negb (isSyntaxChar c)); [|discriminate].
      destruct (parsePattern p) as [r'|] eqn:E; [|discriminate].
      intros [= <-]. destruct (IH p r' ltac:(lia) E) as [P ->].
      exists (String c P). reflexivity.
Qed.

Lemma len_drop n s : (len (drop n s) <= len s)%nat.
Proof.
  revert s. induction n as [|n IH]; intros s; [reflexivity|].
  destruct s as [|c s]; [reflexivity|]. cbn [drop String.length].
  specialize (IH s). lia.
Qed.

Lemma len_afterValue s : (len (afterValue s) <= len s)%nat.
Proof.
  induction s as [|c s IH]; [reflexivity|].
  cbn [afterValue]. destruct (isQuote c); cbn [String.length]; lia.
Qed.

Section Pattern.

Variable P : string.

Lemma linkAt_len s u rest : linkAt P s = Some (u, rest) -> (len rest < len s)%nat.
Proof.
  unfold linkAt. destruct (startsWithCI "href=" s); [|discriminate].
  pose proof (len_drop 5 s) as H5.
  destruct (drop 5 s) as [|q1 s1]; [discriminate|].
  destruct (isQuote q1 && isAffiliate P (value s1)); [|discriminate].
  pose proof (len_afterValue s1) as Ha.
  destruct (afterValue s1) as [|q2 r]; [discriminate|].
  intros [= _ <-]. cbn [String.length] in *. lia.
Qed.

Lemma findLink_len s u rest :
  findLink P s = Some (u, rest) -> (len rest < len s)%nat.
Proof.
  induction s as [|c s IH]; cbn [findLink].
  - destruct (linkAt P "") as [[u' r']|] eqn:E; [|discriminate].
    intros [= <- <-]. apply linkAt_len in E. exact E.
  - destruct (linkAt P (String c s)) as [[u' r']|] eqn:E.
    + intros [= <- <-]. apply linkAt_len in E. exact E.
    + intros H. apply IH in H. cbn [String.length]. lia.
Qed.

(** What the url of a link looks like. *)
Lemma linkAt_inv s u rest :
  linkAt P s = Some (u, rest) ->
  quoteFree u = true /\ isAffiliate P u = true /\
  exists h q1 q2,
    s = h +:+ String q1 (u +:+ String q2 rest) /\
    startsWithCI "href=" h = true /\ len h = 5%nat /\
    isQuote q1 = true /\ isQuote q2 = true.
Proof.
  unfold linkAt. destruct (startsWithCI "href=" s) eqn:Hh; [|discriminate].
  destruct s as [|c1 [|c2 [|c3 [|c4 [|c5 [|q1 s1]]]]]]; try discriminate.
  cbn [drop].
  destruct (isQuote q1) eqn:Hq1; [|discriminate]. cbn [andb].
  destruct (isAffiliate P (value s1)) eqn:Haff; [|discriminate].
  pose proof (afterValue_head s1) as Hq2.
  pose proof (value_afterValue s1) as Hs1.
  destruct (afterValue s1) as [|q2 r]; [discriminate|].
  intros [= <- <-].
  split; [apply value_quoteFree|]. split; [exact Haff|].
  exists (String c1 (String c2 (String c3 (String c4 (String c5 ""))))), q1, q2.
  rewrite Hs1. repeat split; auto.
Qed.

Lemma findLink_inv s u rest :
  findLink P s = Some (u, rest) ->
  quoteFree u = true /\ isAffiliate P u = true.
Proof.
  induction s as [|c s IH]; cbn [findLink].
  - destruct (linkAt P "") as [[u' r']|] eqn:E; [|discriminate].
    intros [= <- <-]. apply linkAt_inv in E as (? & ? & _). auto.
  - destruct (linkAt P (String c s)) as [[u' r']|] eqn:E; [|exact IH].
    intros [= <- <-]. apply linkAt_inv in E as (? & ? & _). auto.
Qed.

Hypothesis P_quoteFree : quoteFree P = true.

Local Abbreviation re := (template (lits P)).

Lemma execLoop_fuel fuel :
  forall fuel' s,
    (len s < fuel)%nat -> (len s < fuel')%nat ->
    execLoop fuel re s = execLoop fuel' re s.
Proof.
  induction fuel as [|fuel IH]; intros fuel' s Hf Hf'; [lia|].
  destruct fuel' as [|fuel']; [lia|].
  cbn [execLoop]. rewrite (exec_findLink P P_quoteFree).
  destruct (findLink P s) as [[u rest]|] eqn:E; [|reflexivity].
  apply findLink_len in E. f_equal. apply IH; lia.
Qed.

Lemma execLoop_S fuel s :
  execLoop (S fuel) re s =
  match exec re s with
  | None => []
  | Some (m1, rest) => m1 :: execLoop fuel re rest
  end.
Proof. reflexivity. Qed.

(** The extraction loop, unfolded along the links found. *)
Lemma execLoop_unfold s :
  execLoop (S (len s)) re s =
  match findLink P s with
  | None => []
  | Some (u, rest) => u :: execLoop (S (len rest)) re rest
  end.
Proof.
  rewrite (execLoop_S (len s)), (exec_findLink P P_quoteFree).
  destruct (findLink P s) as [[u rest]|] eqn:E; [|reflexivity].
  apply findLink_len in E. f_equal. apply execLoop_fuel; lia.
Qed.

Lemma execLoop_sound n :
  forall s, (len s <= n)%nat ->
    Forall (fun u => quoteFree u = true /\ isAffiliate P u = true)
           (execLoop (S (len s)) re s).
Proof.
  induction n as [|n IH]; intros s Hn; rewrite execLoop_unfold;
    destruct (findLink P s) as [[u rest]|] eqn:E;
    [|constructor| |constructor].
  - apply findLink_len in E. lia.
  - constructor.
    + apply findLink_inv in E. exact E.
    + apply IH. apply findLink_len in E. lia.
Qed.

End Pattern.

End Scan.

(* ------------------------------------------------------------------ *)
(** ** Pages of links *)
(* ------------------------------------------------------------------ *)

Module Pages.
Import Text TextFacts Regex RegexFacts RegexRefinement Scan.

Lemma quoteFree_app a b : quoteFree (a +:+ b) = quoteFree a && quoteFree b.
Proof.
  induction a as [|c a IH]; [reflexivity|].
  rewrite app_cons. cbn [quoteFree]. rewrite IH, andb_assoc. reflexivity.
Qed.

Lemma quoteFree_cons_quote q s : isQuote q = true -> quoteFree (String q s) = false.
Proof. intros H. cbn [quoteFree]. rewrite H. reflexivity. Qed.

Section Pattern.

Variable P : string.
Hypothesis P_quoteFree : quoteFree P = true.

Lemma linkAt_quoteFree s : quoteFree s = true -> linkAt P s = None.
Proof.
  intros Hs. destruct (linkAt P s) as [[u rest]|] eqn:E; [|reflexivity].
  apply linkAt_inv in E as (_ & _ & h & q1 & q2 & -> & _ & _ & Hq1 & _).
  rewrite quoteFree_app, (quoteFree_cons_quote _ _ Hq1), andb_false_r in Hs.
  discriminate.
Qed.

Lemma findLink_quoteFree s : quoteFree s = true -> findLink P s = None.
Proof.
  induction s as [|c s IH]; intros Hs; cbn [findLink];
    rewrite (linkAt_quoteFree _ Hs); [reflexivity|].
  apply IH. cbn [quoteFree] in Hs. apply andb_prop in Hs as [_ Hs]. exact Hs.
Qed.

(** No link starts inside a quote-free stretch that is not exactly the
    five characters in front of a quoted affiliate url. *)
Lemma linkAt_none_before_quote g q rest :
  quoteFree g = true -> isQuote q = true ->
  len g <> 5%nat \/ isAffiliate P (value rest) = false ->
  linkAt P (g +:+ String q rest) = None.
Proof.
  intros Hg Hq Hcase.
  destruct (linkAt P (g +:+ String q rest)) as [[u r]|] eqn:E; [|reflexivity].
  exfalso. unfold linkAt in E.
  destruct (startsWithCI "href=" (g +:+ String q rest)) eqn:Hh; [|discriminate].
  assert (Hnq : forall c, sameChar q c = true -> isQuote c = true)
    by (intros c; apply sameChar_quote_l, Hq).
  destruct g as [|c1 [|c2 [|c3 [|c4 [|c5 [|c6 g]]]]]];
    rewrite ?app_cons, ?app_nil_l in *; cbn [startsWithCI] in Hh;
    repeat (apply andb_prop in Hh as [? Hh]);
    try match goal with
        | H : sameChar q _ = true |- _ => apply Hnq in H; discriminate H
        end.
  - cbn [drop] in E. rewrite Hq in E. cbn [andb] in E.
    destruct Hcase as [Hlen|Haff]; [cbn [String.length] in Hlen; lia|].
    rewrite Haff in E. discriminate.
  - cbn [drop] in E.
    cbn [quoteFree] in Hg.
    repeat (apply andb_prop in Hg as [? Hg]).
    match goal with
    | H : negb (isQuote c6) = true |- _ => apply negb_true_iff in H; rewrite H in E
    end.
    discriminate.
Qed.

Lemma findLink_segment g q rest :
  quoteFree g = true -> isQuote q = true ->
  isAffiliate P (value rest) = false ->
  findLink P (g +:+ String q rest) = findLink P rest.
Proof.
  intros Hg Hq Haff. induction g as [|c g IH].
  - pose proof (linkAt_none_before_quote "" q rest eq_refl Hq
                  (or_intror Haff)) as H0.
    rewrite app_nil_l in *. cbn [findLink]. rewrite H0. reflexivity.
  - rewrite app_cons. cbn [findLink]. rewrite <- app_cons.
    rewrite (linkAt_none_before_quote _ q rest Hg Hq (or_intror Haff)).
    apply IH. cbn [quoteFree] in Hg. apply andb_prop in Hg as [_ Hg]. exact Hg.
Qed.

Lemma findLink_skip_prefix x g q rest :
  quoteFree x = true -> quoteFree g = true -> isQuote q = true ->
  (5 < len g)%nat ->
  findLink P (x +:+ g +:+ String q rest) = findLink P (g +:+ String q rest).
Proof.
  intros Hx Hg Hq Hlen. induction x as [|c x IH]; [reflexivity|].
  rewrite app_cons. cbn [findLink]. rewrite <- app_cons, <- app_assoc.
  rewrite linkAt_none_before_quote.
  - rewrite ?app_assoc. apply IH.
    cbn [quoteFree] in Hx. apply andb_prop in Hx as [_ Hx]. exact Hx.
  - rewrite quoteFree_app, Hx, Hg. reflexivity.
  - exact Hq.
  - left. rewrite len_app. cbn [String.length]. lia.
Qed.

Lemma findLink_nil : findLink P "" = None.
Proof. reflexivity. Qed.

(** Behind the closing quote of a link: nothing up to the next link. *)
Lemma findLink_label l more :
  quoteFree l = true ->
  findLink P (">" +:+ l +:+ "</a>" +:+ page more) = findLink P (page more).
Proof.
  intros Hl. destruct more as [|[u' l'] more].
  - cbn [page]. rewrite findLink_nil. apply findLink_quoteFree.
    rewrite !quoteFree_app, Hl. reflexivity.
  - cbn [page fst snd].
    replace (">" +:+ l +:+ "</a>" +:+ "<a href=" +:+ String dquote
               (u' +:+ String dquote (">" +:+ l' +:+ "</a>" +:+ page more)))
      with ((">" +:+ l +:+ "</a>") +:+ "<a href=" +:+ String dquote
               (u' +:+ String dquote (">" +:+ l' +:+ "</a>" +:+ page more)))
      by (rewrite !app_assoc; reflexivity).
    apply findLink_skip_prefix; try reflexivity.
    + rewrite !quoteFree_app, Hl. reflexivity.
    + cbn [String.length]. lia.
Qed.

Lemma linkAt_href u rest :
  quoteFree u = true ->
  linkAt P ("href=" +:+ String dquote (u +:+ String dquote rest)) =
  if isAffiliate P u then Some (u, rest) else None.
Proof.
  intros Hu. unfold linkAt.
  change (startsWithCI "href=" ("href=" +:+ String dquote (u +:+ String dquote rest)))
    with true.
  change (drop 5 ("href=" +:+ String dquote (u +:+ String dquote rest)))
    with (String dquote (u +:+ String dquote rest)).
  change (isQuote dquote) with true. cbn [andb].
  destruct (value_app u dquote rest Hu eq_refl) as [-> ->]. reflexivity.
Qed.

Lemma findLink_page u l more :
  quoteFree u = true -> quoteFree l = true ->
  findLink P (page ((u, l) :: more)) =
  if isAffiliate P u
  then Some (u, ">" +:+ l +:+ "</a>" +:+ page more)
  else findLink P (page more).
Proof.
  intros Hu Hl. cbn [page fst snd].
  set (R := ">" +:+ l +:+ "</a>" +:+ page more).
  change (findLink P ("<a href=" +:+ String dquote (u +:+ String dquote R)))
    with (match linkAt P ("href=" +:+ String dquote (u +:+ String dquote R)) with
          | Some r => Some r
          | None => findLink P ("ref=" +:+ String dquote (u +:+ String dquote R))
          end).
  rewrite (linkAt_href _ _ Hu).
  destruct (isAffiliate P u) eqn:Haff; [reflexivity|].
  assert (HR : isAffiliate P (value R) = false) by reflexivity.
  rewrite (findLink_segment "ref=" dquote _ eq_refl eq_refl).
  - rewrite (findLink_segment u dquote R Hu eq_refl HR).
    apply findLink_label, Hl.
  - destruct (value_app u dquote R Hu eq_refl) as [-> _]. exact Haff.
Qed.

(** The urls extracted from a page: its affiliate urls, in order, with
    their repetitions. *)
Lemma execLoop_page links :
  Forall wellFormed links ->
  execLoop (S (len (page links))) (template (lits P)) (page links) =
  filter (fun u => isAffiliate P u = true) (map fst links).
Proof.
  induction links as [|[u l] links IH]; intros Hwf; [reflexivity|].
  inversion Hwf as [|? ? [Hu Hl] Hwf']; subst. cbn [fst snd] in Hu, Hl.
  rewrite (execLoop_unfold P P_quoteFree), (findLink_page _ _ _ Hu Hl).
  cbn [map fst]. rewrite filter_cons.
  destruct (isAffiliate P u) eqn:Haff.
  - rewrite decide_True by reflexivity. f_equal.
    rewrite (execLoop_unfold P P_quoteFree), (findLink_label _ _ Hl).
    rewrite <- (execLoop_unfold P P_quoteFree). apply IH, Hwf'.
  - rewrite decide_False by discriminate.
    rewrite <- (execLoop_unfold P P_quoteFree). apply IH, Hwf'.
Qed.

End Pattern.

End Pages.

(* ------------------------------------------------------------------ *)
(** ** Claims about extraction and replacement *)
(* ------------------------------------------------------------------ *)

Section ExtractionClaims.
Import Text TextFacts Regex RegexFacts RegexRefinement Scan Pages.

Lemma extract_eq pattern P html :
  parsePattern pattern = Some (lits P) ->
  extractAffiliateLinks html pattern =
  Some (execLoop (S (len html)) (template (lits P)) html).
Proof. intros H. unfold extractAffiliateLinks. rewrite H. reflexivity. Qed.

Lemma linkAt_quoted P u q1 q2 rest :
  quoteFree u = true -> isQuote q1 = true -> isQuote q2 = true ->
  linkAt P ("href=" +:+ String q1 (u +:+ String q2 rest)) =
  if isAffiliate P u then Some (u, rest) else None.
Proof.
  intros Hu Hq1 Hq2. unfold linkAt.
  change (startsWithCI "href=" ("href=" +:+ String q1 (u +:+ String q2 rest)))
    with true.
  change (drop 5 ("href=" +:+ String q1 (u +:+ String q2 rest)))
    with (String q1 (u +:+ String q2 rest)).
  lazy beta iota. rewrite Hq1. cbn [andb].
  destruct (value_app u q2 rest Hu Hq2) as [-> ->]. reflexivity.
Qed.

(** C8 (as the code has it). For a pattern of literal characters without
    quotes, the extractor returns the links of the text from left to right,
    one per occurrence: the first link found, then the links of the text
    behind its closing quote.  A link is [href=], a quote, a url, a quote,
    compared without regard to case; its url reads [http://] or [https://]
    and then text that holds the pattern, and it contains neither quote
    character: it ends at the first quote of either kind, whichever quote
    opened the attribute.  A page of such links yields its affiliate urls
    in order with their repetitions, and an empty text yields nothing. *)
Theorem C8_extraction pattern P html :
  parsePattern pattern = Some (lits P) ->
  quoteFree P = true ->
  (exists urls,
     extractAffiliateLinks html pattern = Some urls /\
     Forall (fun u => quoteFree u = true /\ isAffiliate P u = true) urls) /\
  extractAffiliateLinks html pattern =
    match findLink P html with
    | None => Some []
    | Some (u, rest) => option_map (cons u) (extractAffiliateLinks rest pattern)
    end /\
  (forall u q1 q2 rest,
     quoteFree u = true -> isQuote q1 = true -> isQuote q2 = true ->
     linkAt P ("href=" +:+ String q1 (u +:+ String q2 rest)) =
     if isAffiliate P u then Some (u, rest) else None) /\
  (forall links,
     Forall wellFormed links ->
     extractAffiliateLinks (page links) pattern =
     Some (filter (fun u => isAffiliate P u = true) (map fst links))) /\
  extractAffiliateLinks "" pattern = Some [].
Proof.
  intros Hparse HP.
  split; [|split; [|split; [|split]]].
  - eexists. split; [apply (extract_eq _ _ _ Hparse)|].
    apply (execLoop_sound P HP (len html)). lia.
  - rewrite (extract_eq _ _ _ Hparse), (execLoop_unfold P HP).
    destruct (findLink P html) as [[u rest]|]; [|reflexivity].
    rewrite (extract_eq _ _ _ Hparse). reflexivity.
  - intros u q1 q2 rest. apply linkAt_quoted.
  - intros links Hwf. rewrite (extract_eq _ _ _ Hparse).
    f_equal. apply (execLoop_page P HP), Hwf.
  - rewrite (extract_eq _ _ _ Hparse). reflexivity.
Qed.

(** C10. The default fallback url matches the default affiliate pattern:
    it is an affiliate url for the extractor, which reads it back from any
    link that holds it.  A second run under the defaults therefore extracts
    the fallback url that the first run wrote. *)
Theorem C10_default_fallback_matches :
  parsePattern (affiliatePattern DEFAULTS) =
    Some (lits "nationalcouncilonstrength.sjv.io") /\
  test (lits "nationalcouncilonstrength.sjv.io") (fallbackUrl DEFAULTS) = true /\
  isAffiliate "nationalcouncilonstrength.sjv.io" (fallbackUrl DEFAULTS) = true /\
  (forall rest : string,
     exec (template (lits "nationalcouncilonstrength.sjv.io"))
          ("href=" +:+ String dquote (fallbackUrl DEFAULTS +:+ String dquote rest)) =
     Some (fallbackUrl DEFAULTS, rest)) /\
  (exists rep1 w1 rep2 w2,
     onPostBuild (net_always (Response 404 None)) ["index.html"] noInputs
                 certSite = Some (rep1, w1) /\
     map e_url (results rep1) = [certUrl] /\
     onPostBuild (net_always (Response 404 None)) ["index.html"] noInputs
                 w1 = Some (rep2, w2) /\
     map e_url (results rep2) = [fallbackUrl DEFAULTS]).
Proof.
  split; [reflexivity|]. split; [reflexivity|]. split; [reflexivity|].
  split.
  - intros rest.
    rewrite (exec_findLink "nationalcouncilonstrength.sjv.io" eq_refl).
    set (s := "href=" +:+ _).
    assert (H : linkAt "nationalcouncilonstrength.sjv.io" s =
                Some (fallbackUrl DEFAULTS, rest)).
    { unfold s. rewrite linkAt_quoted; reflexivity. }
    destruct s; cbn [findLink]; rewrite H; reflexivity.
  - eexists _, _, _, _.
    split; [vm_compute; reflexivity|]. split; [reflexivity|].
    split; [vm_compute; reflexivity|]. reflexivity.
Qed.

End ExtractionClaims.

Lemma C8_counterexample :
  extractAffiliateLinks
    ("<a href=" +:+ String Regex.dquote
       ("https://a.sjv.io/x'y" +:+ String Regex.dquote ">go</a>"))
    "sjv\.io" = Some ["https://a.sjv.io/x"] /\
  "https://a.sjv.io/x" <> "https://a.sjv.io/x'y".
Proof. split; [vm_compute; reflexivity | discriminate]. Qed.

Lemma C8_witness :
  extractAffiliateLinks
    (page [("https://a.sjv.io/1", "one"); ("http://other.example/", "two");
           ("HTTPS://A.SJV.IO/1", "three"); ("https://a.sjv.io/1", "four")])
    "sjv\.io" =
  Some ["https://a.sjv.io/1"; "HTTPS://A.SJV.IO/1"; "https://a.sjv.io/1"].
Proof.
  destruct (C8_extraction "sjv\.io" "sjv.io" "" eq_refl eq_refl)
    as (_ & _ & _ & Hpage & _).
  rewrite Hpage; [reflexivity|].
  repeat constructor.
Defined.

Section ReplacementClaims.
Import Text TextFacts QuotedText.

(** C4 (as the code has it). The repair of a broken url replaces, in every
    file of its list, the matches that a scan from left to right finds
    ([split] then [join]: plain text, no regular expression).  When the url
    and the fallback are free of quotes, the fallback is not empty and does
    not contain the url, and the url occurs in the file only as a complete
    quoted value, then after the repair the file does not contain the url
    and contains the fallback in at least as many positions as the url
    occupied. *)
Theorem C4_replacement (url fallback : string) (paths : list string) (w : world) :
  url <> "" -> quoteFree url = true ->
  fallback <> "" -> quoteFree fallback = true ->
  includes url fallback = false ->
  (forall file, file ∈ paths ->
     exists t, files w !! file = Some t /\ wholeValuesOnly url t = true) ->
  exists w',
    rewriteFiles url fallback paths w = Some (tt, w') /\
    forall file, file ∈ paths ->
      exists t t',
        files w !! file = Some t /\ files w' !! file = Some t' /\
        t' = join fallback (split url t) /\
        includes url t' = false /\
        (occurrences url t <= occurrences fallback t')%nat.
Proof.
  intros Hne Hq Hfne Hfq Hclean Hfiles.
  destruct url as [|c u]; [congruence|].
  destruct (rewriteFiles_stable (String c u) fallback paths w) as (w' & Hrun & Hw').
  { intros file Hin. destruct (Hfiles file Hin) as (t & Ht & Hwv).
    exists t. split; [exact Ht|].
    apply (replaceAll_idempotent c u Hq fallback Hfq Hfne Hclean), Hwv. }
  exists w'. split; [exact Hrun|].
  intros file Hin. destruct (Hfiles file Hin) as (t & Ht & Hwv).
  exists t, (replaceAll (String c u) fallback t).
  rewrite Hw', decide_True by exact Hin. rewrite Ht.
  destruct (replaceAll_wholeValues c u Hq fallback Hfq Hfne Hclean t Hwv)
    as (_ & Hgone & Hcount).
  repeat split; auto.
Qed.

End ReplacementClaims.

Lemma C4_witness :
  exists w',
    rewriteFiles trackUrl "https://fallback.example/" ["a.html"; "a.html"]
                 sampleSite = Some (tt, w') /\
    files w' !! "a.html" =
      Some (page [("https://fallback.example/", "one");
                  ("https://fallback.example/", "two")]).
Proof.
  destruct (C4_replacement trackUrl "https://fallback.example/"
              ["a.html"; "a.html"] sampleSite) as (w' & Hrun & Hfiles);
    try discriminate; try reflexivity.
  - intros file Hin.
    assert (file = "a.html") as ->.
    { apply elem_of_cons in Hin as [?|Hin]; [assumption|].
      apply elem_of_cons in Hin as [?|Hin]; [assumption | inversion Hin]. }
    eexists. split; reflexivity.
  - exists w'. split; [exact Hrun|].
    destruct (Hfiles "a.html" ltac:(left)) as (t & t' & Ht & Ht' & Heq & _).
    rewrite Ht', Heq. injection Ht as <-. reflexivity.
Defined.

(** The url is a prefix of the default fallback url: after the repair the
    file still contains it. *)
Lemma C4_counterexample :
  exists rep w' t',
    onPostBuild (net_always (Response 404 None)) ["index.html"] noInputs
                certSite = Some (rep, w') /\
    map (fun e => (e_url e, replaced e)) (results rep) = [(certUrl, true)] /\
    files w' !! "index.html" = Some t' /\
    Text.includes certUrl t' = true.
Proof.
  eexists _, _, _. split; [vm_compute; reflexivity|].
  split; [reflexivity|]. split; [reflexivity|]. vm_compute. reflexivity.
Qed.

(* ------------------------------------------------------------------ *)
(** ** The index of a site *)
(* ------------------------------------------------------------------ *)

Module IndexFacts.

Lemma indexOf_app occ1 occ2 ix :
  indexOf (occ1 ++ occ2) ix = indexOf occ2 (indexOf occ1 ix).
Proof. apply fold_left_app. Qed.

Lemma indexOf_file file urls ix :
  indexOf (map (fun u => (file, u)) urls) ix = fold_left (recordLink file) urls ix.
Proof.
  revert ix. induction urls as [|u urls IH]; intros ix; [reflexivity|].
  cbn [map]. unfold indexOf in *. cbn [fold_left fst snd]. apply IH.
Qed.

Lemma indexOf_cons o occ ix :
  indexOf (o :: occ) ix = indexOf occ (recordLink o.1 ix o.2).
Proof. reflexivity. Qed.

(** The unique urls are the urls that occur. *)
Lemma indexOf_allUrls occ :
  forall ix u,
    u ∈ allUrls (indexOf occ ix) <-> u ∈ allUrls ix \/ u ∈ map snd occ.
Proof.
  induction occ as [|[f v] occ IH]; intros ix u.
  - cbn. split; [auto | intros [H|H]; [exact H | inversion H]].
  - rewrite indexOf_cons, IH. cbn [map fst snd recordLink allUrls].
    destruct (decide (v ∈ allUrls ix)) as [Hin|Hout].
    + rewrite elem_of_cons. split; [tauto|].
      intros [H|[->|H]]; auto.
    + rewrite elem_of_app, !elem_of_cons, elem_of_nil. tauto.
Qed.

(** The files listed for a url: one entry per occurrence, in order. *)
Lemma indexOf_files occ :
  forall ix u,
    default [] (urlFileMap (indexOf occ ix) !! u) =
    default [] (urlFileMap ix !! u) ++
    map fst (filter (fun o => o.2 = u) occ).
Proof.
  induction occ as [|[f v] occ IH]; intros ix u.
  - cbn. rewrite app_nil_r. reflexivity.
  - rewrite indexOf_cons, IH. cbn [fst snd recordLink urlFileMap].
    rewrite filter_cons. cbn [snd].
    destruct (decide (v = u)) as [->|Hne].
    + rewrite lookup_insert_eq. cbn [default map fst].
      unfold id. rewrite <- app_assoc. reflexivity.
    + rewrite lookup_insert_ne by exact Hne. reflexivity.
Qed.

Lemma indexOf_listed occ :
  forall ix u,
    is_Some (urlFileMap ix !! u) \/ u ∈ map snd occ ->
    is_Some (urlFileMap (indexOf occ ix) !! u).
Proof.
  induction occ as [|[f v] occ IH]; intros ix u.
  - cbn. intros [H|H]; [exact H | inversion H].
  - rewrite indexOf_cons. intros H. apply IH.
    cbn [fst snd recordLink urlFileMap map] in *.
    destruct (decide (v = u)) as [->|Hne].
    + left. rewrite lookup_insert_eq. eauto.
    + rewrite lookup_insert_ne by exact Hne.
      destruct H as [H|H]; [auto|].
      apply elem_of_cons in H as [H|H]; [congruence | auto].
Qed.

(** A url enters [allUrls] once. *)
Lemma indexOf_NoDup occ :
  forall ix, NoDup (allUrls ix) -> NoDup (allUrls (indexOf occ ix)).
Proof.
  induction occ as [|[f v] occ IH]; intros ix Hnd; [exact Hnd|].
  rewrite indexOf_cons. apply IH. cbn [fst snd recordLink allUrls].
  destruct (decide (v ∈ allUrls ix)) as [Hin|Hout]; [exact Hnd|].
  apply NoDup_app. split; [exact Hnd|]. split.
  - intros x Hx Hx'. apply list_elem_of_singleton in Hx'. subst x. contradiction.
  - apply NoDup_singleton.
Qed.

(** From an empty index: the list of a unique url. *)
Lemma indexOf_lookup occ u :
  u ∈ allUrls (indexOf occ (Index ∅ [])) ->
  urlFileMap (indexOf occ (Index ∅ [])) !! u =
  Some (map fst (filter (fun o => o.2 = u) occ)).
Proof.
  intros Hu. apply indexOf_allUrls in Hu as [Hu|Hu]; [inversion Hu|].
  pose proof (indexOf_files occ (Index ∅ []) u) as Hf.
  destruct (indexOf_listed occ (Index ∅ []) u (or_intror Hu)) as [paths Hp].
  rewrite Hp in *. cbn [urlFileMap] in Hf.
  rewrite lookup_empty in Hf. simpl in Hf. congruence.
Qed.

End IndexFacts.

(* ------------------------------------------------------------------ *)
(** ** Patterns without regard to case, and a network without memory *)
(* ------------------------------------------------------------------ *)

Module SiteRun.
Import Text TextFacts Regex RegexFacts QuotedText Pages IndexFacts.

Lemma startsWithCI_app p s t :
  startsWithCI p s = true -> startsWithCI p (s +:+ t) = true.
Proof.
  revert s. induction p as [|a p IH]; intros s H; [reflexivity|].
  destruct s as [|b s]; [discriminate|].
  rewrite app_cons. cbn [startsWithCI] in *.
  apply andb_prop in H as [-> H]. apply IH, H.
Qed.

Lemma containsCI_app_r p s t :
  containsCI p s = true -> containsCI p (s +:+ t) = true.
Proof.
  induction s as [|b s IH]; cbn [containsCI]; intros H.
  - rewrite orb_false_r in H. rewrite app_nil_l.
    destruct p; [destruct t; reflexivity | discriminate].
  - rewrite app_cons. cbn [containsCI]. apply orb_prop in H as [H|H].
    + rewrite <- app_cons, (startsWithCI_app _ _ _ H). reflexivity.
    + rewrite (IH H), orb_true_r. reflexivity.
Qed.

Lemma containsCI_app_l p s t :
  containsCI p t = true -> containsCI p (s +:+ t) = true.
Proof.
  intros H. induction s as [|b s IH]; [exact H|].
  rewrite app_cons. cbn [containsCI]. rewrite IH, orb_true_r. reflexivity.
Qed.

Lemma containsCI_drop p n s :
  containsCI p (drop n s) = true -> containsCI p s = true.
Proof.
  revert s. induction n as [|n IH]; intros s H; [exact H|].
  destruct s as [|b s]; [exact H|].
  cbn [drop] in H. cbn [containsCI]. rewrite (IH _ H), orb_true_r. reflexivity.
Qed.

Lemma containsCI_dropS p s :
  containsCI p (dropS s) = true -> containsCI p s = true.
Proof.
  destruct s as [|b s]; [auto|]. cbn [dropS].
  destruct (sameChar b "s"); [|auto].
  intros H. cbn [containsCI]. rewrite H, orb_true_r. reflexivity.
Qed.

Lemma isAffiliate_contains P u : isAffiliate P u = true -> containsCI P u = true.
Proof.
  unfold isAffiliate. intros H. apply andb_prop in H as [_ H].
  apply (containsCI_drop P 4), containsCI_dropS, (containsCI_drop P 3), H.
Qed.

Lemma includes_containsCI P u s :
  includes u s = true -> containsCI P u = true -> containsCI P s = true.
Proof.
  intros H Hu. apply includes_spec in H as (a & b & ->).
  apply containsCI_app_l, containsCI_app_r, Hu.
Qed.

Lemma isAffiliate_head P u :
  isAffiliate P u = true -> exists c u', u = String c u' /\ sameChar c "h" = true.
Proof.
  unfold isAffiliate. intros H. apply andb_prop in H as [H _].
  apply andb_prop in H as [H _]. destruct u as [|c u']; [discriminate|].
  cbn [startsWithCI] in H. apply andb_prop in H as [H _]. eauto.
Qed.

Lemma test_containsCI P s : test (lits P) s = containsCI P s.
Proof.
  induction s as [|b s IH]; cbn [test containsCI].
  - replace (lits P) with (lits P ++ []) by apply List.app_nil_r.
    rewrite matchSeq_lits. destruct (startsWithCI P ""); reflexivity.
  - replace (lits P) with (lits P ++ []) at 1 by apply List.app_nil_r.
    rewrite matchSeq_lits. destruct (startsWithCI P (String b s)); [reflexivity|].
    exact IH.
Qed.

(** A url whose probes all give the same answer: the retry loop returns the
    outcome of that answer and touches no file. *)
Lemma checkUrlWithRetry_stateless refuse answer url t r w :
  refuse (protocolOf url) url t = false ->
  0 <= r ->
  exists w',
    checkUrlWithRetry (stateless refuse answer) url t r w =
      Some (Some (resolveWith (answer url)), w') /\
    files w' = files w /\ writes w' = writes w.
Proof.
  intros Hacc Hr.
  assert (Hrun : exists w',
            checkUrlWithRetry (stateless refuse answer) url t r w =
            Some (Some (resolveWith (answer url)), w')).
  { unfold checkUrlWithRetry.
    replace (Z.to_nat (r + 1)) with (S (Z.to_nat r)) by lia.
    destruct (ok (resolveWith (answer url))) eqn:Hok.
    - rewrite (retryLoop_first_ok (stateless refuse answer) url t r Hacc 0 _ 0%nat);
        [eexists; reflexivity | lia | lia | intros; lia | exact Hok].
    - rewrite (retryLoop_all_fail (stateless refuse answer) url t r Hacc _ 0%nat);
        [eexists; reflexivity | lia | intros; exact Hok]. }
  destruct Hrun as [w' Hrun]. exists w'. split; [exact Hrun|].
  unfold checkUrlWithRetry in Hrun. apply retryLoop_effects in Hrun. exact Hrun.
Qed.

End SiteRun.

(* ------------------------------------------------------------------ *)
(** ** The index and the files of a url *)
(* ------------------------------------------------------------------ *)

(** C1 (the code, in general and at the failing input). For every sequence
    of occurrences the unique urls hold each url that occurs once, so a url
    is probed once.  The list kept for a url, however, gets the file of every
    occurrence, in order, with no look at what it already holds: a file with
    two occurrences is listed twice.  On a page with two links to one url the
    url is probed once, the page is listed twice for it, it is reported as
    used on two pages, and it is rewritten twice when the url is broken. *)
Theorem C1_file_listed_per_occurrence :
  (forall (occ : list (string * string)) (U : string),
     NoDup (allUrls (indexOf occ (Index ∅ []))) /\
     (U ∈ allUrls (indexOf occ (Index ∅ [])) <-> U ∈ map snd occ) /\
     default [] (urlFileMap (indexOf occ (Index ∅ [])) !! U) =
       map fst (filter (fun o => o.2 = U) occ)) /\
  (exists ix,
     scanFiles "aff\.example" ["a.html"] (Index ∅ []) sampleSite =
       Some (ix, sampleSite) /\
     allUrls ix = [trackUrl] /\
     urlFileMap ix !! trackUrl = Some ["a.html"; "a.html"]) /\
  (exists rep w',
     onPostBuild (net_always (Response 200 None)) ["a.html"] sampleInputs
                 sampleSite = Some (rep, w') /\
     map (fun e => (e_url e, filesUsing e)) (results rep) = [(trackUrl, 2%nat)] /\
     log w' = [EvRequest Https trackUrl 10000]) /\
  (exists rep w',
     onPostBuild (net_always (Response 500 None)) ["a.html"] sampleInputs
                 sampleSite = Some (rep, w') /\
     map (fun e => (e_url e, filesUsing e)) (results rep) = [(trackUrl, 2%nat)] /\
     map (fun e => match e with EvWrite f _ => f | _ => "" end)
         (filter (fun e => isWrite e = true) (log w')) = ["a.html"; "a.html"]).
Proof.
  split; [|split; [|split]].
  - intros occ U. split; [|split].
    + apply IndexFacts.indexOf_NoDup. constructor.
    + rewrite IndexFacts.indexOf_allUrls. cbn [allUrls].
      split; [intros [H|H]; [inversion H | exact H] | auto].
    + rewrite IndexFacts.indexOf_files. cbn [urlFileMap].
      rewrite lookup_empty. reflexivity.
  - eexists. split; [vm_compute; reflexivity|]. split; reflexivity.
  - eexists _, _. split; [vm_compute; reflexivity|]. split; reflexivity.
  - eexists _, _. split; [vm_compute; reflexivity|]. split; reflexivity.
Qed.

(* ================================================================== *)
(** * Further properties of the code *)
(* ================================================================== *)

(* ------------------------------------------------------------------ *)
(** ** The checker on any network *)
(* ------------------------------------------------------------------ *)

Module CheckerMore.

Lemma redirect_in_range code :
  isRedirectCode code = true -> (200 <=? code) && (code <? 400) = true.
Proof.
  unfold isRedirectCode, redirectCodes. cbn [existsb]. intros H.
  repeat (apply orb_prop in H as [H|H]);
    try discriminate; apply Z.eqb_eq in H; subst; reflexivity.
Qed.

Lemma waited_app a b : waited (a ++ b) = waited a + waited b.
Proof.
  induction a as [|e a IH]; [reflexivity|].
  destruct e; cbn [app waited]; rewrite IH; lia.
Qed.

Lemma written_app a b : written (a ++ b) = written a ++ written b.
Proof.
  induction a as [|e a IH]; [reflexivity|].
  destruct e; cbn [app written]; rewrite IH; reflexivity.
Qed.

(** Among the first [m + 1] attempts either all fail or there is a first one
    that succeeds. *)
Lemma first_ok_or_all_fail (f : nat -> bool) m :
  (forall j, (j <= m)%nat -> f j = false) \/
  (exists d, (d <= m)%nat /\ f d = true /\ forall j, (j < d)%nat -> f j = false).
Proof.
  induction m as [|m IH].
  - destruct (f 0%nat) eqn:E.
    + right. exists 0%nat. repeat split; [lia | exact E | intros; lia].
    + left. intros j Hj. replace j with 0%nat by lia. exact E.
  - destruct IH as [Hall|(d & Hd & Hok & Hbefore)].
    + destruct (f (S m)) eqn:E.
      * right. exists (S m). repeat split; [lia | exact E |].
        intros j Hj. apply Hall. lia.
      * left. intros j Hj. destruct (decide (j = S m)) as [->|]; [exact E|].
        apply Hall. lia.
    + right. exists d. repeat split; [lia | exact Hok | exact Hbefore].
Qed.

Section AnyNetwork.

Variable net : network.
Variables (url : string) (timeoutMs retries : Z).

Lemma waited_requestTrace n : waited (requestTrace net url timeoutMs n) = 0.
Proof. unfold requestTrace. destruct (net n url); reflexivity. Qed.

Lemma written_requestTrace n : written (requestTrace net url timeoutMs n) = [].
Proof. unfold requestTrace. destruct (net n url); reflexivity. Qed.

(** The failing attempts that are followed by another attempt wait 1000,
    2000, ... ms. *)
Lemma waited_failedAttempts n0 d :
  Z.of_nat d <= retries ->
  waited (flat_map (fun j => failedAttempt net url timeoutMs retries (n0 + j) j)
                   (seq 0 d)) =
  500 * Z.of_nat d * (Z.of_nat d + 1).
Proof.
  induction d as [|d IH]; intros Hd; [reflexivity|].
  rewrite seq_S, flat_map_app, waited_app, IH by lia.
  cbn [flat_map Nat.add]. rewrite List.app_nil_r. unfold failedAttempt.
  rewrite waited_app, waited_requestTrace.
  replace (Z.of_nat d <? retries) with true by (symmetry; apply Z.ltb_lt; lia).
  cbn [waited]. lia.
Qed.

Lemma written_failedAttempts n0 (l : list nat) :
  written (flat_map (fun j => failedAttempt net url timeoutMs retries (n0 + j) j) l)
  = [].
Proof.
  induction l as [|i l IH]; [reflexivity|].
  cbn [flat_map]. unfold failedAttempt at 1.
  rewrite !written_app, written_requestTrace, IH.
  destruct (Z.of_nat i <? retries); reflexivity.
Qed.

(** A request the module refuses: the first attempt throws. *)
Lemma checkUrlWithRetry_refused w :
  refuses net (protocolOf url) url timeoutMs = true ->
  0 <= retries ->
  checkUrlWithRetry net url timeoutMs retries w = None.
Proof.
  intros Href Hret. unfold checkUrlWithRetry.
  replace (Z.to_nat (retries + 1)) with (S (Z.to_nat retries)) by lia.
  cbn [retryLoop].
  replace (0 <=? retries) with true by (symmetry; apply Z.leb_le; lia).
  unfold bind. rewrite (checkUrl_refused net url timeoutMs w Href). reflexivity.
Qed.

(** The module accepts the request. *)
Hypothesis accepted : refuses net (protocolOf url) url timeoutMs = false.

(** The retry loop on any network: it stops at the first attempt that
    succeeds, or after [retries + 1] failing attempts. *)
Lemma checkUrlWithRetry_any w :
  0 <= retries ->
  exists d tr,
    (d <= Z.to_nat retries)%nat /\
    checkUrlWithRetry net url timeoutMs retries w =
      Some (Some (resolveWith (net (requests w + d)%nat url)),
            World (files w) (requests w + S d) (log w ++ tr)) /\
    (forall j, (j < d)%nat ->
               ok (resolveWith (net (requests w + j)%nat url)) = false) /\
    (ok (resolveWith (net (requests w + d)%nat url)) = false ->
     d = Z.to_nat retries) /\
    waited tr = 500 * Z.of_nat d * (Z.of_nat d + 1) /\
    written tr = [] /\
    length (filter (fun e => isRequest e = true) tr) = S d.
Proof.
  intros Hret. unfold checkUrlWithRetry.
  replace (Z.to_nat (retries + 1)) with (S (Z.to_nat retries)) by lia.
  destruct (first_ok_or_all_fail
              (fun j => ok (resolveWith (net (requests w + j)%nat url)))
              (Z.to_nat retries)) as [Hall|(d & Hd & Hok & Hbefore)].
  - exists (Z.to_nat retries). eexists. split; [lia|]. split.
    + rewrite (retryLoop_all_fail net url timeoutMs retries accepted _ 0%nat);
        [|lia|intros j Hj; apply Hall; lia].
      rewrite seq_S, flat_map_app. reflexivity.
    + split; [intros j Hj; apply Hall; lia|]. split; [reflexivity|].
      cbn [flat_map Nat.add]. rewrite List.app_nil_r.
      rewrite waited_app, written_app, filter_app, length_app.
      rewrite (waited_failedAttempts (requests w)) by lia.
      rewrite written_failedAttempts.
      pose proof (requests_of_failedAttempts net url timeoutMs retries
                    (seq 0 (Z.to_nat retries)) (requests w) 0%nat) as Hreq.
      cbn [Nat.add] in Hreq. rewrite Hreq, length_seq.
      unfold failedAttempt.
      replace (Z.of_nat (Z.to_nat retries) <? retries) with false
        by (symmetry; apply Z.ltb_ge; lia).
      rewrite List.app_nil_r, waited_requestTrace, written_requestTrace,
        requests_of_requestTrace.
      repeat split; cbn [length]; lia.
  - exists d. eexists. split; [exact Hd|]. split.
    + rewrite (retryLoop_first_ok net url timeoutMs retries accepted d _ 0%nat);
        [reflexivity | lia | lia | exact Hbefore | exact Hok].
    + split; [exact Hbefore|]. split; [congruence|].
      cbn [Nat.add].
      rewrite waited_app, written_app, filter_app, length_app.
      rewrite (waited_failedAttempts (requests w)) by lia.
      rewrite written_failedAttempts.
      pose proof (requests_of_failedAttempts net url timeoutMs retries
                    (seq 0 d) (requests w) 0%nat) as Hreq.
      cbn [Nat.add] in Hreq. rewrite Hreq, length_seq.
      rewrite waited_requestTrace, written_requestTrace, requests_of_requestTrace.
      repeat split; cbn [length]; lia.
Qed.

End AnyNetwork.

End CheckerMore.

(** C7 (the code, in general and at the failing input).  A probe throws
    exactly when the module chosen for the url refuses the request: the
    executor of the promise calls [request] outside any handler, so the
    promise is rejected, and for [retries >= 0] the retry loop throws with
    it.  When the module accepts the request every failure is returned as
    data: the error event gives [ok = false], status 0 and the error's
    message; the timeout event destroys the request and gives [ok = false],
    status 0 and the message [timeout]; the retry loop returns the outcome
    of its last request.  The failing input is a url the plugin's own
    extractor returns: the extractor reads the scheme without regard to
    case, the checker chooses the [http] module unless the url begins with
    lower-case [https], and Node's [http] module refuses a url whose scheme
    is [HTTPS]; the probe, the retry loop and the run throw, and no request
    is sent. *)
Theorem C7_checker_throws_when_request_refused :
  (forall (net : network) url timeoutMs w,
     checkUrl net url timeoutMs w = None <->
     refuses net (protocolOf url) url timeoutMs = true) /\
  (forall (net : network) url timeoutMs retries w,
     refuses net (protocolOf url) url timeoutMs = true -> 0 <= retries ->
     checkUrlWithRetry net url timeoutMs retries w = None) /\
  (forall (net : network) url timeoutMs w,
     refuses net (protocolOf url) url timeoutMs = false ->
     (forall message,
        net (requests w) url = ErrorEvent message ->
        checkUrl net url timeoutMs w =
        Some (Outcome 0 None false (Some message),
              World (files w) (S (requests w))
                    (log w ++ [EvRequest (protocolOf url) url timeoutMs]))) /\
     (net (requests w) url = TimeoutEvent ->
      checkUrl net url timeoutMs w =
      Some (Outcome 0 None false (Some "timeout"),
            World (files w) (S (requests w))
                  (log w ++ [EvRequest (protocolOf url) url timeoutMs;
                             EvDestroy url]))) /\
     (forall retries,
        0 <= retries ->
        exists (d : nat) (w' : world),
          (d <= Z.to_nat retries)%nat /\
          checkUrlWithRetry net url timeoutMs retries w =
            Some (Some (resolveWith (net (requests w + d)%nat url)), w') /\
          files w' = files w)) /\
  (extractAffiliateLinks (page [(upperUrl, "one")]) "aff\.example" =
     Some [upperUrl] /\
   protocolOf upperUrl = Http /\
   wrongScheme Http upperUrl 10000 = true /\
   wrongScheme Https upperUrl 10000 = false /\
   checkUrl (net_always (Response 200 None)) upperUrl 10000 emptyWorld = None /\
   checkUrlWithRetry (net_always (Response 200 None)) upperUrl 10000 2
                     emptyWorld = None /\
   onPostBuild (net_always (Response 200 None)) ["a.html"] sampleInputs
               upperSite = None).
Proof.
  split; [|split; [|split]].
  - intros net url timeoutMs w. split.
    + intros H. destruct (refuses net (protocolOf url) url timeoutMs) eqn:E;
        [reflexivity|].
      rewrite (checkUrl_eq net url timeoutMs E) in H. discriminate H.
    + apply checkUrl_refused.
  - intros net url timeoutMs retries w Href Hret.
    apply CheckerMore.checkUrlWithRetry_refused; assumption.
  - intros net url timeoutMs w Hacc. split; [|split].
    + intros message Hev. rewrite (checkUrl_eq net url timeoutMs Hacc).
      unfold requestTrace. rewrite Hev. reflexivity.
    + intros Hev. rewrite (checkUrl_eq net url timeoutMs Hacc).
      unfold requestTrace. rewrite Hev. reflexivity.
    + intros retries Hret.
      destruct (CheckerMore.checkUrlWithRetry_any net url timeoutMs retries
                  Hacc w Hret) as (d & tr & Hd & Hrun & _).
      exists d. eexists. split; [exact Hd|]. split; [exact Hrun | reflexivity].
  - repeat split; vm_compute; reflexivity.
Qed.

(** X1. For a response the verdict depends on the status code alone: [ok]
    holds exactly when the code is in [200, 400), with or without a location
    header.  The header only decides whether a redirect target is recorded:
    it is for the codes 301, 302, 303, 307, 308 with a non-empty location.
    The status is the code and no error text is set. *)
Theorem X1_response_outcome (code : Z) (location : option string) :
  ok (resolveWith (Response code location)) = (200 <=? code) && (code <? 400) /\
  status (resolveWith (Response code location)) = code /\
  error (resolveWith (Response code location)) = None /\
  redirectTo (resolveWith (Response code location)) =
    (if isRedirectCode code && truthy location then location else None).
Proof.
  unfold resolveWith.
  destruct (isRedirectCode code) eqn:Hc; cbn [andb].
  - destruct (truthy location); cbn [ok status error redirectTo];
      rewrite (CheckerMore.redirect_in_range _ Hc); auto.
  - cbn [ok status error redirectTo]. auto.
Qed.

(** X2. For [retries >= 0] the retry loop throws when the module refuses
    the request, at the first attempt.  When the module accepts it, the loop
    returns, on any network, the outcome of the last request it sent.  It
    sends [d + 1] requests with [d <= retries]: the first [d] fail, and the
    outcome returned is not ok only when [d = retries].  Between the
    requests it waits [500 * d * (d + 1)] ms in all, and it writes no
    file. *)
Theorem X2_retry_on_any_network
        (net : network) (url : string)
        (timeoutMs retries : Z) (w : world) :
  0 <= retries ->
  (refuses net (protocolOf url) url timeoutMs = true ->
   checkUrlWithRetry net url timeoutMs retries w = None) /\
  (refuses net (protocolOf url) url timeoutMs = false ->
   exists (d : nat) (w' : world),
     (d <= Z.to_nat retries)%nat /\
     checkUrlWithRetry net url timeoutMs retries w =
       Some (Some (resolveWith (net (requests w + d)%nat url)), w') /\
     requests w' = (requests w + S d)%nat /\
     files w' = files w /\
     (forall j, (j < d)%nat ->
                ok (resolveWith (net (requests w + j)%nat url)) = false) /\
     (ok (resolveWith (net (requests w + d)%nat url)) = false ->
      d = Z.to_nat retries) /\
     waited (log w') = waited (log w) + 500 * Z.of_nat d * (Z.of_nat d + 1) /\
     written (log w') = written (log w)).
Proof.
  intros Hret. split.
  - intros Href. apply CheckerMore.checkUrlWithRetry_refused; assumption.
  - intros Hacc.
    destruct (CheckerMore.checkUrlWithRetry_any net url timeoutMs retries Hacc
                w Hret)
      as (d & tr & Hd & Hrun & Hbefore & Hlast & Hwait & Hwr & _).
    exists d. eexists. split; [exact Hd|]. split; [exact Hrun|].
    cbn [requests files log].
    rewrite CheckerMore.waited_app, CheckerMore.written_app, Hwait, Hwr,
      List.app_nil_r.
    repeat split; auto.
Qed.

(** A network on which the first two requests time out and the third is
    answered. *)
Lemma X2_witness :
  (exists w',
     checkUrlWithRetry
       (Network wrongScheme
          (fun n _ => if (n <? 2)%nat then TimeoutEvent else Response 204 None))
       "https://a.example/x" 10000 2 emptyWorld =
     Some (Some (Outcome 204 None true None), w') /\
     requests w' = 3%nat /\ waited (log w') = 3000) /\
  checkUrlWithRetry (net_always (Response 204 None)) "HTTPS://a.example/x"
                    10000 2 emptyWorld = None.
Proof.
  split;
    [|apply (X2_retry_on_any_network (net_always (Response 204 None))
               "HTTPS://a.example/x" 10000 2 emptyWorld);
      [lia | reflexivity]].
  destruct (X2_retry_on_any_network
              (Network wrongScheme
                 (fun n _ => if (n <? 2)%nat then TimeoutEvent
                             else Response 204 None))
              "https://a.example/x" 10000 2 emptyWorld ltac:(lia)) as [_ Hacc].
  destruct (Hacc eq_refl)
    as (d & w' & Hd & Hrun & Hreq & _ & Hbefore & Hlast & Hwait & _).
  assert (d = 2%nat) as ->.
  { destruct d as [|[|[|d]]]; [| |reflexivity|cbn in Hd; lia].
    - specialize (Hlast eq_refl). discriminate Hlast.
    - specialize (Hlast eq_refl). discriminate Hlast. }
  exists w'. split; [exact Hrun|]. split; [exact Hreq | exact Hwait].
Defined.

(** X3. With a negative [retries] the loop sends no request and returns
    [undefined]; the run then throws as soon as the scan has found a url,
    because it reads a property of that result. *)
Theorem X3_negative_retries
        (net : network) (htmlFiles : list string)
        (i : inputs) (w : world) (ix : index) (w0 : world) :
  retries (mergeConfig DEFAULTS i) < 0 ->
  scanFiles (affiliatePattern (mergeConfig DEFAULTS i)) htmlFiles
            (Index ∅ []) w = Some (ix, w0) ->
  allUrls ix <> [] ->
  (forall url,
     checkUrlWithRetry net url (timeoutMs (mergeConfig DEFAULTS i))
                       (retries (mergeConfig DEFAULTS i)) w = Some (None, w)) /\
  onPostBuild net htmlFiles i w = None.
Proof.
  intros Hneg Hscan Hurls.
  assert (Hloop : forall url w1,
            checkUrlWithRetry net url (timeoutMs (mergeConfig DEFAULTS i))
                              (retries (mergeConfig DEFAULTS i)) w1 =
            Some (None, w1)).
  { intros url w1. unfold checkUrlWithRetry.
    replace (Z.to_nat (retries (mergeConfig DEFAULTS i) + 1)) with 0%nat by lia.
    reflexivity. }
  split; [intros url; apply Hloop|].
  unfold onPostBuild.
  destruct (Regex.parsePattern _); [|reflexivity].
  unfold bind at 1. rewrite Hscan.
  destruct (allUrls ix) as [|url more]; [congruence|].
  unfold bind. cbn [checkAll]. unfold bind, checkOne, bind.
  rewrite Hloop. destruct (urlFileMap ix !! url); reflexivity.
Qed.

Lemma X3_witness :
  onPostBuild (net_always (Response 200 None)) ["a.html"]
              (Inputs (Some "aff\.example") None None None (Some (-1)) None None)
              sampleSite = None.
Proof.
  eapply (X3_negative_retries (net_always (Response 200 None)) ["a.html"]
            (Inputs (Some "aff\.example") None None None (Some (-1)) None None)
            sampleSite).
  - reflexivity.
  - vm_compute. reflexivity.
  - discriminate.
Defined.

(* ------------------------------------------------------------------ *)
(** ** Splitting, joining, replacing *)
(* ------------------------------------------------------------------ *)

Module TextMore.
Import Text TextFacts.

Lemma startsWith_app_mono p x y :
  startsWith p x = true -> startsWith p (x +:+ y) = true.
Proof.
  intros H. apply startsWith_spec in H as [t ->].
  rewrite app_assoc. apply startsWith_app.
Qed.

Lemma cut_spec c0 sep s :
  forall a b,
    cut (String c0 sep) s = Some (a, b) ->
    s = a +:+ String c0 sep +:+ b /\ includes (String c0 sep) a = false.
Proof.
  induction s as [|c s IH]; intros a b; cbn [cut].
  - cbn [startsWith]. discriminate.
  - destruct (startsWith (String c0 sep) (String c s)) eqn:E.
    + intros [= <- <-]. apply startsWith_spec in E as [t Ht].
      rewrite app_cons in Ht. injection Ht as -> ->.
      cbn [String.length drop]. rewrite drop_app. split; reflexivity.
    + destruct (cut (String c0 sep) s) as [[a' b']|]; [|discriminate].
      intros [= <- <-]. destruct (IH _ _ eq_refl) as [Hs Ha].
      split; [rewrite app_cons, <- Hs; reflexivity|].
      cbn [includes]. rewrite Ha.
      destruct (startsWith (String c0 sep) (String c a')) eqn:E'; [|reflexivity].
      rewrite Hs, <- app_cons, (startsWith_app_mono _ _ _ E') in E. discriminate.
Qed.

Lemma cut_none sep s : cut sep s = None <-> includes sep s = false.
Proof.
  induction s as [|c s IH]; cbn [cut includes].
  - destruct (startsWith sep ""); split; congruence.
  - destruct (startsWith sep (String c s)); [split; congruence|].
    rewrite <- IH. destruct (cut sep s) as [[a b]|]; split; congruence.
Qed.

Lemma join_chars s : join "" (chars s) = s.
Proof.
  induction s as [|c s IH]; [reflexivity|].
  cbn [chars]. destruct s as [|d s]; [reflexivity|].
  cbn [chars] in *. unfold join in *. cbn [String.concat] in *.
  cbn [chars]. rewrite IH. reflexivity.
Qed.

(** Induction along the matches of a non-empty separator. *)
Lemma cut_induction (c : ascii) (sep : string) (Q : string -> Prop) :
  (forall s, cut (String c sep) s = None -> Q s) ->
  (forall s a b, cut (String c sep) s = Some (a, b) -> Q b -> Q s) ->
  forall s, Q s.
Proof.
  intros Hnone Hsome s.
  assert (G : forall n s, (len s <= n)%nat -> Q s); [|apply (G (len s)); lia].
  clear s. induction n as [|n IH]; intros s Hn;
    destruct (cut (String c sep) s) as [[a b]|] eqn:E; auto.
  - apply cut_len in E. cbn [String.length] in E. lia.
  - apply (Hsome _ _ _ E), IH. apply cut_len in E. cbn [String.length] in E. lia.
Qed.

Lemma join_split_nonempty c sep s :
  join (String c sep) (split (String c sep) s) = s.
Proof.
  induction s as [s E|s a b E IH] using (cut_induction c sep);
    rewrite split_unfold, E; [reflexivity|].
  rewrite join_cons.
  - rewrite IH. destruct (cut_spec _ _ _ _ _ E) as [Hs _].
    symmetry. exact Hs.
  - intros H. apply split_nonempty in H as [? _]. discriminate.
Qed.

Lemma split_pieces c sep s :
  Forall (fun p => includes (String c sep) p = false) (split (String c sep) s).
Proof.
  induction s as [s E|s a b E IH] using (cut_induction c sep);
    rewrite split_unfold, E.
  - constructor; [apply cut_none, E | constructor].
  - constructor; [|exact IH].
    destruct (cut_spec _ _ _ _ _ E) as [_ Ha]. exact Ha.
Qed.

(** The length of the replaced text, match by match. *)
Lemma len_replaceAll c u fb s :
  (len (replaceAll (String c u) fb s) +
   (length (split (String c u) s) - 1) * len (String c u) =
   len s + (length (split (String c u) s) - 1) * len fb)%nat.
Proof.
  induction s as [s E|s a b E IH] using (cut_induction c u);
    rewrite replaceAll_unfold, split_unfold, E.
  - cbn [length]. lia.
  - destruct (cut_spec _ _ _ _ _ E) as [Hs _].
    assert (Hlen : (1 <= length (split (String c u) b))%nat).
    { destruct (split (String c u) b) eqn:Eb; [|cbn [length]; lia].
      apply split_nonempty in Eb as [? _]. discriminate. }
    apply (f_equal len) in Hs. rewrite !len_app in Hs.
    rewrite !len_app. cbn [length].
    replace (S (length (split (String c u) b)) - 1)%nat
      with (S (length (split (String c u) b) - 1)) by lia.
    nia.
Qed.

End TextMore.

Section TextExtras.
Import Text TextFacts TextMore.

Lemma app_inv_head a x y : a +:+ x = a +:+ y -> x = y.
Proof.
  induction a as [|c a IH]; [auto|]. rewrite !app_cons. intros [= H]. auto.
Qed.

Lemma app_inv_len a a' x y :
  len a = len a' -> a +:+ x = a' +:+ y -> a = a'.
Proof.
  revert a'. induction a as [|c a IH]; intros [|c' a'] Hl; try discriminate.
  - reflexivity.
  - rewrite !app_cons. intros [= -> H]. f_equal. apply IH; [|exact H].
    cbn [String.length] in Hl. lia.
Qed.

(** X4. Splitting a text at a separator and joining the pieces with the same
    separator gives the text back, for every separator, the empty one
    included.  So replacing a url by itself leaves a text as it is. *)
Theorem X4_split_join_round_trip (sep s : string) :
  join sep (split sep s) = s /\ replaceAll sep sep s = s.
Proof.
  assert (H : join sep (split sep s) = s).
  { destruct sep as [|c sep]; [apply join_chars | apply join_split_nonempty]. }
  split; [exact H | exact H].
Qed.

(** X5. For a separator that is not empty, [split] returns at least one
    piece, no piece contains the separator, and the text is returned as the
    only piece exactly when it does not contain the separator. *)
Theorem X5_split_pieces (sep s : string) :
  sep <> "" ->
  split sep s <> [] /\
  Forall (fun p => includes sep p = false) (split sep s) /\
  (split sep s = [s] <-> includes sep s = false).
Proof.
  intros Hne. destruct sep as [|c sep]; [congruence|].
  split; [|split].
  - intros H. apply split_nonempty in H as [? _]. discriminate.
  - apply split_pieces.
  - rewrite split_unfold. destruct (cut (String c sep) s) as [[a b]|] eqn:E.
    + split.
      * intros [= Ha Hb]. change (split (String c sep) b = []) in Hb.
        apply split_nonempty in Hb as [? _]. discriminate.
      * intros H. apply cut_none in H. congruence.
    + split; [intros _; apply cut_none, E | reflexivity].
Qed.

Lemma X5_witness :
  split "ab" "xxabyyabab" = ["xx"; "yy"; ""; ""] /\
  Forall (fun p => includes "ab" p = false) (split "ab" "xxabyyabab").
Proof.
  split; [reflexivity|].
  apply (X5_split_pieces "ab" "xxabyyabab"). discriminate.
Defined.

(** X6. Replacing a non-empty url by a different fallback changes a text
    exactly when the text contains the url.  With [k] matches replaced, the
    length of the text grows by [k] times the length of the fallback and
    shrinks by [k] times the length of the url. *)
Theorem X6_replace_changes_iff_present (url fallback s : string) :
  url <> "" -> fallback <> url ->
  (replaceAll url fallback s = s <-> includes url s = false) /\
  (len (replaceAll url fallback s) + (length (split url s) - 1) * len url =
   len s + (length (split url s) - 1) * len fallback)%nat.
Proof.
  intros Hne Hdiff. destruct url as [|c u]; [congruence|].
  split; [|apply len_replaceAll].
  split; [|apply replaceAll_absent].
  intros Heq. destruct (includes (String c u) s) eqn:Hin; [|reflexivity].
  exfalso. rewrite replaceAll_unfold in Heq.
  destruct (cut (String c u) s) as [[a b]|] eqn:E.
  - destruct (cut_spec _ _ _ _ _ E) as [Hs _].
    rewrite Hs in Heq. apply app_inv_head in Heq.
    pose proof (len_replaceAll c u fallback b) as Hlen.
    pose proof (f_equal len Heq) as Hl. rewrite !len_app in Hl.
    apply Hdiff. apply (app_inv_len _ _ _ _) in Heq; [exact Heq|].
    set (k := (length (split (String c u) b) - 1)%nat) in *.
    nia.
  - apply cut_none in E. congruence.
Qed.

Lemma X6_witness :
  replaceAll "ab" "Q" "xxabyyabab" = "xxQyyQQ" /\
  (replaceAll "ab" "Q" "xxabyyabab" = "xxabyyabab" <->
   includes "ab" "xxabyyabab" = false).
Proof.
  split; [reflexivity|].
  apply (X6_replace_changes_iff_present "ab" "Q" "xxabyyabab"); discriminate.
Defined.

End TextExtras.

Module ExtractionMore.
Import Text TextFacts Regex Scan Pages.

Lemma quoteCount_app a b : quoteCount (a +:+ b) = (quoteCount a + quoteCount b)%nat.
Proof.
  induction a as [|c a IH]; [reflexivity|].
  rewrite app_cons. cbn [quoteCount]. rewrite IH. lia.
Qed.

Lemma includes_intro u a b : includes u (a +:+ u +:+ b) = true.
Proof. apply includes_spec. exists a, b. reflexivity. Qed.

Lemma includes_behind u a s : includes u s = true -> includes u (a +:+ s) = true.
Proof.
  intros H. apply includes_spec in H as (x & y & ->).
  apply includes_spec. exists (a +:+ x), y. rewrite !app_assoc. reflexivity.
Qed.

Section Pattern.

Variable P : string.

(** Where the first link sits: the text in front of it, [href=], the quote,
    the url, the closing quote, and the text the search goes on in. *)
Lemma findLink_decomp s u rest :
  findLink P s = Some (u, rest) ->
  exists pre h q1 q2,
    s = pre +:+ h +:+ String q1 (u +:+ String q2 rest) /\
    len h = 5%nat /\ startsWithCI "href=" h = true /\
    isQuote q1 = true /\ isQuote q2 = true.
Proof.
  induction s as [|c s IH]; cbn [findLink].
  - destruct (linkAt P "") as [[u0 r0]|] eqn:E; [|discriminate].
    intros [= -> ->].
    apply linkAt_inv in E as (_ & _ & h & q1 & q2 & Hs & Hh & Hl & Hq1 & Hq2).
    exists "", h, q1, q2. rewrite app_nil_l. auto.
  - destruct (linkAt P (String c s)) as [[u0 r0]|] eqn:E.
    + intros [= -> ->].
      apply linkAt_inv in E as (_ & _ & h & q1 & q2 & Hs & Hh & Hl & Hq1 & Hq2).
      exists "", h, q1, q2. rewrite app_nil_l. auto.
    + intros H. apply IH in H as (pre & h & q1 & q2 & -> & Hl & Hh & Hq1 & Hq2).
      exists (String c pre), h, q1, q2. rewrite app_cons. auto.
Qed.

Hypothesis P_quoteFree : quoteFree P = true.

Local Abbreviation re := (template (lits P)).

(** The matches lie one behind the other in the text: each one takes the
    seven bytes of [href=] and the two quotes besides its url. *)
Lemma execLoop_layout n :
  forall s, (len s <= n)%nat ->
    let urls := execLoop (S (len s)) re s in
    Forall (fun u => includes u s = true) urls /\
    (list_sum (map (fun u => len u + 7)%nat urls) <= len s)%nat /\
    (2 * length urls <= quoteCount s)%nat.
Proof.
  induction n as [|n IH]; intros s Hn; cbn zeta;
    rewrite (execLoop_unfold P P_quoteFree);
    destruct (findLink P s) as [[u rest]|] eqn:E;
    try (split; [constructor | split; cbn; lia]).
  - apply findLink_len in E. lia.
  - pose proof (findLink_len _ _ _ _ E) as Hlen.
    apply findLink_decomp in E as (pre & h & q1 & q2 & Hs & Hl & _ & Hq1 & Hq2).
    assert (Hr : (len rest <= n)%nat) by lia.
    destruct (IH rest Hr) as (Hin & Hsum & Hq).
    assert (Hsz : len s = (len pre + 5 + S (len u + S (len rest)))%nat).
    { rewrite Hs, !len_app. cbn [String.length]. rewrite len_app.
      cbn [String.length]. lia. }
    assert (Hqs : (quoteCount rest + 2 <= quoteCount s)%nat).
    { rewrite Hs, !quoteCount_app. cbn [quoteCount]. rewrite quoteCount_app.
      cbn [quoteCount]. rewrite Hq1, Hq2. lia. }
    split; [|split].
    + constructor.
      * rewrite Hs. apply includes_behind, includes_behind.
        change (String q1 (u +:+ String q2 rest))
          with (String q1 "" +:+ u +:+ String q2 rest).
        apply includes_intro.
      * eapply Forall_impl; [exact Hin|]. intros x Hx. cbv beta in Hx |- *.
        rewrite Hs. apply includes_behind, includes_behind.
        change (String q1 (u +:+ String q2 rest))
          with (String q1 u +:+ String q2 "" +:+ rest).
        apply includes_behind, includes_behind. exact Hx.
    + unfold list_sum in *. cbn [map fold_right]. lia.
    + cbn [length]. lia.
Qed.

End Pattern.
End ExtractionMore.

(** X7. The urls the extractor returns are pieces of the text, one behind the
    other without overlap: every url occurs in the text, each match takes
    its url and seven more bytes ([href=] and the two quotes), and the text
    holds two quote characters for every url at least.  A text with fewer
    than two quote characters has no link. *)
Theorem X7_extracted_links_fit (pattern P html : string) :
  Regex.parsePattern pattern = Some (Regex.lits P) ->
  quoteFree P = true ->
  exists urls,
    extractAffiliateLinks html pattern = Some urls /\
    Forall (fun u => Text.includes u html = true) urls /\
    (list_sum (map (fun u => Text.len u + 7)%nat urls) <= Text.len html)%nat /\
    (2 * length urls <= quoteCount html)%nat /\
    ((quoteCount html < 2)%nat -> urls = []).
Proof.
  intros Hparse HP. eexists. split; [apply (extract_eq _ _ _ Hparse)|].
  destruct (ExtractionMore.execLoop_layout P HP (Text.len html) html (le_n _))
    as (Hin & Hsum & Hq).
  repeat split; [exact Hin | exact Hsum | exact Hq |].
  intros Hlt.
  destruct (Regex.execLoop _ _ html) as [|u urls]; [reflexivity|].
  cbn [length] in Hq. lia.
Qed.

Lemma X7_witness :
  exists urls,
    extractAffiliateLinks (page (sampleLinks "a.html")) "aff\.example" = Some urls /\
    Forall (fun u => Text.includes u (page (sampleLinks "a.html")) = true) urls /\
    (list_sum (map (fun u => Text.len u + 7)%nat urls)
       <= Text.len (page (sampleLinks "a.html")))%nat /\
    (2 * length urls <= quoteCount (page (sampleLinks "a.html")))%nat /\
    ((quoteCount (page (sampleLinks "a.html")) < 2)%nat -> urls = []).
Proof.
  apply (X7_extracted_links_fit "aff\.example"
           "aff.example" (page (sampleLinks "a.html")));
    reflexivity.
Defined.

(* ------------------------------------------------------------------ *)
(** ** The run on files with any contents *)
(* ------------------------------------------------------------------ *)

Module RewriteMore.

Lemma listings_cons_eq f paths : listings f (f :: paths) = S (listings f paths).
Proof.
  unfold listings. rewrite filter_cons.
  destruct (decide (f = f)); [reflexivity | congruence].
Qed.

Lemma listings_cons_ne f g paths : g <> f -> listings f (g :: paths) = listings f paths.
Proof.
  intros H. unfold listings. rewrite filter_cons.
  destruct (decide (g = f)); [congruence | reflexivity].
Qed.

Lemma listings_zero f paths : f ∉ paths -> listings f paths = 0%nat.
Proof.
  induction paths as [|g paths IH]; intros H; [reflexivity|].
  rewrite listings_cons_ne; [apply IH|]; intros Hx; apply H;
    [right; exact Hx | subst; left].
Qed.

Lemma listings_pos f paths : f ∈ paths -> (0 < listings f paths)%nat.
Proof.
  induction paths as [|g paths IH]; intros H; [inversion H|].
  destruct (decide (g = f)) as [->|Hne].
  - rewrite listings_cons_eq. lia.
  - rewrite listings_cons_ne by exact Hne. apply IH.
    apply elem_of_cons in H as [H|H]; [congruence | exact H].
Qed.

(** The rewriting loop returns exactly when it finds every file. *)
Lemma rewriteFiles_reads url fb paths :
  forall w w', rewriteFiles url fb paths w = Some (tt, w') -> allExist w paths.
Proof.
  induction paths as [|file more IH]; intros w w' H; [constructor|].
  cbn [rewriteFiles] in H. unfold bind, readFileSync, writeFileSync in H.
  destruct (files w !! file) as [html|] eqn:E; [|discriminate].
  constructor; [rewrite E; eauto|].
  apply IH in H. unfold allExist in *.
  eapply Forall_impl; [exact H|]. intros f Hf. cbn [files] in Hf.
  destruct (decide (file = f)) as [<-|Hne]; [rewrite E; eauto|].
  rewrite lookup_insert_ne in Hf by exact Hne. exact Hf.
Qed.

(** What the loop of lines 164-169 does: a file is replaced in once for
    every time it is listed, the writes follow the list, no request is
    sent. *)
Lemma rewriteFiles_any url fb paths :
  forall w, allExist w paths ->
    exists w',
      rewriteFiles url fb paths w = Some (tt, w') /\
      requests w' = requests w /\
      (forall f, files w' !! f =
                 Nat.iter (listings f paths) (Text.replaceAll url fb)
                   <$> files w !! f) /\
      written (log w') = written (log w) ++ paths /\
      waited (log w') = waited (log w).
Proof.
  induction paths as [|file more IH]; intros w Hex.
  - exists w. split; [reflexivity|]. split; [reflexivity|]. split.
    + intros f. cbn. destruct (files w !! f); reflexivity.
    + rewrite app_nil_r. auto.
  - inversion Hex as [|? ? [html Hhtml] Hmore]; subst.
    cbn [rewriteFiles]. unfold bind, readFileSync, writeFileSync.
    rewrite Hhtml.
    set (w1 := World _ _ _).
    destruct (IH w1) as (w' & Hrun & Hreq & Hfiles & Hwr & Hwt).
    { unfold allExist in *. eapply Forall_impl; [exact Hmore|].
      intros f Hf. unfold w1. cbn [files].
      destruct (decide (file = f)) as [<-|Hne].
      - rewrite lookup_insert_eq. eauto.
      - rewrite lookup_insert_ne by exact Hne. exact Hf. }
    exists w'. split; [exact Hrun|]. split; [exact Hreq|]. split; [|split].
    + intros f. rewrite Hfiles. unfold w1. cbn [files].
      destruct (decide (file = f)) as [<-|Hne].
      * rewrite lookup_insert_eq, Hhtml, listings_cons_eq.
        cbn [fmap option_fmap option_map]. rewrite Nat.iter_succ_r. reflexivity.
      * rewrite lookup_insert_ne by exact Hne.
        rewrite (listings_cons_ne _ _ _ Hne). reflexivity.
    + rewrite Hwr. unfold w1. cbn [log]. rewrite CheckerMore.written_app.
      cbn [written]. rewrite <- List.app_assoc. reflexivity.
    + rewrite Hwt. unfold w1. cbn [log]. rewrite CheckerMore.waited_app.
      cbn [waited]. lia.
Qed.

End RewriteMore.

(** X8. The loop that rewrites the files of a broken url fails exactly when
    one of the listed files is missing.  When it returns, every file holds
    its text with the url replaced once for every time the file is listed
    (files not listed are as before), one write was made per listing, in
    the order of the list, and no request was sent. *)
Theorem X8_rewrite_files (url fallback : string) (paths : list string) (w : world) :
  (is_Some (rewriteFiles url fallback paths w) <-> allExist w paths) /\
  (forall w', rewriteFiles url fallback paths w = Some (tt, w') ->
     (forall f, files w' !! f =
                Nat.iter (listings f paths) (Text.replaceAll url fallback)
                  <$> files w !! f) /\
     (forall f, f ∉ paths -> files w' !! f = files w !! f) /\
     written (log w') = written (log w) ++ paths /\
     requests w' = requests w).
Proof.
  split.
  - split.
    + intros [[[] w'] H]. apply (RewriteMore.rewriteFiles_reads _ _ _ _ _ H).
    + intros H. destruct (RewriteMore.rewriteFiles_any url fallback paths w H)
        as (w' & -> & _). eauto.
  - intros w' H.
    pose proof (RewriteMore.rewriteFiles_reads _ _ _ _ _ H) as Hex.
    destruct (RewriteMore.rewriteFiles_any url fallback paths w Hex)
      as (w2 & Hrun & Hreq & Hfiles & Hwr & _).
    rewrite H in Hrun. injection Hrun as <-.
    split; [exact Hfiles|]. split; [|split; assumption].
    intros f Hf. rewrite Hfiles, (RewriteMore.listings_zero _ _ Hf).
    cbn. destruct (files w !! f); reflexivity.
Qed.

Lemma X8_witness :
  exists w',
    rewriteFiles trackUrl "https://fallback.example/" ["a.html"; "a.html"]
                 sampleSite = Some (tt, w') /\
    written (log w') = ["a.html"; "a.html"] /\
    files w' !! "a.html" =
      Some (page [("https://fallback.example/", "one");
                  ("https://fallback.example/", "two")]).
Proof.
  eexists. split; [vm_compute; reflexivity|].
  destruct (X8_rewrite_files trackUrl "https://fallback.example/"
              ["a.html"; "a.html"] sampleSite) as [_ H].
  destruct (H _ ltac:(vm_compute; reflexivity)) as (Hf & _ & Hw & _).
  split; [rewrite Hw; reflexivity|].
  rewrite Hf. vm_compute. reflexivity.
Defined.

Module ScanMore.
Import IndexFacts.

Lemma elem_of_list_In {A} (x : A) (l : list A) : x ∈ l <-> In x l.
Proof.
  induction l as [|y l IH].
  - split; [intros H; inversion H | intros []].
  - rewrite elem_of_cons, IH. cbn [In]. split; intros [H|H]; auto.
Qed.

(** A url has a list only if it is the url of an occurrence. *)
Lemma indexOf_keys occ :
  forall ix u,
    is_Some (urlFileMap (indexOf occ ix) !! u) ->
    is_Some (urlFileMap ix !! u) \/ u ∈ map snd occ.
Proof.
  induction occ as [|[f v] occ IH]; intros ix u H; [left; exact H|].
  rewrite indexOf_cons in H. apply IH in H as [H|H].
  - cbn [fst snd recordLink urlFileMap map] in *.
    destruct (decide (v = u)) as [->|Hne]; [right; left|].
    rewrite lookup_insert_ne in H by exact Hne. left. exact H.
  - right. cbn [map]. right. exact H.
Qed.

Lemma occurrencesIn_cons pattern w file more :
  occurrencesIn pattern w (file :: more) =
  map (fun u => (file, u)) (linksOf pattern w file) ++
  occurrencesIn pattern w more.
Proof. reflexivity. Qed.

(** The scan returns exactly when it finds every file (the pattern being
    one the constructor accepts), and it builds the index of the
    occurrences. *)
Lemma scanFiles_any pattern w htmlFiles :
  is_Some (Regex.parsePattern pattern) ->
  allExist w htmlFiles ->
  forall ix,
    scanFiles pattern htmlFiles ix w =
    Some (indexOf (occurrencesIn pattern w htmlFiles) ix, w).
Proof.
  intros [pat Hpat]. induction htmlFiles as [|file more IH]; intros Hex ix.
  - reflexivity.
  - inversion Hex as [|? ? [html Hhtml] Hmore]; subst.
    cbn [scanFiles]. unfold bind, readFileSync. rewrite Hhtml.
    rewrite occurrencesIn_cons, indexOf_app, indexOf_file.
    unfold linksOf at 1. rewrite Hhtml.
    unfold extractAffiliateLinks. rewrite Hpat. cbn [default].
    apply (IH Hmore).
Qed.

Lemma scanFiles_reads pattern htmlFiles :
  forall ix w r, scanFiles pattern htmlFiles ix w = Some r -> allExist w htmlFiles.
Proof.
  induction htmlFiles as [|file more IH]; intros ix w r H; [constructor|].
  cbn [scanFiles] in H. unfold bind, readFileSync in H.
  destruct (files w !! file) as [html|] eqn:E; [|discriminate].
  constructor; [rewrite E; eauto|].
  destruct (extractAffiliateLinks html pattern); [|discriminate].
  apply (IH _ _ _ H).
Qed.

(** The files listed for [u] by the links of one file. *)
Lemma listings_file f u file links :
  listings f (map fst (filter (fun o : string * string => o.2 = u)
                              (map (fun v => (file, v)) links))) =
  if decide (file = f) then listings u links else 0%nat.
Proof.
  induction links as [|v links IH].
  - destruct (decide (file = f)); reflexivity.
  - cbn [map]. rewrite filter_cons. cbn [snd].
    destruct (decide (v = u)) as [->|Hne].
    + cbn [map fst]. rewrite RewriteMore.listings_cons_eq.
      destruct (decide (file = f)) as [->|Hf].
      * rewrite RewriteMore.listings_cons_eq, IH.
        destruct (decide (f = f)); [reflexivity | congruence].
      * rewrite (RewriteMore.listings_cons_ne _ _ _ Hf), IH.
        destruct (decide (file = f)); [congruence | reflexivity].
    + rewrite (RewriteMore.listings_cons_ne _ _ _ Hne). exact IH.
Qed.

Lemma listings_app f a b : listings f (a ++ b) = (listings f a + listings f b)%nat.
Proof. unfold listings. rewrite filter_app, length_app. reflexivity. Qed.

(** A file is listed for a url once for each of its links to the url (and
    for each time the file is scanned). *)
Lemma listings_occurrences pattern w f u htmlFiles :
  listings f (map fst (filter (fun o : string * string => o.2 = u)
                              (occurrencesIn pattern w htmlFiles))) =
  (listings f htmlFiles * listings u (linksOf pattern w f))%nat.
Proof.
  induction htmlFiles as [|file more IH]; [reflexivity|].
  rewrite occurrencesIn_cons, filter_app, map_app, listings_app, IH,
    listings_file.
  destruct (decide (file = f)) as [->|Hne].
  - rewrite RewriteMore.listings_cons_eq. lia.
  - rewrite (RewriteMore.listings_cons_ne _ _ _ Hne). lia.
Qed.

Lemma occurrencesIn_urls pattern w htmlFiles u :
  u ∈ map snd (occurrencesIn pattern w htmlFiles) <->
  exists f, f ∈ htmlFiles /\ u ∈ linksOf pattern w f.
Proof.
  unfold occurrencesIn. rewrite list_elem_of_fmap. split.
  - intros ([f v] & -> & H). apply elem_of_list_In, in_flat_map in H
      as (file & Hfile & H).
    apply in_map_iff in H as (v' & [= <- <-] & Hv).
    exists file. split; apply elem_of_list_In; assumption.
  - intros (f & Hf & Hu). exists (f, u). split; [reflexivity|].
    apply elem_of_list_In, in_flat_map. exists f.
    split; [apply elem_of_list_In, Hf|].
    apply in_map_iff. exists u. split; [reflexivity | apply elem_of_list_In, Hu].
Qed.

Lemma occurrencesIn_paths pattern w htmlFiles u f :
  f ∈ map fst (filter (fun o : string * string => o.2 = u)
                      (occurrencesIn pattern w htmlFiles)) ->
  f ∈ htmlFiles /\ u ∈ linksOf pattern w f.
Proof.
  rewrite list_elem_of_fmap. intros ([f' v] & -> & H).
  apply list_elem_of_filter in H as [Hv H]. cbn [snd fst] in *. subst v.
  unfold occurrencesIn in H.
  apply elem_of_list_In, in_flat_map in H as (file & Hfile & H).
  apply in_map_iff in H as (v' & [= <- <-] & Hv).
  split; apply elem_of_list_In; assumption.
Qed.

End ScanMore.

(** X9. With a pattern the constructor accepts, the scan returns exactly
    when it finds every file, and it changes nothing.  In the index it
    returns the unique urls are distinct and are the urls some scanned file
    links to; each of them has a list of files, which is not empty and names
    a scanned file once for each of its links to the url; a url that is not
    among the unique urls has no list. *)
Theorem X9_scan_index (pattern : string) (htmlFiles : list string) (w : world) :
  is_Some (Regex.parsePattern pattern) ->
  (is_Some (scanFiles pattern htmlFiles (Index ∅ []) w) <-> allExist w htmlFiles) /\
  (forall ix w',
     scanFiles pattern htmlFiles (Index ∅ []) w = Some (ix, w') ->
     w' = w /\
     NoDup (allUrls ix) /\
     (forall u, u ∈ allUrls ix <->
                exists f, f ∈ htmlFiles /\ u ∈ linksOf pattern w f) /\
     (forall u, u ∈ allUrls ix ->
        exists paths,
          urlFileMap ix !! u = Some paths /\ paths <> [] /\
          forall f, listings f paths =
                    (listings f htmlFiles * listings u (linksOf pattern w f))%nat) /\
     (forall u, u ∉ allUrls ix -> urlFileMap ix !! u = None)).
Proof.
  intros Hpat. split.
  - split.
    + intros [r H]. apply (ScanMore.scanFiles_reads _ _ _ _ _ H).
    + intros H. rewrite (ScanMore.scanFiles_any _ _ _ Hpat H). eauto.
  - intros ix w' H.
    pose proof (ScanMore.scanFiles_reads _ _ _ _ _ H) as Hex.
    rewrite (ScanMore.scanFiles_any _ _ _ Hpat Hex) in H.
    injection H as <- <-.
    set (occ := occurrencesIn pattern w htmlFiles).
    split; [reflexivity|]. split; [|split; [|split]].
    + apply IndexFacts.indexOf_NoDup. constructor.
    + intros u. rewrite IndexFacts.indexOf_allUrls. cbn [allUrls].
      rewrite <- ScanMore.occurrencesIn_urls. fold occ.
      split; [intros [Hu|Hu]; [inversion Hu | exact Hu] | auto].
    + intros u Hu. rewrite (IndexFacts.indexOf_lookup _ _ Hu).
      eexists. split; [reflexivity|]. split.
      * apply IndexFacts.indexOf_allUrls in Hu as [Hu|Hu]; [inversion Hu|].
        apply list_elem_of_fmap in Hu as ([f v] & -> & Ho).
        intros Hnil.
        assert (Hin : f ∈ map fst (filter (fun o : string * string => o.2 = v) occ)).
        { apply list_elem_of_fmap. exists (f, v). split; [reflexivity|].
          apply list_elem_of_filter. split; [reflexivity | exact Ho]. }
        cbn [snd] in Hnil. rewrite Hnil in Hin. inversion Hin.
      * intros f. apply ScanMore.listings_occurrences.
    + intros u Hu.
      destruct (urlFileMap (indexOf occ (Index ∅ [])) !! u) as [paths|] eqn:E;
        [|reflexivity].
      exfalso. apply Hu. apply IndexFacts.indexOf_allUrls. right.
      destruct (ScanMore.indexOf_keys occ (Index ∅ []) u) as [[x Hx]|Hx];
        [rewrite E; eauto | | exact Hx].
      cbn [urlFileMap] in Hx. rewrite lookup_empty in Hx. discriminate.
Qed.

Lemma X9_witness :
  is_Some (scanFiles "aff\.example" ["a.html"] (Index ∅ []) sampleSite) <->
  allExist sampleSite ["a.html"].
Proof.
  apply (X9_scan_index "aff\.example" ["a.html"] sampleSite).
  vm_compute. eauto.
Defined.

Module RunMore.

Lemma allExist_files w w' paths :
  (forall f, is_Some (files w' !! f) <-> is_Some (files w !! f)) ->
  allExist w paths -> allExist w' paths.
Proof.
  intros H Hex. unfold allExist in *. eapply Forall_impl; [exact Hex|].
  intros f Hf. apply H, Hf.
Qed.

Lemma allExist_sub w site paths :
  allExist w site -> Forall (fun f => f ∈ site) paths -> allExist w paths.
Proof.
  unfold allExist. rewrite !Forall_forall. intros HS Hp f Hf.
  apply HS, Hp, Hf.
Qed.

Lemma is_Some_fmap {A B} (g : A -> B) (x : option A) :
  is_Some (g <$> x) <-> is_Some x.
Proof. destruct x; cbn; split; intros [y Hy]; eauto; discriminate. Qed.

Section Run.

Variable net : network.

(** One round of the loop of lines 147-178 on any network and any files. *)
Lemma checkOne_any cfg ix url paths bc w :
  refuses net (protocolOf url) url (timeoutMs cfg) = false ->
  0 <= retries cfg ->
  urlFileMap ix !! url = Some paths ->
  allExist w paths ->
  exists e w' d,
    checkOne net cfg ix url bc w =
      Some ((e, if e_ok e then bc else S bc), w') /\
    e_url e = url /\ filesUsing e = length paths /\
    replaced e = negb (e_ok e) /\
    e_ok e = ok (resolveWith (net (requests w + d)%nat url)) /\
    (d <= Z.to_nat (retries cfg))%nat /\
    requests w' = (requests w + S d)%nat /\
    (forall f, files w' !! f =
               if e_ok e then files w !! f
               else Nat.iter (listings f paths)
                      (Text.replaceAll url (fallbackUrl cfg)) <$> files w !! f) /\
    written (log w') = written (log w) ++ (if e_ok e then [] else paths) /\
    waited (log w') = waited (log w) + 500 * Z.of_nat d * (Z.of_nat d + 1).
Proof.
  intros Hacc Hret Hpaths Hex.
  destruct (CheckerMore.checkUrlWithRetry_any net url (timeoutMs cfg)
              (retries cfg) Hacc w Hret)
    as (d & tr & Hd & Hrun & _ & _ & Hwt & Hwr & _).
  unfold checkOne, bind. rewrite Hrun, Hpaths.
  set (r := resolveWith (net (requests w + d)%nat url)).
  set (w1 := World _ _ _).
  destruct (ok r) eqn:Hok; cbn [negb].
  - exists (Entry url (status r) (redirectTo r) (ok r) (error r)
                  (length paths) false), w1, d.
    unfold ret. cbn [e_ok e_url filesUsing replaced].
    rewrite Hok. split; [reflexivity|].
    repeat split; auto.
    + unfold w1. cbn [log]. rewrite CheckerMore.written_app, Hwr. reflexivity.
    + unfold w1. cbn [log]. rewrite CheckerMore.waited_app, Hwt. reflexivity.
  - destruct (RewriteMore.rewriteFiles_any url (fallbackUrl cfg) paths w1)
      as (w2 & Hrw & Hreq & Hfiles & Hwr2 & Hwt2); [exact Hex|].
    rewrite Hrw.
    exists (Entry url (status r) (redirectTo r) (ok r) (error r)
                  (length paths) true), w2, d.
    unfold ret.
    cbn [e_ok e_url filesUsing replaced]. rewrite Hok. split; [reflexivity|].
    repeat split; auto.
    + rewrite Hwr2. unfold w1. cbn [log].
      rewrite CheckerMore.written_app, Hwr, List.app_nil_r. reflexivity.
    + rewrite Hwt2. unfold w1. cbn [log].
      rewrite CheckerMore.waited_app, Hwt. reflexivity.
Qed.

(** What one round leaves of the files. *)
Lemma round_files (url fb : string) (paths site : list string) (b : bool)
      (w w' : world) :
  Forall (fun f => f ∈ site) paths ->
  (forall f, files w' !! f =
             if b then files w !! f
             else Nat.iter (listings f paths) (Text.replaceAll url fb)
                    <$> files w !! f) ->
  (forall f, is_Some (files w' !! f) <-> is_Some (files w !! f)) /\
  (forall f, f ∉ site -> files w' !! f = files w !! f).
Proof.
  intros Hsub Hfiles. split; intros f.
  - rewrite Hfiles. destruct b; [reflexivity | apply is_Some_fmap].
  - intros Hout. rewrite Hfiles. destruct b; [reflexivity|].
    rewrite RewriteMore.listings_zero.
    + cbn. destruct (files w !! f); reflexivity.
    + intros Hin. apply Hout. rewrite Forall_forall in Hsub. apply Hsub, Hin.
Qed.

(** The loop over the unique urls, when every url has a list of files of
    the site. *)
Lemma checkAll_any cfg ix site urls :
  0 <= retries cfg ->
  Forall (fun url =>
            refuses net (protocolOf url) url (timeoutMs cfg) = false /\
            exists paths,
              urlFileMap ix !! url = Some paths /\
              Forall (fun f => f ∈ site) paths) urls ->
  forall rs bc w,
    allExist w site ->
    exists es w' n newWrites,
      checkAll net cfg ix urls rs bc w =
        Some ((rs ++ es,
               (bc + length (filter (fun e => e_ok e = false) es))%nat), w') /\
      map e_url es = urls /\
      Forall (fun e => replaced e = negb (e_ok e) /\
                       length <$> urlFileMap ix !! e_url e =
                       Some (filesUsing e)) es /\
      requests w' = (requests w + n)%nat /\
      (length es <= n <= length es * S (Z.to_nat (retries cfg)))%nat /\
      (forall f, is_Some (files w' !! f) <-> is_Some (files w !! f)) /\
      (forall f, f ∉ site -> files w' !! f = files w !! f) /\
      written (log w') = written (log w) ++ newWrites /\
      Forall (fun f => f ∈ site) newWrites /\
      length newWrites =
        list_sum (map (fun e => if e_ok e then 0%nat else filesUsing e) es) /\
      waited (log w) <= waited (log w') <=
        waited (log w) +
        Z.of_nat (length es) * (500 * retries cfg * (retries cfg + 1)).
Proof.
  intros Hret. induction urls as [|url more IH]; intros Hurls rs bc w Hex.
  - exists [], w, 0%nat, []. cbn [checkAll length filter map list_sum fold_right].
    unfold ret. rewrite !List.app_nil_r, !Nat.add_0_r.
    repeat split; auto; try lia.
  - inversion Hurls as [|? ? (Hacc & paths & Hpaths & Hsub) Hmore]; subst.
    destruct (checkOne_any cfg ix url paths bc w Hacc Hret Hpaths
                (allExist_sub _ _ _ Hex Hsub))
      as (e & w1 & d & Hone & Hu & Hfu & Hrep & _ & Hd & Hreq & Hfiles & Hwr & Hwt).
    destruct (round_files _ _ _ _ _ _ _ Hsub Hfiles) as [Hdom Hout].
    destruct (IH Hmore (rs ++ [e]) (if e_ok e then bc else S bc) w1
                (allExist_files _ _ _ Hdom Hex))
      as (es & w' & n & nw & Hall & Hus & Hes & Hreq' & Hn & Hdom' & Hout' &
          Hwr' & Hnw & Hlen & Hwt').
    exists (e :: es), w', (S d + n)%nat, ((if e_ok e then [] else paths) ++ nw).
    cbn [checkAll]. unfold bind. rewrite Hone. cbn [fst snd]. rewrite Hall.
    split.
    { rewrite <- List.app_assoc. cbn [app]. rewrite filter_cons.
      destruct (e_ok e) eqn:Hok.
      - rewrite decide_False by discriminate. reflexivity.
      - rewrite decide_True by reflexivity. cbn [length].
        do 3 f_equal. lia. }
    split; [cbn [map]; congruence|].
    split.
    { constructor; [|exact Hes]. split; [exact Hrep|].
      rewrite Hu, Hpaths. cbn. rewrite Hfu. reflexivity. }
    split; [rewrite Hreq', Hreq; lia|].
    split; [cbn [length]; nia|].
    split; [intros f; rewrite Hdom'; apply Hdom|].
    split; [intros f Hf; rewrite (Hout' f Hf); apply (Hout f Hf)|].
    split; [rewrite Hwr', Hwr, <- List.app_assoc; reflexivity|].
    split.
    { apply Forall_app. split; [|exact Hnw]. destruct (e_ok e); [constructor | exact Hsub]. }
    split.
    { rewrite length_app, Hlen. cbn [map]. unfold list_sum. cbn [fold_right].
      destruct (e_ok e); cbn [length]; lia. }
    cbn [length]. rewrite Hwt in Hwt'.
    assert (0 <= 500 * Z.of_nat d * (Z.of_nat d + 1) <=
            500 * retries cfg * (retries cfg + 1)) by nia.
    lia.
Qed.

(** The loop returns only if the modules accepted every request. *)
Lemma checkAll_returns cfg ix urls :
  forall rs bc w r,
    0 <= retries cfg ->
    checkAll net cfg ix urls rs bc w = Some r ->
    Forall (fun url => refuses net (protocolOf url) url (timeoutMs cfg) = false)
           urls.
Proof.
  induction urls as [|url more IH]; intros rs bc w r Hret H; [constructor|].
  cbn [checkAll] in H. unfold bind in H.
  destruct (checkOne net cfg ix url bc w) as [[step w1]|] eqn:Hone;
    [|discriminate].
  constructor; [|apply (IH _ _ _ _ Hret H)].
  destruct (refuses net (protocolOf url) url (timeoutMs cfg)) eqn:Href;
    [|reflexivity].
  unfold checkOne, bind in Hone.
  rewrite (CheckerMore.checkUrlWithRetry_refused net url _ _ w Href Hret) in Hone.
  discriminate Hone.
Qed.

(** The urls of a scanned index have lists of scanned files. *)
Lemma scanned_lists pattern w htmlFiles :
  Forall (fun url => exists paths,
            urlFileMap (indexOf (occurrencesIn pattern w htmlFiles) (Index ∅ []))
              !! url = Some paths /\
            Forall (fun f => f ∈ htmlFiles) paths)
         (allUrls (indexOf (occurrencesIn pattern w htmlFiles) (Index ∅ []))).
Proof.
  apply Forall_forall. intros u Hu.
  rewrite (IndexFacts.indexOf_lookup _ _ Hu). eexists. split; [reflexivity|].
  apply Forall_forall. intros f Hf.
  apply ScanMore.occurrencesIn_paths in Hf as [Hf _]. exact Hf.
Qed.

Lemma scanned_none occ :
  allUrls (indexOf occ (Index ∅ [])) = [] -> occ = [].
Proof.
  intros H. destruct occ as [|[f u] occ]; [reflexivity|]. exfalso.
  assert (Hu : u ∈ allUrls (indexOf ((f, u) :: occ) (Index ∅ []))).
  { apply IndexFacts.indexOf_allUrls. right. left. }
  rewrite H in Hu. inversion Hu.
Qed.

(** A run on any network over files with any contents. *)
Lemma onPostBuild_any htmlFiles i w :
  let cfg := mergeConfig DEFAULTS i in
  let occ := occurrencesIn (affiliatePattern cfg) w htmlFiles in
  let ix := indexOf occ (Index ∅ []) in
  is_Some (Regex.parsePattern (affiliatePattern cfg)) ->
  allExist w htmlFiles ->
  0 <= retries cfg /\ allAccepted net (timeoutMs cfg) (map snd occ) \/
  occ = [] ->
  exists rep w' n newWrites,
    onPostBuild net htmlFiles i w = Some (rep, w') /\
    map e_url (results rep) = allUrls ix /\
    Forall (fun e => replaced e = negb (e_ok e) /\
                     length <$> urlFileMap ix !! e_url e =
                     Some (filesUsing e)) (results rep) /\
    brokenCount rep = length (filter (fun e => e_ok e = false) (results rep)) /\
    requests w' = (requests w + n)%nat /\
    (length (results rep) <= n <=
       length (results rep) * S (Z.to_nat (retries cfg)))%nat /\
    (forall f, is_Some (files w' !! f) <-> is_Some (files w !! f)) /\
    (forall f, f ∉ htmlFiles -> files w' !! f = files w !! f) /\
    written (log w') = written (log w) ++ newWrites /\
    Forall (fun f => f ∈ htmlFiles) newWrites /\
    waited (log w) <= waited (log w') <=
      waited (log w) +
      Z.of_nat (length (results rep)) * (500 * retries cfg * (retries cfg + 1)).
Proof.
  intros cfg occ ix Hpat Hex Hret.
  unfold onPostBuild. fold cfg. destruct Hpat as [pat Hpat]. rewrite Hpat.
  unfold bind at 1.
  rewrite (ScanMore.scanFiles_any _ _ _ (ex_intro _ pat Hpat) Hex).
  fold occ. fold ix.
  destruct (allUrls ix) as [|url more] eqn:Hurls.
  - exists (Report [] 0 None), w, 0%nat, []. unfold ret.
    cbn [results brokenCount map length filter].
    rewrite List.app_nil_r, Nat.add_0_r.
    repeat split; auto; lia.
  - assert (Hr : 0 <= retries cfg /\ allAccepted net (timeoutMs cfg) (map snd occ)).
    { destruct Hret as [H|H]; [exact H|]. exfalso. unfold ix in Hurls.
      rewrite H in Hurls. discriminate Hurls. }
    destruct Hr as [Hr Hacc].
    assert (Hlists :
      Forall (fun url =>
                refuses net (protocolOf url) url (timeoutMs cfg) = false /\
                exists paths,
                  urlFileMap ix !! url = Some paths /\
                  Forall (fun f => f ∈ htmlFiles) paths) (url :: more)).
    { rewrite <- Hurls.
      pose proof (scanned_lists (affiliatePattern cfg) w htmlFiles) as Hl.
      fold occ in Hl. fold ix in Hl.
      rewrite Forall_forall in Hl |- *. intros u Hu. split; [|apply Hl, Hu].
      unfold allAccepted in Hacc. rewrite Forall_forall in Hacc. apply Hacc.
      apply IndexFacts.indexOf_allUrls in Hu as [Hu|Hu]; [inversion Hu | exact Hu]. }
    destruct (checkAll_any cfg ix htmlFiles (url :: more) Hr Hlists [] 0%nat w Hex)
      as (es & w' & n & nw & Hall & Hus & Hes & Hreq & Hn & Hdom & Hout &
          Hwr & Hnw & _ & Hwt).
    unfold bind. rewrite Hall. cbn [fst snd app]. rewrite Nat.add_0_l.
    destruct (failOnBroken cfg &&
              (0 <? length (filter (fun e => e_ok e = false) es))%nat);
      eexists (Report es _ _), w', n, nw; unfold ret;
      cbn [results brokenCount];
      (split; [reflexivity|]); cbn [results brokenCount];
      repeat split; auto; try lia; apply Hdom.
Qed.

(** A run that returns met the conditions of [onPostBuild_any]. *)
Lemma onPostBuild_returns htmlFiles i w r :
  onPostBuild net htmlFiles i w = Some r ->
  let cfg := mergeConfig DEFAULTS i in
  is_Some (Regex.parsePattern (affiliatePattern cfg)) /\
  allExist w htmlFiles /\
  (0 <= retries cfg /\
   allAccepted net (timeoutMs cfg)
     (map snd (occurrencesIn (affiliatePattern cfg) w htmlFiles)) \/
   occurrencesIn (affiliatePattern cfg) w htmlFiles = []).
Proof.
  intros H cfg. unfold onPostBuild in H. fold cfg in H.
  destruct (Regex.parsePattern (affiliatePattern cfg)) as [pat|] eqn:Hpat;
    [|discriminate].
  unfold bind at 1 in H.
  destruct (scanFiles _ _ _ w) as [[ix w1]|] eqn:Hscan; [|discriminate].
  pose proof (ScanMore.scanFiles_reads _ _ _ _ _ Hscan) as Hex.
  split; [eauto|]. split; [exact Hex|].
  rewrite (ScanMore.scanFiles_any _ _ _ (ex_intro _ pat Hpat) Hex) in Hscan.
  injection Hscan as <- <-.
  destruct (Z_le_gt_dec 0 (retries cfg)) as [Hr|Hr].
  { destruct (allUrls _) as [|url more] eqn:Hurls;
      [right; apply scanned_none, Hurls|].
    left. split; [exact Hr|]. unfold bind in H.
    destruct (checkAll net cfg _ (url :: more) [] 0%nat w) as [r1|] eqn:Hall;
      [|discriminate].
    apply (checkAll_returns _ _ _ _ _ _ _ Hr) in Hall.
    unfold allAccepted. rewrite Forall_forall in Hall |- *. intros u Hu.
    apply Hall. rewrite <- Hurls. apply IndexFacts.indexOf_allUrls. right.
    exact Hu. }
  right. apply scanned_none.
  destruct (allUrls _) as [|url more]; [reflexivity|]. exfalso.
  unfold bind in H. cbn [checkAll] in H. unfold bind, checkOne, bind in H.
  unfold checkUrlWithRetry in H.
  replace (Z.to_nat (retries cfg + 1)) with 0%nat in H by lia.
  cbn [retryLoop] in H. unfold ret in H.
  destruct (urlFileMap _ !! url); discriminate.
Qed.

(** What a run that returned has done. *)
Lemma onPostBuild_inv htmlFiles i w rep w' :
  onPostBuild net htmlFiles i w = Some (rep, w') ->
  exists n newWrites,
    map e_url (results rep) =
      allUrls (indexOf (occurrencesIn (affiliatePattern (mergeConfig DEFAULTS i))
                                      w htmlFiles) (Index ∅ [])) /\
    Forall (fun e => replaced e = negb (e_ok e) /\
                     length <$> urlFileMap
                       (indexOf (occurrencesIn
                                   (affiliatePattern (mergeConfig DEFAULTS i))
                                   w htmlFiles) (Index ∅ [])) !! e_url e =
                     Some (filesUsing e)) (results rep) /\
    brokenCount rep = length (filter (fun e => e_ok e = false) (results rep)) /\
    requests w' = (requests w + n)%nat /\
    (length (results rep) <= n <=
       length (results rep) * S (Z.to_nat (retries (mergeConfig DEFAULTS i))))%nat /\
    (forall f, is_Some (files w' !! f) <-> is_Some (files w !! f)) /\
    (forall f, f ∉ htmlFiles -> files w' !! f = files w !! f) /\
    written (log w') = written (log w) ++ newWrites /\
    Forall (fun f => f ∈ htmlFiles) newWrites /\
    waited (log w) <= waited (log w') <=
      waited (log w) +
      Z.of_nat (length (results rep)) *
      (500 * retries (mergeConfig DEFAULTS i) *
       (retries (mergeConfig DEFAULTS i) + 1)).
Proof.
  intros H.
  destruct (onPostBuild_returns _ _ _ _ H) as (Hpat & Hex & Hret).
  destruct (onPostBuild_any htmlFiles i w Hpat Hex Hret)
    as (rep2 & w2 & n & nw & Hrun & Hrest).
  rewrite H in Hrun. injection Hrun as <- <-.
  exists n, nw. exact Hrest.
Qed.

End Run.

Lemma filter_distinct (Q : string -> Prop) `{!forall u, Decision (Q u)} l :
  filter Q (distinct l) = distinct (filter Q l).
Proof.
  induction l as [|u l IH]; [reflexivity|].
  cbn [distinct]. rewrite !filter_cons.
  destruct (decide (Q u)) as [Hq|Hq].
  - cbn [distinct]. f_equal. rewrite <- IH.
    rewrite !list_filter_filter. apply list_filter_iff. intros v.
    cbv beta. tauto.
  - rewrite <- IH. rewrite list_filter_filter. apply list_filter_iff.
    intros v. cbv beta. split; [tauto|]. intros Hv. split; [exact Hv|].
    intros ->. contradiction.
Qed.

(** The unique urls are the urls of the occurrences in the order in which
    they first occur. *)
Lemma allUrls_distinct occ :
  forall ix,
    allUrls (indexOf occ ix) =
    allUrls ix ++ distinct (filter (fun u => u ∉ allUrls ix) (map snd occ)).
Proof.
  induction occ as [|[f v] occ IH]; intros ix.
  - cbn. rewrite List.app_nil_r. reflexivity.
  - rewrite IndexFacts.indexOf_cons, IH.
    cbn [fst snd recordLink allUrls map]. rewrite filter_cons.
    destruct (decide (v ∈ allUrls ix)) as [Hin|Hout].
    + destruct (decide (v ∉ allUrls ix)); [contradiction | reflexivity].
    + destruct (decide (v ∉ allUrls ix)); [|contradiction].
      cbn [distinct]. rewrite <- List.app_assoc. cbn [app]. do 2 f_equal.
      rewrite filter_distinct, list_filter_filter. f_equal.
      apply list_filter_iff. intros u. cbv beta.
      rewrite elem_of_app, list_elem_of_singleton. tauto.
Qed.

End RunMore.

Module ReportMore.

Lemma filter_all {A} (P : A -> Prop) `{!forall x, Decision (P x)} (l : list A) :
  (forall x, P x) -> filter P l = l.
Proof.
  intros Hall. induction l as [|x l IH]; [reflexivity|].
  rewrite filter_cons.
  destruct (decide (P x)) as [_|Hn]; [|destruct (Hn (Hall x))].
  f_equal. exact IH.
Qed.

Lemma links_of_file u file links :
  length (filter (fun o : string * string => o.2 = u)
                 (map (fun v => (file, v)) links)) = listings u links.
Proof.
  unfold listings. induction links as [|v links IH]; [reflexivity|].
  cbn [map]. rewrite !filter_cons. cbn [snd].
  destruct (decide (v = u)); cbn [length]; rewrite IH; reflexivity.
Qed.

(** The occurrences of a url are its links, file by file. *)
Lemma links_of_site pattern w u htmlFiles :
  length (filter (fun o : string * string => o.2 = u)
                 (occurrencesIn pattern w htmlFiles)) =
  list_sum (map (fun f => listings u (linksOf pattern w f)) htmlFiles).
Proof.
  induction htmlFiles as [|file more IH]; [reflexivity|].
  rewrite ScanMore.occurrencesIn_cons, filter_app, length_app, links_of_file, IH.
  reflexivity.
Qed.

End ReportMore.

(** X10. With a pattern of the kind the plugin is configured with, a run
    returns exactly when every file handed to it exists and either no file
    holds an affiliate link, or [retries] is not negative and the modules
    accept the request for every extracted url; whatever the network
    answers.  Otherwise it throws: so it does for a link whose request the
    module refuses. *)
Theorem X10_run_returns
        (net : network) (htmlFiles : list string)
        (i : inputs) (w : world) :
  is_Some (Regex.parsePattern (affiliatePattern (mergeConfig DEFAULTS i))) ->
  (is_Some (onPostBuild net htmlFiles i w) <->
   allExist w htmlFiles /\
   (0 <= retries (mergeConfig DEFAULTS i) /\
    allAccepted net (timeoutMs (mergeConfig DEFAULTS i))
      (map snd (occurrencesIn (affiliatePattern (mergeConfig DEFAULTS i))
                              w htmlFiles)) \/
    occurrencesIn (affiliatePattern (mergeConfig DEFAULTS i)) w htmlFiles = [])).
Proof.
  intros Hpat. split.
  - intros [r H]. apply (RunMore.onPostBuild_returns net _ _ _ _ H).
  - intros [Hex Hret].
    destruct (RunMore.onPostBuild_any net htmlFiles i w Hpat Hex Hret)
      as (rep & w' & _ & _ & -> & _). eauto.
Qed.

Lemma X10_witness :
  is_Some (onPostBuild (net_always TimeoutEvent) ["a.html"] sampleInputs sampleSite) /\
  ~ is_Some (onPostBuild (net_always TimeoutEvent) ["a.html"; "b.html"]
                         sampleInputs sampleSite) /\
  ~ is_Some (onPostBuild (net_always (Response 200 None)) ["a.html"]
                         sampleInputs upperSite).
Proof.
  split; [|split].
  - apply (X10_run_returns (net_always TimeoutEvent) ["a.html"] sampleInputs
             sampleSite); [vm_compute; eauto|].
    split; [repeat constructor; vm_compute; eauto|].
    left. split; [discriminate|]. vm_compute. repeat constructor.
  - intros H.
    apply (X10_run_returns (net_always TimeoutEvent) ["a.html"; "b.html"]
             sampleInputs sampleSite) in H as [H _]; [|vm_compute; eauto].
    inversion H as [|? ? _ H2]. inversion H2 as [|? ? [html Hx] _].
    vm_compute in Hx. discriminate Hx.
  - intros H.
    apply (X10_run_returns (net_always (Response 200 None)) ["a.html"]
             sampleInputs upperSite) in H as [_ [[_ H]|H]];
      [| |vm_compute; eauto].
    + vm_compute in H. inversion H as [|? ? Hx _]. discriminate Hx.
    + vm_compute in H. discriminate H.
Defined.

(** X11. The report of a run that returns has one entry for every url some
    scanned file links to, in the order in which the scan first meets them,
    and no url twice.  [filesUsing] is the number of links to the url in the
    scanned files, at least one, and the number of broken entries is at most
    the number of entries. *)
Theorem X11_report_entries
        (net : network) (htmlFiles : list string)
        (i : inputs) (w : world) (rep : report) (w' : world) :
  onPostBuild net htmlFiles i w = Some (rep, w') ->
  map e_url (results rep) =
    distinct (map snd (occurrencesIn (affiliatePattern (mergeConfig DEFAULTS i))
                                     w htmlFiles)) /\
  NoDup (map e_url (results rep)) /\
  (forall u, u ∈ map e_url (results rep) <->
     exists f, f ∈ htmlFiles /\
               u ∈ linksOf (affiliatePattern (mergeConfig DEFAULTS i)) w f) /\
  Forall (fun e =>
            (1 <= filesUsing e)%nat /\
            filesUsing e =
              list_sum (map (fun f => listings (e_url e)
                               (linksOf (affiliatePattern (mergeConfig DEFAULTS i))
                                        w f)) htmlFiles)) (results rep) /\
  (brokenCount rep <= length (results rep))%nat.
Proof.
  intros H.
  destruct (RunMore.onPostBuild_inv net _ _ _ _ _ H)
    as (n & nw & Hus & Hes & Hbc & _).
  set (pattern := affiliatePattern (mergeConfig DEFAULTS i)) in *.
  set (occ := occurrencesIn pattern w htmlFiles) in *.
  split; [|split; [|split; [|split]]].
  - rewrite Hus, RunMore.allUrls_distinct. cbn [allUrls app]. f_equal.
    apply ReportMore.filter_all. intros u Hu. inversion Hu.
  - rewrite Hus. apply IndexFacts.indexOf_NoDup. constructor.
  - intros u. rewrite Hus, IndexFacts.indexOf_allUrls. cbn [allUrls].
    rewrite <- ScanMore.occurrencesIn_urls. fold occ.
    split; [intros [Hu|Hu]; [inversion Hu | exact Hu] | auto].
  - rewrite Forall_forall in Hes |- *. intros e He.
    destruct (Hes e He) as [_ Hlen].
    assert (Hu : e_url e ∈ allUrls (indexOf occ (Index ∅ []))).
    { rewrite <- Hus. apply list_elem_of_fmap. eauto. }
    rewrite (IndexFacts.indexOf_lookup _ _ Hu) in Hlen.
    cbn in Hlen. injection Hlen as Hlen. rewrite length_map in Hlen.
    rewrite <- ReportMore.links_of_site. fold occ. split; [|congruence].
    rewrite <- Hlen.
    apply IndexFacts.indexOf_allUrls in Hu as [Hu|Hu]; [inversion Hu|].
    apply list_elem_of_fmap in Hu as ([f v] & Hv & Ho). cbn [snd] in Hv.
    assert (Hin : (f, v) ∈ filter (fun o : string * string => o.2 = e_url e) occ).
    { apply list_elem_of_filter. split; [cbn [snd]; congruence | exact Ho]. }
    destruct (filter _ occ); [inversion Hin | cbn [length]; lia].
  - rewrite Hbc. apply length_filter.
Qed.

Lemma X11_witness :
  exists rep w',
    onPostBuild (net_always (Response 500 None)) ["a.html"] sampleInputs
                sampleSite = Some (rep, w') /\
    map e_url (results rep) = [trackUrl] /\
    map filesUsing (results rep) = [2%nat].
Proof.
  eexists _, _. split; [vm_compute; reflexivity|].
  destruct (X11_report_entries (net_always (Response 500 None)) ["a.html"]
              sampleInputs sampleSite _ _ ltac:(vm_compute; reflexivity))
    as (Hus & _).
  split; [rewrite Hus; vm_compute; reflexivity | reflexivity].
Defined.

(** X12. A run that returns sends at least one request for every entry of
    its report and at most [retries + 1]; between the attempts for one url it
    waits [500 * retries * (retries + 1)] ms at most. *)
Theorem X12_request_budget
        (net : network) (htmlFiles : list string)
        (i : inputs) (w : world) (rep : report) (w' : world) :
  onPostBuild net htmlFiles i w = Some (rep, w') ->
  (requests w + length (results rep) <= requests w')%nat /\
  (requests w' <=
     requests w +
     length (results rep) * S (Z.to_nat (retries (mergeConfig DEFAULTS i))))%nat /\
  waited (log w) <= waited (log w') <=
    waited (log w) +
    Z.of_nat (length (results rep)) *
    (500 * retries (mergeConfig DEFAULTS i) *
     (retries (mergeConfig DEFAULTS i) + 1)).
Proof.
  intros H.
  destruct (RunMore.onPostBuild_inv net _ _ _ _ _ H)
    as (n & nw & _ & _ & _ & Hreq & Hn & _ & _ & _ & _ & Hwt).
  rewrite Hreq. split; [lia|]. split; [lia | exact Hwt].
Qed.

Lemma X12_witness :
  exists rep w',
    onPostBuild (net_always TimeoutEvent) ["a.html"] sampleInputs sampleSite =
      Some (rep, w') /\
    requests w' = 3%nat /\ waited (log w') = 3000 /\
    (requests w' <= 0 + length (results rep) * 3)%nat.
Proof.
  eexists _, _. split; [vm_compute; reflexivity|].
  split; [reflexivity|]. split; [reflexivity|].
  apply (X12_request_budget (net_always TimeoutEvent) ["a.html"] sampleInputs
           sampleSite _ _ ltac:(vm_compute; reflexivity)).
Defined.

(** X13. A run that returns writes only files it was handed: every write
    goes to one of them, every other file of the site holds what it held,
    and no file is created or removed. *)
Theorem X13_only_scanned_files_written
        (net : network) (htmlFiles : list string)
        (i : inputs) (w : world) (rep : report) (w' : world) :
  onPostBuild net htmlFiles i w = Some (rep, w') ->
  (exists newWrites,
     written (log w') = written (log w) ++ newWrites /\
     Forall (fun f => f ∈ htmlFiles) newWrites) /\
  (forall f, f ∉ htmlFiles -> files w' !! f = files w !! f) /\
  (forall f, is_Some (files w' !! f) <-> is_Some (files w !! f)).
Proof.
  intros H.
  destruct (RunMore.onPostBuild_inv net _ _ _ _ _ H)
    as (n & nw & _ & _ & _ & _ & _ & Hdom & Hout & Hwr & Hnw & _).
  split; [exists nw; split; assumption|]. split; assumption.
Qed.

Lemma X13_witness :
  exists rep w',
    onPostBuild (net_always (Response 404 None)) ["a.html"] sampleInputs
                notesSite = Some (rep, w') /\
    files w' !! "notes.txt" = Some trackUrl /\
    written (log w') = ["a.html"; "a.html"].
Proof.
  eexists _, _. split; [vm_compute; reflexivity|].
  destruct (X13_only_scanned_files_written (net_always (Response 404 None))
              ["a.html"] sampleInputs notesSite
              _ _ ltac:(vm_compute; reflexivity))
    as (_ & Hout & _).
  split; [|reflexivity].
  rewrite (Hout "notes.txt").
  - reflexivity.
  - intros Hin. apply list_elem_of_singleton in Hin. discriminate Hin.
Defined.

(** X14. When no scanned file holds an affiliate link, the run returns an
    empty report without sending a request, writing a file or calling
    [failBuild], whatever [retries] and [failOnBroken] are. *)
Theorem X14_nothing_to_check
        (net : network) (htmlFiles : list string)
        (i : inputs) (w : world) :
  is_Some (Regex.parsePattern (affiliatePattern (mergeConfig DEFAULTS i))) ->
  allExist w htmlFiles ->
  (forall f, f ∈ htmlFiles ->
     linksOf (affiliatePattern (mergeConfig DEFAULTS i)) w f = []) ->
  onPostBuild net htmlFiles i w = Some (Report [] 0 None, w).
Proof.
  intros Hpat Hex Hnone.
  assert (Hocc : occurrencesIn (affiliatePattern (mergeConfig DEFAULTS i))
                               w htmlFiles = []).
  { clear Hex. induction htmlFiles as [|file more IH]; [reflexivity|].
    rewrite ScanMore.occurrencesIn_cons, (Hnone file) by left.
    apply IH. intros f Hf. apply Hnone. right. exact Hf. }
  unfold onPostBuild. destruct Hpat as [pat Hpat]. rewrite Hpat.
  unfold bind at 1.
  rewrite (ScanMore.scanFiles_any _ _ _ (ex_intro _ pat Hpat) Hex), Hocc.
  reflexivity.
Qed.

Lemma X14_witness :
  onPostBuild (net_always TimeoutEvent) ["a.html"]
              (Inputs (Some "other\.example") None None None (Some (-1))
                      (Some true) None)
              sampleSite = Some (Report [] 0 None, sampleSite).
Proof.
  apply (X14_nothing_to_check (net_always TimeoutEvent) ["a.html"]
           (Inputs (Some "other\.example") None None None (Some (-1))
                   (Some true) None) sampleSite).
  - vm_compute. eauto.
  - repeat constructor. vm_compute. eauto.
  - intros f Hf. apply list_elem_of_singleton in Hf. subst f.
    vm_compute. reflexivity.
Defined.

(* ------------------------------------------------------------------ *)
(** ** The directory walk *)
(* ------------------------------------------------------------------ *)

Module WalkMore.
Import Text TextFacts.

Lemma take_drop n s : take n s +:+ drop n s = s.
Proof.
  revert s. induction n as [|n IH]; intros s.
  - destruct s; reflexivity.
  - destruct s as [|c s]; [reflexivity|].
    cbn [take drop]. rewrite app_cons, IH. reflexivity.
Qed.

(** [name.endsWith(suffix)] *)
Lemma endsWith_spec suffix name :
  endsWith suffix name = true <-> exists a, name = a +:+ suffix.
Proof.
  unfold endsWith. rewrite String.eqb_eq. split.
  - intros H. exists (take (len name - len suffix) name).
    rewrite <- H at 2. symmetry. apply take_drop.
  - intros [a ->]. rewrite len_app.
    replace (len a + len suffix - len suffix)%nat with (len a) by lia.
    apply drop_app.
Qed.

Lemma dirent_nested_ind (Q : dirent -> Prop) :
  (forall name, Q (FileEntry name)) ->
  (forall name entries, Forall Q entries -> Q (DirEntry name entries)) ->
  forall e, Q e.
Proof.
  intros Hfile Hdir. fix IH 1. intros [name|name entries]; [apply Hfile|].
  apply Hdir. revert entries. fix IHl 1.
  intros [|e entries]; constructor; [apply IH | apply IHl].
Qed.

Section Join.

Variable join : string -> string -> string.

(** The recursive call reads the entries of the directory. *)
Lemma walkEntry_dir dir name entries :
  walkEntry join dir (DirEntry name entries) = walk join (join dir name) entries.
Proof.
  cbn [walkEntry]. unfold walk.
  induction entries as [|e entries IH]; [reflexivity|].
  cbn [flat_map]. rewrite <- IH. reflexivity.
Qed.

Lemma walkEntry_file dir name :
  walkEntry join dir (FileEntry name) =
  if endsWith ".html" name then [join dir name] else [].
Proof. reflexivity. Qed.

Local Abbreviation found := (fun (entries : list dirent) (dir p : string) =>
  exists dirs name,
    holdsFile entries dirs name /\ endsWith ".html" name = true /\
    p = join (fold_left join dirs dir) name).

Local Abbreviation entryOk := (fun e : dirent =>
  forall dir p, p ∈ walkEntry join dir e <-> found [e] dir p).

Lemma holdsFile_mono entries entries' dirs name :
  (forall e, e ∈ entries -> e ∈ entries') ->
  holdsFile entries dirs name -> holdsFile entries' dirs name.
Proof.
  intros Hsub H. destruct H as [entries name Hin|entries d sub dirs name Hin Hsubdir].
  - apply holds_here, Hsub, Hin.
  - eapply holds_below; [apply Hsub, Hin | exact Hsubdir].
Qed.

Lemma holdsFile_entry entries dirs name :
  holdsFile entries dirs name ->
  exists e, e ∈ entries /\ holdsFile [e] dirs name.
Proof.
  intros H. destruct H as [entries name Hin|entries d sub dirs name Hin Hsubdir].
  - eexists. split; [exact Hin|]. apply holds_here. left.
  - eexists. split; [exact Hin|]. eapply holds_below; [left | exact Hsubdir].
Qed.

Lemma walk_entries entries :
  Forall entryOk entries ->
  forall dir p, p ∈ walk join dir entries <-> found entries dir p.
Proof.
  intros Hall dir p. unfold walk.
  rewrite ScanMore.elem_of_list_In, in_flat_map. split.
  - intros (e & He & Hp). apply ScanMore.elem_of_list_In in He, Hp.
    rewrite Forall_forall in Hall.
    apply (Hall e He) in Hp as (dirs & name & Hh & Hends & ->).
    exists dirs, name. split; [|auto].
    apply (holdsFile_mono [e]); [|exact Hh].
    intros e' He'. apply list_elem_of_singleton in He'. subst e'. exact He.
  - intros (dirs & name & Hh & Hends & ->).
    apply holdsFile_entry in Hh as (e & He & Hh).
    exists e. split; [apply ScanMore.elem_of_list_In, He|].
    apply ScanMore.elem_of_list_In. rewrite Forall_forall in Hall.
    apply (Hall e He). exists dirs, name. auto.
Qed.

Lemma walkEntry_ok e : entryOk e.
Proof.
  induction e as [name|d sub IH] using dirent_nested_ind; intros dir p.
  - rewrite walkEntry_file. split.
    + destruct (endsWith ".html" name) eqn:E; intros Hp; [|inversion Hp].
      apply list_elem_of_singleton in Hp. subst p.
      exists [], name. split; [apply holds_here; left | auto].
    + intros (dirs & name' & Hh & Hends & ->).
      inversion Hh as [? ? Hin|? ? ? ? ? Hin _]; subst;
        apply list_elem_of_singleton in Hin; [|discriminate Hin].
      injection Hin as ->. rewrite Hends. left.
  - rewrite walkEntry_dir, (walk_entries sub IH). split.
    + intros (dirs & name & Hh & Hends & ->).
      exists (d :: dirs), name. split; [|auto].
      eapply holds_below; [left | exact Hh].
    + intros (dirs & name & Hh & Hends & ->).
      inversion Hh as [? ? Hin|? ? ? ? ? Hin Hsub]; subst;
        apply list_elem_of_singleton in Hin; [discriminate Hin|].
      injection Hin as <- <-. exists dirs0, name. auto.
Qed.

Lemma walk_found entries dir p :
  p ∈ walk join dir entries <-> found entries dir p.
Proof.
  apply walk_entries. apply Forall_forall. intros e _. apply walkEntry_ok.
Qed.

Lemma walkEntry_count e : forall dir, length (walkEntry join dir e) = htmlCount e.
Proof.
  induction e as [name|d sub IH] using dirent_nested_ind; intros dir.
  - rewrite walkEntry_file. cbn [htmlCount].
    destruct (endsWith ".html" name); reflexivity.
  - rewrite walkEntry_dir. cbn [htmlCount]. unfold walk.
    induction IH as [|e sub He _ IHsub]; [reflexivity|].
    cbn [flat_map]. rewrite length_app, He, IHsub. reflexivity.
Qed.

Lemma walk_count entries dir :
  length (walk join dir entries) = list_sum (map htmlCount entries).
Proof.
  unfold walk. induction entries as [|e entries IH]; [reflexivity|].
  cbn [flat_map map]. rewrite length_app, walkEntry_count, IH. reflexivity.
Qed.

End Join.
End WalkMore.

(** X15. The directory walk collects exactly the files, at any depth below
    the directory, whose name ends in [.html], each under the path obtained
    by joining the names of the directories on the way and the name of the
    file; a file is listed once, so the number of paths is the number of
    such files.  When joining keeps the end of a file name, every collected
    path ends in [.html]. *)
Theorem X15_walk_collects_html
        (join : string -> string -> string) (dir : string)
        (entries : list dirent) :
  (forall p, p ∈ walk join dir entries <->
     exists dirs name,
       holdsFile entries dirs name /\ endsWith ".html" name = true /\
       p = join (fold_left join dirs dir) name) /\
  length (walk join dir entries) = list_sum (map htmlCount entries) /\
  ((forall d name, endsWith ".html" name = true ->
                   endsWith ".html" (join d name) = true) ->
   Forall (fun p => endsWith ".html" p = true) (walk join dir entries)).
Proof.
  split; [|split].
  - intros p. apply WalkMore.walk_found.
  - apply WalkMore.walk_count.
  - intros Hjoin. apply Forall_forall. intros p Hp.
    apply WalkMore.walk_found in Hp as (dirs & name & _ & Hends & ->).
    apply Hjoin, Hends.
Qed.

Lemma X15_witness :
  walk slashJoin "dist"
    [FileEntry "index.html"; FileEntry "style.css";
     DirEntry "blog" [FileEntry "post.html"; FileEntry "PAGE.HTML";
                      DirEntry "img" [FileEntry "a.png"]]] =
    ["dist/index.html"; "dist/blog/post.html"] /\
  Forall (fun p => endsWith ".html" p = true)
    (walk slashJoin "dist"
       [FileEntry "index.html"; FileEntry "style.css";
        DirEntry "blog" [FileEntry "post.html"; FileEntry "PAGE.HTML";
                         DirEntry "img" [FileEntry "a.png"]]]).
Proof.
  split; [reflexivity|].
  apply (X15_walk_collects_html slashJoin "dist").
  intros d name H. apply WalkMore.endsWith_spec in H as [a ->].
  apply WalkMore.endsWith_spec. exists (d +:+ "/" +:+ a).
  unfold slashJoin. rewrite !TextFacts.app_assoc. reflexivity.
Defined.

(* ------------------------------------------------------------------ *)
(** ** The scheme of an extracted url and the module that probes it *)
(* ------------------------------------------------------------------ *)

Module SchemeMore.
Import Text TextFacts Regex.

Lemma sameChar_refl a : sameChar a a = true.
Proof. unfold sameChar. apply Ascii.eqb_refl. Qed.

Lemma startsWithCI_refl p s : startsWithCI p (p +:+ s) = true.
Proof.
  induction p as [|a p IH]; [reflexivity|].
  rewrite app_cons. cbn [startsWithCI]. rewrite sameChar_refl, IH. reflexivity.
Qed.

Lemma containsCI_refl p : containsCI p p = true.
Proof.
  pose proof (startsWithCI_refl p "") as H. rewrite app_nil_r in H.
  destruct p; cbn [containsCI]; rewrite H; reflexivity.
Qed.

(** A byte that is no letter is matched by itself only. *)
Lemma sameChar_colon a : sameChar a ":" = true -> a = ":"%char.
Proof.
  destruct a as [[] [] [] [] [] [] [] []]; vm_compute; congruence.
Qed.

Lemma sameChar_slash a : sameChar a "/" = true -> a = "/"%char.
Proof.
  destruct a as [[] [] [] [] [] [] [] []]; vm_compute; congruence.
Qed.

End SchemeMore.

(** X16. Every url the extractor returns for which the checker chooses the
    [https] module begins with [https://] literally.  The extractor reads
    the scheme without regard to case while the checker tests the
    lower-case prefix [https]: a link written [HTTPS://] followed by the
    pattern is extracted, and the checker chooses the [http] module for
    it. *)
Theorem X16_scheme_case (pattern P : string) :
  Regex.parsePattern pattern = Some (Regex.lits P) ->
  quoteFree P = true ->
  (forall html urls,
     extractAffiliateLinks html pattern = Some urls ->
     Forall (fun u => protocolOf u = Https ->
                      Text.startsWith "https://" u = true) urls) /\
  (forall label,
     quoteFree label = true ->
     extractAffiliateLinks (page [("HTTPS://" +:+ P, label)]) pattern =
     Some ["HTTPS://" +:+ P]) /\
  protocolOf ("HTTPS://" +:+ P) = Http.
Proof.
  intros Hparse HP.
  assert (Haffu : isAffiliate P ("HTTPS://" +:+ P) = true).
  { unfold isAffiliate.
    change (Text.drop 3 (dropS (Text.drop 4 ("HTTPS://" +:+ P)))) with P.
    rewrite SchemeMore.containsCI_refl. reflexivity. }
  split; [|split].
  - intros html urls Hx. rewrite (extract_eq _ _ _ Hparse) in Hx.
    injection Hx as <-.
    eapply Forall_impl; [apply (Scan.execLoop_sound P HP (Text.len html)); lia|].
    intros u [_ Haff] Hp. cbv beta in *. unfold protocolOf in Hp.
    destruct (Text.startsWith "https" u) eqn:Hs; [|discriminate].
    apply TextFacts.startsWith_spec in Hs as [t ->].
    unfold isAffiliate in Haff.
    apply andb_prop in Haff as [Haff _]. apply andb_prop in Haff as [_ Haff].
    change (Text.drop 4 ("https" +:+ t)) with (String "s" t) in Haff.
    change (dropS (String "s" t)) with t in Haff.
    destruct t as [|c1 [|c2 [|c3 t]]]; cbn [startsWithCI] in Haff;
      rewrite ?andb_false_r in Haff; try discriminate Haff.
    apply andb_prop in Haff as [H1 Haff]. apply andb_prop in Haff as [H2 Haff].
    apply andb_prop in Haff as [H3 _].
    apply SchemeMore.sameChar_colon in H1.
    apply SchemeMore.sameChar_slash in H2, H3. subst. reflexivity.
  - intros label Hl. rewrite (extract_eq _ _ _ Hparse).
    rewrite (Pages.execLoop_page P HP).
    + cbn [map fst]. rewrite filter_cons, filter_nil.
      destruct (decide (isAffiliate P ("HTTPS://" +:+ P) = true));
        [reflexivity | contradiction].
    + constructor; [|constructor]. split; [|exact Hl]. exact HP.
  - reflexivity.
Qed.

Lemma X16_witness :
  extractAffiliateLinks (page [(upperUrl, "one")]) "aff\.example/x" =
    Some [upperUrl] /\
  protocolOf upperUrl = Http.
Proof.
  destruct (X16_scheme_case "aff\.example/x" "aff.example/x" eq_refl eq_refl)
    as (_ & H2 & H3).
  split; [apply (H2 "one" eq_refl) | exact H3].
Defined.

Module OptionsMore.

Section Run.

Variable net : network.

(** The loop over the urls reads three options. *)
Lemma checkOne_options cfg cfg' ix url bc w :
  timeoutMs cfg' = timeoutMs cfg -> retries cfg' = retries cfg ->
  fallbackUrl cfg' = fallbackUrl cfg ->
  checkOne net cfg' ix url bc w = checkOne net cfg ix url bc w.
Proof. intros Ht Hr Hf. unfold checkOne. rewrite Ht, Hr, Hf. reflexivity. Qed.

Lemma checkAll_options cfg cfg' ix urls :
  timeoutMs cfg' = timeoutMs cfg -> retries cfg' = retries cfg ->
  fallbackUrl cfg' = fallbackUrl cfg ->
  forall rs bc w,
    checkAll net cfg' ix urls rs bc w = checkAll net cfg ix urls rs bc w.
Proof.
  intros Ht Hr Hf. induction urls as [|url more IH]; intros rs bc w;
    [reflexivity|].
  cbn [checkAll]. unfold bind. rewrite (checkOne_options cfg cfg') by assumption.
  destruct (checkOne net cfg ix url bc w) as [[step w1]|]; [apply IH | reflexivity].
Qed.

End Run.
End OptionsMore.

(** X17. The option [checkExternal] is never read: a run with it set does
    what the run without it does. *)
Theorem X17_checkExternal_unused
        (net : network) (htmlFiles : list string)
        (i : inputs) (flag : option bool) (w : world) :
  onPostBuild net htmlFiles
    (Inputs (in_affiliatePattern i) (in_fallbackUrl i) (in_fallbackLabel i)
            (in_timeoutMs i) (in_retries i) (in_failOnBroken i) flag) w =
  onPostBuild net htmlFiles i w.
Proof.
  destruct i as [pat fb label t r fail ext]. cbn [in_affiliatePattern
    in_fallbackUrl in_fallbackLabel in_timeoutMs in_retries in_failOnBroken].
  unfold onPostBuild.
  set (cfg := mergeConfig DEFAULTS (Inputs pat fb label t r fail ext)).
  set (cfg' := mergeConfig DEFAULTS (Inputs pat fb label t r fail flag)).
  change (affiliatePattern cfg') with (affiliatePattern cfg).
  change (failOnBroken cfg') with (failOnBroken cfg).
  destruct (Regex.parsePattern (affiliatePattern cfg)); [|reflexivity].
  unfold bind at 1 3.
  destruct (scanFiles _ _ _ w) as [[ix w1]|]; [|reflexivity].
  destruct (allUrls ix) as [|url more]; [reflexivity|].
  unfold bind.
  rewrite (OptionsMore.checkAll_options net cfg cfg') by reflexivity.
  reflexivity.
Qed.

(* ------------------------------------------------------------------ *)
(** ** Links and the quoted segments of a text *)
(* ------------------------------------------------------------------ *)

Module Segments.
Import Text TextFacts Regex RegexFacts Scan Pages QuotedText.

Lemma tokenize_quoteFree x : quoteFree x = true -> tokenize x = ([], x).
Proof.
  induction x as [|c x IH]; intros Hx; [reflexivity|].
  cbn [quoteFree] in Hx. apply andb_prop in Hx as [Hc Hx].
  apply negb_true_iff in Hc. cbn [tokenize]. rewrite (IH Hx), Hc. reflexivity.
Qed.

Lemma tokenize_segment g q rest :
  quoteFree g = true -> isQuote q = true ->
  tokenize (g +:+ String q rest) =
  ((g, q) :: (tokenize rest).1, (tokenize rest).2).
Proof.
  intros Hg Hq. induction g as [|c g IH].
  - rewrite app_nil_l. cbn [tokenize]. destruct (tokenize rest). rewrite Hq.
    reflexivity.
  - cbn [quoteFree] in Hg. apply andb_prop in Hg as [Hc Hg].
    apply negb_true_iff in Hc. rewrite app_cons. cbn [tokenize].
    rewrite (IH Hg), Hc. reflexivity.
Qed.

(** Well-formed items: quote-free segments, each closed by a quote. *)
Local Abbreviation wfItems := (fun items : list (string * ascii) =>
  Forall (fun it => quoteFree it.1 = true /\ isQuote it.2 = true) items).

Lemma tokenize_wf t :
  wfItems (tokenize t).1 /\ quoteFree (tokenize t).2 = true.
Proof.
  induction t as [|c t [IHi IHl]]; [split; [constructor | reflexivity]|].
  cbn [tokenize]. destruct (tokenize t) as [items last]. cbn [fst snd] in *.
  destruct (isQuote c) eqn:E; cbn [fst snd].
  - split; [|exact IHl]. constructor; [|exact IHi]. cbn [fst snd]. auto.
  - destruct items as [|[g q] items]; cbn [fst snd].
    + split; [constructor|]. cbn [quoteFree]. rewrite E, IHl. reflexivity.
    + split; [|exact IHl]. inversion IHi as [|? ? [Hg Hq] Hrest]; subst.
      constructor; [|exact Hrest]. cbn [fst snd] in *. split; [|exact Hq].
      cbn [quoteFree]. rewrite E, Hg. reflexivity.
Qed.

Lemma tokenize_render items last :
  wfItems items -> quoteFree last = true ->
  tokenize (render items last) = (items, last).
Proof.
  intros Hwf Hl. induction Hwf as [|[g q] items [Hg Hq] _ IH].
  - apply tokenize_quoteFree, Hl.
  - cbn [render fst snd] in *. rewrite (tokenize_segment _ _ _ Hg Hq), IH.
    reflexivity.
Qed.

Lemma startsWithCI_len p s : startsWithCI p s = true -> (len p <= len s)%nat.
Proof.
  revert s. induction p as [|a p IH]; intros s H; [cbn; lia|].
  destruct s as [|b s]; [discriminate|]. cbn [startsWithCI] in H.
  apply andb_prop in H as [_ H]. apply IH in H. cbn [String.length]. lia.
Qed.

Lemma endsHref_short g : (len g < 5)%nat -> endsHref g = false.
Proof.
  intros H. unfold endsHref.
  destruct (startsWithCI "href=" (drop (len g - 5) g)) eqn:E; [|reflexivity].
  apply startsWithCI_len in E. pose proof (len_drop (len g - 5) g).
  cbn [String.length] in E. lia.
Qed.

Lemma endsHref_five g : len g = 5%nat -> endsHref g = startsWithCI "href=" g.
Proof. intros H. unfold endsHref. rewrite H. reflexivity. Qed.

Lemma endsHref_long c g : (5 <= len g)%nat -> endsHref (String c g) = endsHref g.
Proof.
  intros H. unfold endsHref. cbn [String.length].
  replace (S (len g) - 5)%nat with (S (len g - 5)) by lia. reflexivity.
Qed.

Section Pattern.

Variable P : string.
Hypothesis P_quoteFree : quoteFree P = true.

Local Abbreviation re := (template (lits P)).

(** A link at the five characters in front of a quote. *)
Lemma linkAt_five h q rest :
  len h = 5%nat -> isQuote q = true ->
  linkAt P (h +:+ String q rest) =
  if startsWithCI "href=" h && isAffiliate P (value rest)
  then match afterValue rest with
       | String _ r => Some (value rest, r)
       | EmptyString => None
       end
  else None.
Proof.
  intros Hlen Hq.
  destruct h as [|c1 [|c2 [|c3 [|c4 [|c5 [|c6 h]]]]]]; try discriminate Hlen.
  rewrite !app_cons, app_nil_l. unfold linkAt. cbn [startsWithCI drop].
  rewrite Hq. cbn [andb].
  destruct (sameChar c1 "h" && (sameChar c2 "r" && (sameChar c3 "e" &&
            (sameChar c4 "f" && (sameChar c5 "=" && true)))));
    [|reflexivity].
  cbn [andb]. reflexivity.
Qed.

Lemma findLink_short g q rest :
  quoteFree g = true -> isQuote q = true -> (len g < 5)%nat ->
  findLink P (g +:+ String q rest) = findLink P rest.
Proof.
  intros Hg Hq Hlen. induction g as [|c g IH].
  - rewrite app_nil_l. cbn [findLink].
    pose proof (linkAt_none_before_quote P "" q rest eq_refl Hq) as H0.
    rewrite app_nil_l in H0. rewrite H0; [reflexivity|].
    left. cbn. lia.
  - rewrite app_cons. cbn [findLink]. rewrite <- app_cons.
    rewrite (linkAt_none_before_quote P _ q rest Hg Hq);
      [|left; cbn [String.length] in *; lia].
    apply IH.
    + cbn [quoteFree] in Hg. apply andb_prop in Hg as [_ Hg]. exact Hg.
    + cbn [String.length] in Hlen. lia.
Qed.

(** The search across one segment and its quote. *)
Lemma findLink_boundary g q rest :
  quoteFree g = true -> isQuote q = true ->
  findLink P (g +:+ String q rest) =
  match (if endsHref g && isAffiliate P (value rest)
         then afterValue rest else EmptyString) with
  | String _ r => Some (value rest, r)
  | EmptyString => findLink P rest
  end.
Proof.
  intros Hg Hq. induction g as [|c g IH].
  - rewrite (endsHref_short ""); [|cbn; lia]. cbn [andb].
    apply (findLink_short "" q rest eq_refl Hq). cbn. lia.
  - assert (Hg' : quoteFree g = true).
    { cbn [quoteFree] in Hg. apply andb_prop in Hg as [_ Hg]. exact Hg. }
    destruct (Nat.lt_trichotomy (len (String c g)) 5) as [Hlt|[Heq|Hgt]].
    + rewrite (endsHref_short _ Hlt). cbn [andb].
      apply (findLink_short _ q rest Hg Hq Hlt).
    + rewrite (endsHref_five _ Heq).
      rewrite app_cons. cbn [findLink]. rewrite <- app_cons.
      rewrite (linkAt_five _ q rest Heq Hq).
      assert (Hshort : findLink P (g +:+ String q rest) = findLink P rest).
      { apply (findLink_short g q rest Hg' Hq). cbn [String.length] in Heq. lia. }
      destruct (startsWithCI "href=" (String c g) && isAffiliate P (value rest));
        [|exact Hshort].
      destruct (afterValue rest); [exact Hshort | reflexivity].
    + rewrite endsHref_long by (cbn [String.length] in Hgt; lia).
      rewrite app_cons. cbn [findLink]. rewrite <- app_cons.
      rewrite (linkAt_none_before_quote P _ q rest Hg Hq); [|left; lia].
      apply IH, Hg'.
Qed.

(** The extractor reads the links off the segments. *)
Lemma execLoop_render n :
  forall items last,
    (length items <= n)%nat -> wfItems items -> quoteFree last = true ->
    execLoop (S (len (render items last))) re (render items last) =
    linksIn P items.
Proof.
  induction n as [|n IH]; intros items last Hn Hwf Hl.
  - destruct items; [|cbn in Hn; lia]. cbn [render linksIn].
    rewrite (execLoop_unfold P P_quoteFree), (findLink_quoteFree P _ Hl).
    reflexivity.
  - destruct items as [|[g0 q0] [|[g1 q1] rest]].
    + cbn [render linksIn].
      rewrite (execLoop_unfold P P_quoteFree), (findLink_quoteFree P _ Hl).
      reflexivity.
    + inversion Hwf as [|? ? [Hg0 Hq0] _]; subst. cbn [fst snd] in *.
      cbn [render linksIn].
      rewrite (execLoop_unfold P P_quoteFree), (findLink_boundary _ _ _ Hg0 Hq0).
      destruct (value_of_quoteFree _ Hl) as [-> ->].
      rewrite (findLink_quoteFree P _ Hl).
      destruct (endsHref g0 && isAffiliate P last); reflexivity.
    + inversion Hwf as [|? ? [Hg0 Hq0] Hwf1]; subst.
      inversion Hwf1 as [|? ? [Hg1 Hq1] Hwf2]; subst. cbn [fst snd] in *.
      cbn [linksIn].
      change (render ((g0, q0) :: (g1, q1) :: rest) last)
        with (g0 +:+ String q0 (render ((g1, q1) :: rest) last)).
      rewrite (execLoop_unfold P P_quoteFree), (findLink_boundary _ _ _ Hg0 Hq0).
      cbn [render].
      destruct (value_app g1 q1 (render rest last) Hg1 Hq1) as [-> ->].
      destruct (endsHref g0 && isAffiliate P g1).
      * f_equal. apply IH; [cbn [length] in Hn; lia | exact Hwf2 | exact Hl].
      * rewrite <- (execLoop_unfold P P_quoteFree).
        apply (IH ((g1, q1) :: rest) last);
          [cbn [length] in *; lia | exact Hwf1 | exact Hl].
Qed.

Lemma execLoop_tokens t :
  execLoop (S (len t)) re t = linksIn P (tokenize t).1.
Proof.
  destruct (tokenize_wf t) as [Hwf Hl].
  rewrite <- (render_tokenize t) at 1 2.
  apply (execLoop_render (length (tokenize t).1)); auto.
Qed.

End Pattern.
End Segments.

(* ------------------------------------------------------------------ *)
(** ** The repair of a text, segment by segment *)
(* ------------------------------------------------------------------ *)

Module Repair.
Import Text TextFacts Regex RegexFacts QuotedText Segments SiteRun.

Lemma linksIn_skip P g q tail :
  endsHref g = false -> linksIn P ((g, q) :: tail) = linksIn P tail.
Proof.
  intros H. destruct tail as [|[g1 q1] rest]; [reflexivity|].
  cbn [linksIn]. rewrite H. reflexivity.
Qed.

Lemma linksIn_cons2 P g0 q0 g1 q1 rest :
  linksIn P ((g0, q0) :: (g1, q1) :: rest) =
  if endsHref g0 && isAffiliate P g1 then g1 :: linksIn P rest
  else linksIn P ((g1, q1) :: rest).
Proof. reflexivity. Qed.

Lemma healAll_nil fb g : healAll [] fb g = g.
Proof. reflexivity. Qed.

Lemma segments_heal D fb items last :
  segments (map (healAllItem D fb) items, healAll D fb last) =
  map (healAll D fb) (segments (items, last)).
Proof.
  unfold segments. cbn [fst snd]. rewrite map_app, !map_map. reflexivity.
Qed.

Lemma repairedText_nil fb t : repairedText [] fb t = t.
Proof.
  unfold repairedText. rewrite healAll_nil.
  replace (map (healAllItem [] fb) (tokenize t).1) with (tokenize t).1.
  - apply render_tokenize.
  - induction (tokenize t).1 as [|[g q] l IH]; [reflexivity|].
    cbn [map]. rewrite <- IH. reflexivity.
Qed.

Section Fallback.

Variables (P fb : string).
Hypothesis fb_quoteFree : quoteFree fb = true.
Hypothesis fb_plain : containsCI P fb = false.
Hypothesis fb_href : endsHref fb = false.

Lemma fb_not_affiliate : isAffiliate P fb = false.
Proof.
  destruct (isAffiliate P fb) eqn:E; [|reflexivity].
  apply isAffiliate_contains in E. congruence.
Qed.

(** The fallback holds no affiliate url. *)
Lemma fb_clean U : isAffiliate P U = true -> includes U fb = false.
Proof.
  intros HU. destruct (includes U fb) eqn:E; [|reflexivity].
  apply (includes_containsCI P) in E; [congruence|].
  apply isAffiliate_contains, HU.
Qed.

Lemma fb_differs U : isAffiliate P U = true -> fb <> U.
Proof.
  intros HU E. rewrite <- E, fb_not_affiliate in HU. discriminate.
Qed.

Lemma wf_heal D items :
  Forall (fun it : string * ascii =>
            quoteFree it.1 = true /\ isQuote it.2 = true) items ->
  Forall (fun it : string * ascii =>
            quoteFree it.1 = true /\ isQuote it.2 = true)
         (map (healAllItem D fb) items).
Proof.
  intros H. induction H as [|[g q] items [Hg Hq] _ IH]; [constructor|].
  cbn [map]. constructor; [|exact IH]. cbn [healAllItem fst snd].
  split; [|exact Hq]. unfold healAll. destruct (bool_decide _); assumption.
Qed.

Lemma tokenize_repaired D t :
  tokenize (repairedText D fb t) =
  (map (healAllItem D fb) (tokenize t).1, healAll D fb (tokenize t).2).
Proof.
  destruct (tokenize_wf t) as [Hwf Hl]. unfold repairedText.
  apply tokenize_render; [apply wf_heal, Hwf|].
  unfold healAll. destruct (bool_decide _); assumption.
Qed.

(** The links of a repaired text: the links of the text that were not
    repaired. *)
Lemma linksIn_heal D :
  (forall U, U ∈ D -> isAffiliate P U = true /\ endsHref U = false) ->
  forall n items,
    (length items <= n)%nat ->
    linksIn P (map (healAllItem D fb) items) =
    filter (fun u => u ∉ D) (linksIn P items).
Proof.
  intros HD. induction n as [|n IH]; intros items Hn.
  - destruct items; [reflexivity | cbn in Hn; lia].
  - destruct items as [|[g0 q0] [|[g1 q1] rest]]; [reflexivity | reflexivity |].
    assert (Htail : linksIn P (map (healAllItem D fb) ((g1, q1) :: rest)) =
                    filter (fun u => u ∉ D) (linksIn P ((g1, q1) :: rest)))
      by (apply IH; cbn [length] in *; lia).
    assert (Hrest : linksIn P (map (healAllItem D fb) rest) =
                    filter (fun u => u ∉ D) (linksIn P rest))
      by (apply IH; cbn [length] in *; lia).
    change (map (healAllItem D fb) ((g0, q0) :: (g1, q1) :: rest))
      with ((healAll D fb g0, q0) :: (healAll D fb g1, q1) ::
            map (healAllItem D fb) rest).
    change (map (healAllItem D fb) ((g1, q1) :: rest))
      with ((healAll D fb g1, q1) :: map (healAllItem D fb) rest) in Htail.
    rewrite !linksIn_cons2.
    unfold healAll. unfold healAll in Htail.
    destruct (bool_decide_reflect (g0 ∈ D)) as [H0|H0].
    + destruct (HD _ H0) as [_ Hh0]. rewrite fb_href, Hh0. cbn [andb].
      exact Htail.
    + destruct (bool_decide_reflect (g1 ∈ D)) as [H1|H1].
      * destruct (HD _ H1) as [Ha1 Hh1]. rewrite fb_not_affiliate, andb_false_r.
        rewrite (linksIn_skip P fb q1 _ fb_href) in Htail |- *.
        rewrite Ha1, andb_true_r.
        destruct (endsHref g0).
        -- rewrite filter_cons. destruct (decide (g1 ∉ D)); [contradiction|].
           exact Hrest.
        -- rewrite (linksIn_skip P g1 q1 _ Hh1). exact Hrest.
      * destruct (endsHref g0 && isAffiliate P g1).
        -- rewrite filter_cons. destruct (decide (g1 ∉ D)); [|contradiction].
           f_equal. exact Hrest.
        -- exact Htail.
Qed.

Lemma links_repaired D t :
  (forall U, U ∈ D -> isAffiliate P U = true /\ endsHref U = false) ->
  linksIn P (tokenize (repairedText D fb t)).1 =
  filter (fun u => u ∉ D) (linksIn P (tokenize t).1).
Proof.
  intros HD. rewrite tokenize_repaired. cbn [fst].
  apply (linksIn_heal D HD (length (tokenize t).1)). lia.
Qed.

Section OneUrl.

Variables (c : ascii) (u : string).
Hypothesis U_quoteFree : quoteFree (String c u) = true.
Hypothesis U_affiliate : isAffiliate P (String c u) = true.

Local Abbreviation U := (String c u).

Lemma heal_compose D g :
  healSegment U fb (healAll D fb g) = healAll (D ++ [U]) fb g.
Proof.
  unfold healSegment, healAll.
  destruct (bool_decide_reflect (g ∈ D)) as [HD|HD].
  - destruct (String.eqb_spec fb U) as [E|_];
      [destruct (fb_differs _ U_affiliate E)|].
    rewrite bool_decide_eq_true_2; [reflexivity|].
    apply elem_of_app. left. exact HD.
  - destruct (String.eqb_spec g U) as [->|Hne].
    + rewrite bool_decide_eq_true_2; [reflexivity|].
      apply elem_of_app. right. left.
    + rewrite bool_decide_eq_false_2; [reflexivity|].
      intros H. apply elem_of_app in H as [H|H]; [contradiction|].
      apply list_elem_of_singleton in H. contradiction.
Qed.

Lemma wholeValues_repaired D t :
  wholeValuesOnly U t = true -> wholeValuesOnly U (repairedText D fb t) = true.
Proof.
  unfold wholeValuesOnly. rewrite tokenize_repaired, segments_heal.
  rewrite !forallb_forall. intros H g Hg.
  apply in_map_iff in Hg as (g0 & <- & Hg0). unfold healAll.
  destruct (bool_decide _); [|apply H, Hg0].
  rewrite (fb_clean _ U_affiliate). apply orb_true_r.
Qed.

(** One replacement of [U] in a text repaired for [D]. *)
Lemma repairedText_step D t :
  wholeValuesOnly U t = true ->
  replaceAll U fb (repairedText D fb t) = repairedText (D ++ [U]) fb t.
Proof.
  intros Hw. pose proof (wholeValues_repaired D t Hw) as Hw'.
  unfold wholeValuesOnly in Hw'. rewrite tokenize_repaired in Hw'.
  destruct (tokenize_wf t) as [Hwf Hl].
  unfold repairedText at 1.
  rewrite (replaceAll_render c u U_quoteFree fb); [| |exact Hw'].
  - unfold repairedText. rewrite heal_compose. f_equal.
    rewrite map_map. apply map_ext. intros [g q].
    unfold healItem, healAllItem. cbn [fst snd]. rewrite heal_compose.
    reflexivity.
  - eapply Forall_impl; [apply (wf_heal D _ Hwf)|]. intros it [_ H]. exact H.
Qed.

Lemma includes_repaired D t :
  wholeValuesOnly U t = true -> U ∈ D ->
  includes U (repairedText D fb t) = false.
Proof.
  intros Hw HU. destruct (tokenize_wf t) as [Hwf Hl]. unfold repairedText.
  rewrite (includes_render c u U_quoteFree).
  - rewrite segments_heal. apply not_true_is_false. intros H.
    apply existsb_exists in H as (g & Hin & Hg).
    apply in_map_iff in Hin as (g0 & <- & Hg0).
    unfold wholeValuesOnly in Hw. rewrite forallb_forall in Hw.
    specialize (Hw _ Hg0). unfold healAll in Hg.
    destruct (bool_decide_reflect (g0 ∈ D)) as [HD|HD].
    + rewrite (fb_clean _ U_affiliate) in Hg. discriminate.
    + destruct (String.eqb_spec g0 U) as [Heq|Hne];
        [rewrite Heq in HD; contradiction|].
      cbn [orb] in Hw. rewrite Hg in Hw. discriminate.
  - eapply Forall_impl; [apply (wf_heal D _ Hwf)|]. intros it [_ H]. exact H.
Qed.

(** The file of a broken url is rewritten once for each of its links to
    the url: the first replacement repairs it, the others change nothing. *)
Lemma repair_iter D t k :
  wholeValuesOnly U t = true -> (1 <= k)%nat ->
  Nat.iter k (replaceAll U fb) (repairedText D fb t) =
  repairedText (D ++ [U]) fb t.
Proof.
  intros Hw Hk. destruct k as [|k]; [lia|]. clear Hk.
  induction k as [|k IH].
  - cbn [Nat.iter nat_rect]. apply repairedText_step, Hw.
  - change (Nat.iter (S (S k)) (replaceAll U fb) (repairedText D fb t))
      with (replaceAll U fb (Nat.iter (S k) (replaceAll U fb) (repairedText D fb t))).
    rewrite IH. apply replaceAll_absent, includes_repaired; [exact Hw|].
    apply elem_of_app. right. left.
Qed.

End OneUrl.
End Fallback.
End Repair.

(* ------------------------------------------------------------------ *)
(** ** A run on a network without memory, and the run after it *)
(* ------------------------------------------------------------------ *)

Module SecondRun.
Import Text Regex IndexFacts SiteRun.

(** On a network without memory an entry is broken exactly when its url
    is. *)
Lemma checkOne_stateless refuse answer cfg ix U bc w e bc1 w1 :
  0 <= retries cfg ->
  checkOne (stateless refuse answer) cfg ix U bc w = Some ((e, bc1), w1) ->
  e_url e = U /\ e_ok e = negb (broken answer U).
Proof.
  intros Hret. unfold checkOne, bind.
  destruct (refuse (protocolOf U) U (timeoutMs cfg)) eqn:Hacc.
  - rewrite (CheckerMore.checkUrlWithRetry_refused (stateless refuse answer)
               U _ _ w Hacc Hret). discriminate.
  - destruct (checkUrlWithRetry_stateless refuse answer U (timeoutMs cfg)
                (retries cfg) w Hacc Hret) as (w' & -> & _).
    destruct (urlFileMap ix !! U) as [paths|]; [|discriminate].
    unfold broken. rewrite negb_involutive.
    destruct (ok (resolveWith (answer U))) eqn:Hok; cbn [negb].
    + unfold ret. intros [= <- _ _]. cbn [e_url e_ok]. auto.
    + destruct (rewriteFiles _ _ _ w') as [[[] w2]|]; [|discriminate].
      unfold ret. intros [= <- _ _]. cbn [e_url e_ok]. auto.
Qed.

Lemma checkAll_stateless refuse answer cfg ix urls :
  0 <= retries cfg ->
  forall rs bc w rs' bc' w',
    checkAll (stateless refuse answer) cfg ix urls rs bc w =
      Some ((rs', bc'), w') ->
    exists es,
      rs' = rs ++ es /\
      Forall (fun e => e_ok e = negb (broken answer (e_url e))) es.
Proof.
  intros Hret. induction urls as [|U more IH]; intros rs bc w rs' bc' w'.
  - intros [= <- _ _]. exists []. rewrite List.app_nil_r. auto.
  - cbn [checkAll]. unfold bind at 1.
    destruct (checkOne _ cfg ix U bc w) as [[[e bc1] w1]|] eqn:Hone;
      [|discriminate].
    cbn [fst snd]. intros Hall.
    apply (checkOne_stateless _ _ _ _ _ _ _ _ _ _ Hret) in Hone as [Hu Hok].
    apply IH in Hall as (es & -> & Hes).
    exists (e :: es). rewrite <- List.app_assoc. split; [reflexivity|].
    constructor; [congruence | exact Hes].
Qed.

Lemma onPostBuild_stateless refuse answer htmlFiles i w rep w' :
  onPostBuild (stateless refuse answer) htmlFiles i w = Some (rep, w') ->
  Forall (fun e => e_ok e = negb (broken answer (e_url e))) (results rep).
Proof.
  intros H.
  destruct (RunMore.onPostBuild_returns _ _ _ _ _ H) as (_ & Hex & Hcase).
  unfold onPostBuild in H.
  set (cfg := mergeConfig DEFAULTS i) in *.
  destruct (Regex.parsePattern (affiliatePattern cfg)) as [pat|] eqn:Hpat;
    [|discriminate].
  unfold bind at 1 in H.
  rewrite (ScanMore.scanFiles_any _ _ _ (ex_intro _ pat Hpat) Hex) in H.
  destruct Hcase as [[Hret _]|Hnone].
  - destruct (allUrls _) as [|U more]; [injection H as <- _; constructor|].
    unfold bind in H.
    destruct (checkAll _ cfg _ (U :: more) [] 0%nat w) as [[[rs bc] w2]|] eqn:Hall;
      [|discriminate].
    apply (checkAll_stateless _ _ _ _ _ Hret) in Hall as (es & -> & Hes).
    cbn [fst snd app] in H.
    destruct (failOnBroken cfg && _); injection H as <- _; exact Hes.
  - rewrite Hnone in H. cbn in H. injection H as <- _. constructor.
Qed.

(** A run over files without affiliate links. *)
Lemma onPostBuild_nothing (net : network) htmlFiles i w rep w' :
  onPostBuild net htmlFiles i w = Some (rep, w') ->
  occurrencesIn (affiliatePattern (mergeConfig DEFAULTS i)) w htmlFiles = [] ->
  rep = Report [] 0 None /\ w' = w.
Proof.
  intros H Hnone.
  destruct (RunMore.onPostBuild_returns _ _ _ _ _ H) as (_ & Hex & _).
  unfold onPostBuild in H.
  set (cfg := mergeConfig DEFAULTS i) in *.
  destruct (Regex.parsePattern (affiliatePattern cfg)) as [pat|] eqn:Hpat;
    [|discriminate].
  unfold bind at 1 in H.
  rewrite (ScanMore.scanFiles_any _ _ _ (ex_intro _ pat Hpat) Hex) in H.
  rewrite Hnone in H. cbn in H. injection H as <- <-. auto.
Qed.

Section Site.

Variables (refuse : transport -> string -> Z -> bool)
          (answer : string -> probe_event).
Variables (P : string) (htmlFiles : list string) (i : inputs) (w0 : world).

Local Abbreviation cfg := (mergeConfig DEFAULTS i).
Local Abbreviation pattern := (affiliatePattern (mergeConfig DEFAULTS i)).
Local Abbreviation fb := (fallbackUrl (mergeConfig DEFAULTS i)).
Local Abbreviation net := (stateless refuse answer).
Local Abbreviation links := (linksOf pattern w0).
Local Abbreviation occ := (occurrencesIn pattern w0 htmlFiles).
Local Abbreviation ix := (indexOf occ (Index ∅ [])).

Hypothesis pattern_literal : parsePattern pattern = Some (lits P).
Hypothesis P_quoteFree : quoteFree P = true.
Hypothesis fb_quoteFree : quoteFree fb = true.
Hypothesis fb_plain : containsCI P fb = false.
Hypothesis fb_href : endsHref fb = false.
Hypothesis broken_whole :
  forall F F' U t,
    F ∈ htmlFiles -> F' ∈ htmlFiles -> U ∈ links F' ->
    broken answer U = true -> files w0 !! F = Some t ->
    wholeValuesOnly U t = true.
Hypothesis broken_href :
  forall F U,
    F ∈ htmlFiles -> U ∈ links F -> broken answer U = true ->
    endsHref U = false.

(** The links of a file that exists: read off its segments. *)
Lemma linksOf_tokens w F t :
  files w !! F = Some t -> linksOf pattern w F = linksIn P (tokenize t).1.
Proof.
  intros H. unfold linksOf. rewrite H, (extract_eq _ _ _ pattern_literal).
  cbn [default]. apply (Segments.execLoop_tokens P P_quoteFree).
Qed.

Lemma links_sound F U :
  U ∈ links F -> quoteFree U = true /\ isAffiliate P U = true.
Proof.
  unfold linksOf. destruct (files w0 !! F) as [t|]; [|intros H; inversion H].
  rewrite (extract_eq _ _ _ pattern_literal). cbn [default]. intros H.
  pose proof (Scan.execLoop_sound P P_quoteFree (len t) t (le_n _)) as Hs.
  rewrite Forall_forall in Hs. apply Hs, H.
Qed.

Lemma links_listed F U : F ∈ htmlFiles -> U ∈ links F -> U ∈ allUrls ix.
Proof.
  intros HF HU. apply indexOf_allUrls. right.
  apply ScanMore.occurrencesIn_urls. eauto.
Qed.

(** The files after the urls in [done] were probed. *)
Local Abbreviation Inv := (fun (done : list string) (w : world) =>
  forall F, F ∈ htmlFiles ->
    exists t, files w0 !! F = Some t /\
              files w !! F =
              Some (repairedText (repairedIn answer (links F) done) fb t)).

Lemma repairedIn_snoc ls done U :
  repairedIn answer ls (done ++ [U]) =
  repairedIn answer ls done ++
  (if decide (broken answer U = true /\ U ∈ ls) then [U] else []).
Proof.
  unfold repairedIn. rewrite filter_app, filter_cons, filter_nil.
  reflexivity.
Qed.

Lemma Inv_start : allExist w0 htmlFiles -> Inv [] w0.
Proof.
  intros Hex F HF. unfold allExist in Hex. rewrite Forall_forall in Hex.
  destruct (Hex F HF) as [t Ht]. exists t. split; [exact Ht|].
  rewrite Ht. f_equal. symmetry. apply Repair.repairedText_nil.
Qed.

Lemma Inv_exist done w : Inv done w -> allExist w htmlFiles.
Proof.
  intros HI. apply Forall_forall. intros F HF.
  destruct (HI F HF) as (t & _ & ->). eauto.
Qed.

Hypothesis retries_nonneg : 0 <= retries cfg.
Hypothesis accepted : allAccepted net (timeoutMs cfg) (map snd occ).

(** One round of the loop keeps the files repaired for the urls probed so
    far. *)
Lemma round_repairs done U bc w e bc1 w1 :
  Inv done w -> U ∈ allUrls ix ->
  checkOne net cfg ix U bc w = Some ((e, bc1), w1) ->
  Inv (done ++ [U]) w1.
Proof.
  intros HI HU Hone.
  assert (Hacc : refuses net (protocolOf U) U (timeoutMs cfg) = false).
  { unfold allAccepted in accepted. rewrite Forall_forall in accepted.
    apply accepted. apply indexOf_allUrls in HU as [HU|HU];
      [inversion HU | exact HU]. }
  pose proof (indexOf_lookup _ _ HU) as Hpaths.
  set (paths := map fst (filter (fun o : string * string => o.2 = U) occ)) in *.
  assert (Hex : allExist w paths).
  { apply Forall_forall. intros f Hf.
    apply ScanMore.occurrencesIn_paths in Hf as [Hf _].
    destruct (HI f Hf) as (t & _ & ->). eauto. }
  destruct (RunMore.checkOne_any net cfg ix U paths bc w Hacc retries_nonneg
              Hpaths Hex)
    as (e' & w1' & d & Hone' & _ & _ & _ & Hok & _ & _ & Hfiles & _).
  rewrite Hone in Hone'. injection Hone' as <- _ <-.
  assert (Hok' : e_ok e = negb (broken answer U)).
  { rewrite Hok. unfold broken. rewrite negb_involutive. reflexivity. }
  intros F HF. destruct (HI F HF) as (t & Ht0 & Ht). exists t.
  split; [exact Ht0|]. rewrite Hfiles, Ht, repairedIn_snoc.
  destruct (e_ok e) eqn:He.
  - symmetry in Hok'. apply negb_true_iff in Hok'.
    destruct (decide (broken answer U = true /\ U ∈ links F)) as [[Hb _]|_];
      [congruence|].
    rewrite List.app_nil_r. reflexivity.
  - symmetry in Hok'. apply negb_false_iff in Hok'.
    cbn [fmap option_fmap option_map]. f_equal.
    unfold paths. rewrite ScanMore.listings_occurrences.
    destruct (decide (broken answer U = true /\ U ∈ links F)) as [[_ Hin]|Hout].
    + destruct (links_sound F U Hin) as [HUq HUa].
      destruct (isAffiliate_head _ _ HUa) as (c & u & -> & _).
      apply Repair.repair_iter with (P := P);
        [exact fb_quoteFree | exact fb_plain | exact fb_href | exact HUq
        | exact HUa | |].
      * apply (broken_whole F F _ t HF HF Hin Hok' Ht0).
      * pose proof (RewriteMore.listings_pos _ _ HF).
        pose proof (RewriteMore.listings_pos _ _ Hin). nia.
    + rewrite (RewriteMore.listings_zero U (links F)).
      * rewrite Nat.mul_0_r, List.app_nil_r. reflexivity.
      * intros Hin. apply Hout. auto.
Qed.

Lemma loop_repairs urls :
  forall done rs bc w r w',
    Inv done w -> (forall U, U ∈ urls -> U ∈ allUrls ix) ->
    checkAll net cfg ix urls rs bc w = Some (r, w') ->
    Inv (done ++ urls) w'.
Proof.
  induction urls as [|U more IH]; intros done rs bc w r w' HI Hsub.
  - intros [= _ <-]. rewrite List.app_nil_r. exact HI.
  - cbn [checkAll]. unfold bind at 1.
    destruct (checkOne net cfg ix U bc w) as [[[e bc1] w1]|] eqn:Hone;
      [|discriminate].
    intros Hall.
    replace (done ++ U :: more) with ((done ++ [U]) ++ more)
      by (rewrite <- List.app_assoc; reflexivity).
    eapply IH; [|intros V HV; apply Hsub; right; exact HV | exact Hall].
    eapply round_repairs; [exact HI | apply Hsub; left | exact Hone].
Qed.

(** After the first run every file is repaired for its broken urls. *)
Lemma first_run_repairs rep1 w1 :
  onPostBuild net htmlFiles i w0 = Some (rep1, w1) ->
  Inv (allUrls ix) w1.
Proof.
  intros H.
  destruct (RunMore.onPostBuild_returns _ _ _ _ _ H) as (_ & Hex & _).
  unfold onPostBuild in H. rewrite pattern_literal in H.
  unfold bind at 1 in H.
  rewrite (ScanMore.scanFiles_any _ _ _
             (ex_intro _ _ pattern_literal) Hex) in H.
  destruct (allUrls ix) as [|U more] eqn:Hurls.
  - injection H as _ <-. apply Inv_start, Hex.
  - unfold bind in H.
    destruct (checkAll net cfg ix (U :: more) [] 0%nat w0)
      as [[r w']|] eqn:Hall; [|discriminate].
    assert (w1 = w') as ->.
    { destruct (failOnBroken cfg && _) in H; injection H as _ <-; reflexivity. }
    apply (loop_repairs (U :: more) [] [] 0%nat w0 r w');
      [apply Inv_start, Hex | | exact Hall].
    intros V HV. rewrite Hurls. exact HV.
Qed.

(** The links of a repaired site: the healthy links of the site. *)
Lemma repaired_links w1 F u :
  Inv (allUrls ix) w1 -> F ∈ htmlFiles ->
  u ∈ linksOf pattern w1 F ->
  u ∈ links F /\ broken answer u = false.
Proof.
  intros HI HF Hu. destruct (HI F HF) as (t & Ht0 & Ht1).
  rewrite (linksOf_tokens _ _ _ Ht1) in Hu.
  rewrite (Repair.links_repaired P fb fb_quoteFree fb_plain fb_href) in Hu.
  - rewrite <- (linksOf_tokens _ _ _ Ht0) in Hu.
    apply list_elem_of_filter in Hu as [Hout Hin]. split; [exact Hin|].
    destruct (broken answer u) eqn:Hb; [|reflexivity].
    exfalso. apply Hout. unfold repairedIn. apply list_elem_of_filter.
    split; [auto|]. apply (links_listed F u HF Hin).
  - intros U HU. unfold repairedIn in HU.
    apply list_elem_of_filter in HU as [[Hb Hin] _].
    split; [apply (links_sound F U Hin) | apply (broken_href F U HF Hin Hb)].
Qed.

(** The run after a run that returned: it returns, finds only healthy urls
    and leaves the files as they are. *)
Lemma second_run rep1 w1 :
  onPostBuild net htmlFiles i w0 = Some (rep1, w1) ->
  exists rep2 w2,
    onPostBuild net htmlFiles i w1 = Some (rep2, w2) /\
    files w2 = files w1 /\ writes w2 = writes w1 /\
    (forall e, e ∈ results rep2 -> e_ok e = true /\ replaced e = false) /\
    (forall e, e ∈ results rep1 -> replaced e = true ->
               e_url e ∉ map e_url (results rep2)).
Proof.
  intros H1. pose proof (first_run_repairs _ _ H1) as HI.
  assert (Hhealthy : forall u,
            u ∈ map snd (occurrencesIn pattern w1 htmlFiles) ->
            u ∈ map snd occ /\ broken answer u = false).
  { intros u Hu. apply ScanMore.occurrencesIn_urls in Hu as (F & HF & Hu).
    destruct (repaired_links w1 F u HI HF Hu) as [Hin Hb]. split; [|exact Hb].
    apply ScanMore.occurrencesIn_urls. eauto. }
  destruct (RunMore.onPostBuild_any net htmlFiles i w1)
    as (rep2 & w2 & _ & _ & H2 & Hus & _).
  { eauto. }
  { apply (Inv_exist _ _ HI). }
  { left. split; [exact retries_nonneg|]. apply Forall_forall. intros u Hu.
    unfold allAccepted in accepted. rewrite Forall_forall in accepted.
    apply accepted, Hhealthy, Hu. }
  exists rep2, w2. split; [exact H2|].
  pose proof (onPostBuild_stateless _ _ _ _ _ _ _ H2) as Hok2.
  pose proof (onPostBuild_stateless _ _ _ _ _ _ _ H1) as Hok1.
  destruct (onPostBuild_spec net _ _ _ _ _ H2) as (Hrep2 & _ & _ & Hw2 & Hf2).
  destruct (onPostBuild_spec net _ _ _ _ _ H1) as (Hrep1 & _).
  rewrite Forall_forall in Hok1, Hok2, Hrep1, Hrep2.
  assert (Hall : forall e, e ∈ results rep2 -> e_ok e = true).
  { intros e He. rewrite (Hok2 e He).
    assert (Hu : e_url e ∈ map snd (occurrencesIn pattern w1 htmlFiles)).
    { assert (Hin : e_url e ∈ map e_url (results rep2))
        by (apply list_elem_of_fmap; eauto).
      rewrite Hus in Hin.
      apply indexOf_allUrls in Hin as [Hin|Hin]; [inversion Hin | exact Hin]. }
    destruct (Hhealthy _ Hu) as [_ ->]. reflexivity. }
  split; [apply Hf2, Forall_forall, Hall|]. split.
  { rewrite Hw2.
    replace (list_sum _) with 0%nat; [lia|]. symmetry.
    clear -Hall. induction (results rep2) as [|e l IH]; [reflexivity|].
    cbn [map]. unfold list_sum in *. cbn [fold_right].
    rewrite (Hall e) by left. rewrite IH; [reflexivity|].
    intros e' He'. apply Hall. right. exact He'. }
  split.
  - intros e He. split; [apply Hall, He|].
    rewrite (Hrep2 e He), (Hall e He). reflexivity.
  - intros e He Hr Hin.
    apply list_elem_of_fmap in Hin as (e2 & Heq & He2).
    pose proof (Hall e2 He2) as Ho2. rewrite (Hok2 e2 He2), <- Heq in Ho2.
    pose proof (Hrep1 e He) as Hr1. rewrite Hr in Hr1.
    rewrite (Hok1 e He) in Hr1. rewrite Ho2 in Hr1. discriminate.
Qed.

End Site.
End SecondRun.

(* ------------------------------------------------------------------ *)
(** ** The second run *)
(* ------------------------------------------------------------------ *)




(** The conditions on [href=] cannot be dropped.  With a fallback url that
    ends in [href=], the url behind the repaired link becomes a link: the
    second run finds a url the first run never probed and rewrites the
    file.  So it does when a broken url that ends in [href=] stood in front
    of a quoted url. *)
Lemma second_run_needs_href :
  (Regex.test (Regex.lits "aff.example") hrefFallback = false /\
   quoteFree hrefFallback = true /\
   exists rep1 w1 rep2 w2,
     onPostBuild (stateless wrongScheme (fun _ => Response 500 None))
                 ["a.html"] hrefInputs edgeSite1 = Some (rep1, w1) /\
     map e_url (results rep1) = ["https://aff.example/b"] /\
     wholeValuesOnly "https://aff.example/b"
       (default "" (files edgeSite1 !! "a.html")) = true /\
     onPostBuild (stateless wrongScheme (fun _ => Response 500 None))
                 ["a.html"] hrefInputs w1 = Some (rep2, w2) /\
     map e_url (results rep2) = ["https://aff.example/g"] /\
     writes w2 = S (writes w1)) /\
  (exists rep1 w1 rep2 w2,
     onPostBuild (stateless wrongScheme
                    (aliveOnly "https://aff.example/b?href="))
                 ["a.html"] sampleInputs edgeSite2 = Some (rep1, w1) /\
     map (fun e => (e_url e, replaced e)) (results rep1) =
       [(hrefUrl, true); ("https://aff.example/b?href=", false)] /\
     wholeValuesOnly hrefUrl
       (default "" (files edgeSite2 !! "a.html")) = true /\
     onPostBuild (stateless wrongScheme
                    (aliveOnly "https://aff.example/b?href="))
                 ["a.html"] sampleInputs w1 = Some (rep2, w2) /\
     map e_url (results rep2) = ["https://aff.example/g"] /\
     writes w2 = S (writes w1)).
Proof.
  split.
  - split; [reflexivity|]. split; [reflexivity|].
    eexists _, _, _, _.
    split; [vm_compute; reflexivity|]. split; [reflexivity|].
    split; [vm_compute; reflexivity|].
    split; [vm_compute; reflexivity|]. split; reflexivity.
  - eexists _, _, _, _.
    split; [vm_compute; reflexivity|]. split; [reflexivity|].
    split; [vm_compute; reflexivity|].
    split; [vm_compute; reflexivity|]. split; reflexivity.
Qed.
